(** * The on-disk local cache of the Azure DCAP client (Windows build)

    A shallow embedding of [src/Windows/dll/local_cache.cpp] and the
    properties of its three operations, [local_cache_add],
    [local_cache_get] and [local_cache_clear].

    The program talks to the operating system all the time, so the model
    has two layers.  The lower one is a small model of the Win32 calls the
    source uses (environment block, directories, files, the thread's
    last-error value, the clock); everything the source cannot control is
    an explicit field of [World].  The upper layer is the source itself,
    function by function, written in a state-and-exception monad over
    [World].

    Integer widths follow the 64-bit Windows ABI (LLP64): [int] and
    [DWORD] have 32 bits, [size_t] and [time_t] have 64.

    What the model takes from the platform rather than from the source is
    said where it is defined: which calls set the thread's last-error
    value, what [GetEnvironmentVariable] does to its buffer, how a struct
    is laid out.  Failures that come from outside the program (another
    process holding a file, access rights, a failing disk) are scripted
    in the [World], so that a theorem can say on which machines it
    holds. *)

From Stdlib Require Import ZArith List String Ascii Bool Lia.
From Stdlib Require Import Strings.Byte DecimalString.
From Stdlib Require Import Sorting.Permutation.
Import ListNotations.

Local Open Scope string_scope.
Local Open Scope list_scope.
Local Open Scope Z_scope.

(** ** Machine integers *)

Definition wrap (bits : Z) (z : Z) : Z := z mod 2 ^ bits.

Definition signed (bits : Z) (z : Z) : Z :=
  let u := wrap bits z in
  if u <? 2 ^ (bits - 1) then u else u - 2 ^ bits.

Definition to_DWORD (z : Z) : Z := wrap 32 z.
Definition to_size_t (z : Z) : Z := wrap 64 z.
Definition to_int (z : Z) : Z := signed 32 z.
Definition to_time_t (z : Z) : Z := signed 64 z.

Definition in_time_t (z : Z) : Prop := - 2 ^ 63 <= z < 2 ^ 63.

(** ** Bytes, little endian *)

Definition byte_of_Z (z : Z) : byte :=
  match Byte.of_N (Z.to_N (z mod 256)) with
  | Some b => b
  | None => x00
  end.

Definition Z_of_byte (b : byte) : Z := Z.of_N (Byte.to_N b).

Fixpoint le_bytes (n : nat) (z : Z) : list byte :=
  match n with
  | O => []
  | S n' => byte_of_Z z :: le_bytes n' (z / 256)
  end.

Fixpoint le_value (bs : list byte) : Z :=
  match bs with
  | [] => 0
  | b :: bs' => Z_of_byte b + 256 * le_value bs'
  end.

(** ** Layout of [struct CacheEntryHeaderV1]

    The struct is declared without any packing directive, so its fields
    sit at their natural alignment: each field starts at the next multiple
    of its alignment and the struct size is rounded up to the largest
    alignment.  [time_t] is the 64-bit type of the Microsoft C runtime,
    aligned to eight bytes. *)

Definition align_up (off a : Z) : Z := (off + a - 1) / a * a.

Definition sizeof_uint16_t : Z := 2.
Definition alignof_uint16_t : Z := 2.
Definition sizeof_time_t : Z := 8.
Definition alignof_time_t : Z := 8.

Definition offsetof_version : Z := 0.
Definition offsetof_expiry : Z :=
  align_up (offsetof_version + sizeof_uint16_t) alignof_time_t.
Definition sizeof_CacheEntryHeaderV1 : Z :=
  align_up (offsetof_expiry + sizeof_time_t)
           (Z.max alignof_uint16_t alignof_time_t).

Definition CACHE_V1 : Z := 1.

Record CacheEntryHeaderV1 := mkHeader {
  version : Z;   (* uint16_t *)
  expiry : Z     (* time_t *)
}.

(** The object representation of a header: the bytes [WriteFile] sees
    behind [&header].  The object is created by [header{}] before the two
    fields are assigned; the model takes the alignment gap to hold zero
    bytes, as a zero-filled object does. *)
Definition header_bytes (h : CacheEntryHeaderV1) : list byte :=
  le_bytes (Z.to_nat sizeof_uint16_t) (version h)
  ++ repeat x00 (Z.to_nat (offsetof_expiry - (offsetof_version + sizeof_uint16_t)))
  ++ le_bytes (Z.to_nat sizeof_time_t) (expiry h)
  ++ repeat x00 (Z.to_nat (sizeof_CacheEntryHeaderV1 - (offsetof_expiry + sizeof_time_t))).

(** Reinterpreting a buffer of [sizeof(CacheEntryHeaderV1)] bytes as a
    header, as the cast [(CacheEntryHeaderV1* )buf] does. *)
Definition field_bytes (off size : Z) (buf : list byte) : list byte :=
  firstn (Z.to_nat size) (skipn (Z.to_nat off) buf).

Definition header_of_bytes (buf : list byte) : CacheEntryHeaderV1 :=
  {| version := le_value (field_bytes offsetof_version sizeof_uint16_t buf);
     expiry := to_time_t (le_value (field_bytes offsetof_expiry sizeof_time_t buf)) |}.

Example layout_values :
  offsetof_expiry = 8 /\ sizeof_CacheEntryHeaderV1 = 16.
Proof. split; reflexivity. Qed.

(** ** The operating system as the program sees it *)

(** Win32 error codes ([winerror.h]). *)
Module Err.
Definition ERROR_SUCCESS : Z := 0.
Definition ERROR_FILE_NOT_FOUND : Z := 2.
Definition ERROR_PATH_NOT_FOUND : Z := 3.
Definition ERROR_ACCESS_DENIED : Z := 5.
Definition ERROR_SHARING_VIOLATION : Z := 32.
Definition ERROR_ALREADY_EXISTS : Z := 183.
Definition ERROR_ENVVAR_NOT_FOUND : Z := 203.
End Err.
Import Err.

Inductive Disposition := CREATE_ALWAYS | OPEN_EXISTING.
Inductive Access := GENERIC_READ | GENERIC_WRITE.
Definition FILE_SHARE_NONE : Z := 0.
Definition FILE_SHARE_READ : Z := 1.

Inductive BCryptCall :=
| OpenAlgorithmProvider
| GetProperty_ObjectLength
| GetProperty_HashLength
| CreateHash
| HashData
| FinishHash.

(** A file handle: the file it was opened on and its file pointer.
    [INVALID_HANDLE_VALUE] is [None] in [option HANDLE]. *)
Record HANDLE := mkHandle {
  h_path : string;
  h_pos : nat
}.

(** Calls that reach the environment block or the file system, in the
    order they were made (newest first). *)
Inductive Event :=
| EvGetEnvironmentVariable (name : string)
| EvCreateDirectory (path : string)
| EvCreateFile (path : string) (access : Access) (disposition : Disposition)
| EvSleep (ms : Z)
| EvReadFile (path : string) (count : Z)
| EvWriteFile (path : string) (data : list byte)
| EvGetFileSize (path : string)
| EvCloseHandle (file : option HANDLE)
| EvDeleteFile (path : string)
| EvFindFirstFile (pattern : string)
| EvFindNextFile
| EvFindClose.

(** What the program has no say in: failures caused by other processes,
    permissions or hardware, the cryptographic provider, the order in
    which the file system hands out the names of a directory, and the
    order in which the build evaluates the arguments of a call.  An error
    code of [0] means that nothing goes wrong. *)
Record Oracle := mkOracle {
  mkdir_fault : string -> Z;        (* CreateDirectory on a path *)
  read_fault : string -> nat -> Z;  (* ReadFile on a path at a file offset *)
  write_fault : string -> nat -> Z; (* WriteFile on a path at a file offset *)
  delete_fault : string -> Z;       (* DeleteFileW on a path *)
  bcrypt_status : BCryptCall -> Z;  (* the NTSTATUS each BCrypt call returns *)
  bcrypt_digest : list byte -> list byte; (* the [cbHash] bytes BCryptFinishHash delivers *)
  heap_exhausted : bool;            (* HeapAlloc returns NULL *)
  search_rank : string -> nat;      (* a search returns the names of a directory by
                                       rising rank; FindFirstFile promises no order *)
  args_right_to_left : bool         (* the build evaluates the arguments of a call
                                       last to first; C++ leaves the order open *)
}.

Record World := mkWorld {
  (* the process *)
  init_flag : bool;           (* the [std::once_flag] inside [init] *)
  g_cache_dirname : string;
  last_error : Z;             (* what [GetLastError] returns on this thread *)
  (* the machine *)
  env_vars : list (string * string);
  dirs : list string;                   (* directories that exist *)
  files : list (string * list byte);    (* path and contents; a search returns names
                                           of equal rank in the order of this list *)
  now : Z;                              (* what [time(nullptr)] returns; only the
                                           expiry test of [local_cache_get] reads it *)
  (* the rest *)
  fresh_memory : list string; (* the C string found in each next [new TCHAR[]] *)
  open_faults : list Z;       (* forced outcome of each next CreateFile call *)
  oracle : Oracle;
  trace : list Event
}.

Definition set_init_flag (b : bool) (w : World) : World :=
  mkWorld b (g_cache_dirname w) (last_error w) (env_vars w) (dirs w) (files w)
          (now w) (fresh_memory w) (open_faults w) (oracle w) (trace w).
Definition set_g_cache_dirname (d : string) (w : World) : World :=
  mkWorld (init_flag w) d (last_error w) (env_vars w) (dirs w) (files w)
          (now w) (fresh_memory w) (open_faults w) (oracle w) (trace w).
Definition set_last_error (e : Z) (w : World) : World :=
  mkWorld (init_flag w) (g_cache_dirname w) e (env_vars w) (dirs w) (files w)
          (now w) (fresh_memory w) (open_faults w) (oracle w) (trace w).
Definition set_dirs (ds : list string) (w : World) : World :=
  mkWorld (init_flag w) (g_cache_dirname w) (last_error w) (env_vars w) ds (files w)
          (now w) (fresh_memory w) (open_faults w) (oracle w) (trace w).
Definition set_files (fs : list (string * list byte)) (w : World) : World :=
  mkWorld (init_flag w) (g_cache_dirname w) (last_error w) (env_vars w) (dirs w) fs
          (now w) (fresh_memory w) (open_faults w) (oracle w) (trace w).
Definition set_now (t : Z) (w : World) : World :=
  mkWorld (init_flag w) (g_cache_dirname w) (last_error w) (env_vars w) (dirs w) (files w)
          t (fresh_memory w) (open_faults w) (oracle w) (trace w).
Definition set_fresh_memory (m : list string) (w : World) : World :=
  mkWorld (init_flag w) (g_cache_dirname w) (last_error w) (env_vars w) (dirs w) (files w)
          (now w) m (open_faults w) (oracle w) (trace w).
Definition set_open_faults (s : list Z) (w : World) : World :=
  mkWorld (init_flag w) (g_cache_dirname w) (last_error w) (env_vars w) (dirs w) (files w)
          (now w) (fresh_memory w) s (oracle w) (trace w).
Definition set_trace (t : list Event) (w : World) : World :=
  mkWorld (init_flag w) (g_cache_dirname w) (last_error w) (env_vars w) (dirs w) (files w)
          (now w) (fresh_memory w) (open_faults w) (oracle w) t.

(** ** Computations: state and C++ exceptions *)

Inductive exn :=
| runtime_error (what : string)
| length_error (what : string).

Definition M (A : Type) : Type := World -> (exn + A) * World.

Definition ret {A} (a : A) : M A := fun w => (inr a, w).
Definition throw {A} (e : exn) : M A := fun w => (inl e, w).
Definition bind {A B} (m : M A) (k : A -> M B) : M B :=
  fun w =>
    match m w with
    | (inl e, w') => (inl e, w')
    | (inr a, w') => k a w'
    end.

Notation "x <- m ;; k" := (bind m (fun x => k))
  (at level 61, m at next level, right associativity).
Notation "m ;; k" := (bind m (fun _ => k))
  (at level 61, right associativity).

Definition modify (f : World -> World) : M unit := fun w => (inr tt, f w).
Definition log (e : Event) : M unit := modify (fun w => set_trace (e :: trace w) w).

(** ** Paths *)

Definition backslash : ascii := "\"%char.

Fixpoint no_backslash (s : string) : bool :=
  match s with
  | EmptyString => true
  | String c s' => negb (Ascii.eqb c backslash) && no_backslash s'
  end.

Fixpoint strip_prefix (p s : string) : option string :=
  match p, s with
  | EmptyString, _ => Some s
  | String a p', String b s' => if Ascii.eqb a b then strip_prefix p' s' else None
  | String _ _, EmptyString => None
  end.

(** [child_name d p] is the name of [p] inside directory [d], when [p] lies
    directly in [d]. *)
Definition child_name (d p : string) : option string :=
  match strip_prefix (d ++ "\")%string p with
  | Some n => if no_backslash n then Some n else None
  | None => None
  end.

Definition parent_exists (p : string) (ds : list string) : bool :=
  existsb (fun d => match child_name d p with Some _ => true | None => false end) ds.

(** The directory a search pattern of the form [dir\*] names. *)
Fixpoint pattern_dir (s : string) : option string :=
  match s with
  | EmptyString => None
  | String c s' =>
      if String.eqb s "\*" then Some EmptyString
      else option_map (String c) (pattern_dir s')
  end.

Fixpoint file_lookup (p : string) (fs : list (string * list byte)) : option (list byte) :=
  match fs with
  | [] => None
  | (q, c) :: fs' => if String.eqb p q then Some c else file_lookup p fs'
  end.

Fixpoint file_store (p : string) (c : list byte) (fs : list (string * list byte))
  : list (string * list byte) :=
  match fs with
  | [] => [(p, c)]
  | (q, d) :: fs' => if String.eqb p q then (q, c) :: fs' else (q, d) :: file_store p c fs'
  end.

Definition file_remove (p : string) (fs : list (string * list byte))
  : list (string * list byte) :=
  filter (fun e => negb (String.eqb p (fst e))) fs.

Definition children (d : string) (fs : list (string * list byte)) : list string :=
  flat_map (fun e => match child_name d (fst e) with Some n => [n] | None => [] end) fs.

(** The directories directly below [d]. *)
Definition subdirectories (d : string) (ds : list string) : list string :=
  flat_map (fun p => match child_name d p with Some n => [n] | None => [] end) ds.

(** Names in the order of a search: by rising rank, names of equal rank
    in the order they come in. *)
Fixpoint insert_by_rank (rank : string -> nat) (n : string) (names : list string)
  : list string :=
  match names with
  | [] => [n]
  | m :: rest =>
      if (rank n <=? rank m)%nat then n :: names
      else m :: insert_by_rank rank n rest
  end.

Definition in_search_order (rank : string -> nat) (names : list string) : list string :=
  fold_right (insert_by_rank rank) [] names.

Definition is_file (p : string) (fs : list (string * list byte)) : bool :=
  match file_lookup p fs with Some _ => true | None => false end.

Definition env_lookup (name : string) (env : list (string * string)) : option string :=
  option_map snd (find (fun e => String.eqb name (fst e)) env).

(** ** The Win32 calls the source makes *)

Definition GetLastError : M Z := fun w => (inr (last_error w), w).
Definition SetLastError (e : Z) : M unit := modify (set_last_error e).

Definition Sleep (ms : Z) : M unit := log (EvSleep ms).

Definition time : M Z := fun w => (inr (now w), w).

(** [new TCHAR[n]]: the array is not initialised, it holds whatever the
    allocator hands out. *)
Definition new_TCHAR : M string :=
  fun w => (inr (hd EmptyString (fresh_memory w)),
            set_fresh_memory (tl (fresh_memory w)) w).

(** [GetEnvironmentVariable name buf size]: a defined variable is copied
    into the buffer; for an undefined one the call fails with
    [ERROR_ENVVAR_NOT_FOUND] and leaves the buffer alone.  The result is
    the buffer afterwards (the source ignores the returned length). *)
Definition GetEnvironmentVariable (name : string) (buf : string) : M string :=
  log (EvGetEnvironmentVariable name) ;;
  fun w =>
    match env_lookup name (env_vars w) with
    | Some v => (inr v, w)
    | None => (inr buf, set_last_error ERROR_ENVVAR_NOT_FOUND w)
    end.

(** [CreateDirectory]: the result is the [BOOL] it returns.  A successful
    call does not touch the last-error value. *)
Definition CreateDirectory (path : string) : M bool :=
  log (EvCreateDirectory path) ;;
  fun w =>
    if existsb (String.eqb path) (dirs w) then
      (inr false, set_last_error ERROR_ALREADY_EXISTS w)
    else if mkdir_fault (oracle w) path =? 0 then
      (inr true, set_dirs (dirs w ++ [path]) w)
    else
      (inr false, set_last_error (mkdir_fault (oracle w) path) w).

(** [CreateFile]: a forced outcome from [open_faults] wins (a non-zero
    code is the failure another process or the access rights cause);
    otherwise the file system decides.  A successful call sets the
    last-error value: to [ERROR_ALREADY_EXISTS] when [CREATE_ALWAYS]
    replaced a file, to zero otherwise. *)
Definition CreateFile_honest (path : string) (disp : Disposition) : M (option HANDLE) :=
  fun w =>
    if negb (parent_exists path (dirs w)) then
      (inr None, set_last_error ERROR_PATH_NOT_FOUND w)
    else
      match disp, file_lookup path (files w) with
      | OPEN_EXISTING, Some _ =>
          (inr (Some (mkHandle path 0)), set_last_error ERROR_SUCCESS w)
      | OPEN_EXISTING, None =>
          (inr None, set_last_error ERROR_FILE_NOT_FOUND w)
      | CREATE_ALWAYS, Some _ =>
          (inr (Some (mkHandle path 0)),
           set_last_error ERROR_ALREADY_EXISTS (set_files (file_store path [] (files w)) w))
      | CREATE_ALWAYS, None =>
          (inr (Some (mkHandle path 0)),
           set_last_error ERROR_SUCCESS (set_files (file_store path [] (files w)) w))
      end.

Definition CreateFile (path : string) (access : Access) (share : Z) (disp : Disposition)
  : M (option HANDLE) :=
  log (EvCreateFile path access disp) ;;
  fun w =>
    match open_faults w with
    | [] => CreateFile_honest path disp w
    | e :: rest =>
        if e =? 0 then CreateFile_honest path disp (set_open_faults rest w)
        else (inr None, set_last_error e (set_open_faults rest w))
    end.

Definition file_contents (path : string) (w : World) : list byte :=
  match file_lookup path (files w) with
  | Some c => c
  | None => []
  end.

(** Writing [got] over the start of [buf].  (Were [got] longer than
    [buf], the call would write past the buffer; the model then keeps all
    of [got].) *)
Definition blit (got buf : list byte) : list byte :=
  got ++ skipn (List.length got) buf.

(** [ReadFile file buf count]: reads up to [count] bytes at the file
    pointer into [buf] and advances the pointer; at the end of the file
    it succeeds with fewer (or no) bytes.  The result is the [BOOL], the
    buffer afterwards, the number of bytes read and the handle.  Only a
    failing call touches the last-error value. *)
Definition ReadFile (file : HANDLE) (buf : list byte) (count : Z)
  : M (bool * list byte * Z * HANDLE) :=
  log (EvReadFile (h_path file) count) ;;
  fun w =>
    let e := read_fault (oracle w) (h_path file) (h_pos file) in
    if e =? 0 then
      let got := firstn (Z.to_nat count) (skipn (h_pos file) (file_contents (h_path file) w)) in
      (inr (true, blit got buf, Z.of_nat (List.length got),
            mkHandle (h_path file) (h_pos file + List.length got)), w)
    else
      (inr (false, buf, 0, file), set_last_error e w).

(** [WriteFile file data]: writes at the file pointer and advances it. *)
Definition WriteFile (file : HANDLE) (data : list byte) : M (bool * HANDLE) :=
  log (EvWriteFile (h_path file) data) ;;
  fun w =>
    let e := write_fault (oracle w) (h_path file) (h_pos file) in
    if e =? 0 then
      let old := file_contents (h_path file) w in
      let new := firstn (h_pos file) old ++ data
                 ++ skipn (h_pos file + List.length data) old in
      (inr (true, mkHandle (h_path file) (h_pos file + List.length data)),
       set_files (file_store (h_path file) new (files w)) w)
    else
      (inr (false, file), set_last_error e w).

(** [GetFileSize file nullptr]: the low-order 32 bits of the size. *)
Definition GetFileSize (file : HANDLE) : M Z :=
  log (EvGetFileSize (h_path file)) ;;
  fun w => (inr (to_DWORD (Z.of_nat (List.length (file_contents (h_path file) w)))), w).

Definition CloseHandle (file : option HANDLE) : M unit := log (EvCloseHandle file).

(** [DeleteFileW]: deletes a file; on a path that is a directory it
    fails with [ERROR_ACCESS_DENIED], on a path that is nothing with
    [ERROR_FILE_NOT_FOUND]. *)
Definition DeleteFileW (path : string) : M bool :=
  log (EvDeleteFile path) ;;
  fun w =>
    let e := delete_fault (oracle w) path in
    if negb (e =? 0) then (inr false, set_last_error e w)
    else
      match file_lookup path (files w) with
      | Some _ => (inr true, set_files (file_remove path (files w)) w)
      | None =>
          if existsb (String.eqb path) (dirs w)
          then (inr false, set_last_error ERROR_ACCESS_DENIED w)
          else (inr false, set_last_error ERROR_FILE_NOT_FOUND w)
      end.

(** What a search of the directory [d] returns after [.] and [..]: the
    names of the files and of the directories directly below [d], in the
    order of the file system. *)
Definition dir_entries (d : string) (w : World) : list string :=
  in_search_order (search_rank (oracle w))
                  (children d (files w) ++ subdirectories d (dirs w)).

(** [FindFirstFile pattern]: the first name and a search handle holding
    the names still to come; the listing is taken when the search starts.
    A directory always lists itself and its parent first, then its
    files and its subdirectories. *)
Definition FindFirstFile (pattern : string) : M (option (string * list string)) :=
  log (EvFindFirstFile pattern) ;;
  fun w =>
    match pattern_dir pattern with
    | Some d =>
        if existsb (String.eqb d) (dirs w) then
          (inr (Some (".", ".." :: dir_entries d w)), w)
        else (inr None, set_last_error ERROR_PATH_NOT_FOUND w)
    | None => (inr None, set_last_error ERROR_PATH_NOT_FOUND w)
    end.

Definition FindClose : M unit := log EvFindClose.

(** ** The program *)

Definition MAX_RETRY : Z := 10000.
Definition SLEEP_RETRY_MS : Z := 15.

Definition throw_if (should_throw : bool) (error : string) : M unit :=
  if should_throw then throw (runtime_error error) else ret tt.

Definition throw_if_file (should_throw : bool) (error : string) (file : option HANDLE)
  : M unit :=
  if should_throw then CloseHandle file ;; throw (runtime_error error) else ret tt.

Definition fthrow_if (should_throw : bool) (error : string) : M unit :=
  if should_throw then FindClose ;; throw (runtime_error error) else ret tt.

Definition make_dir (dirname : string) : M unit :=
  _ <- CreateDirectory dirname ;;
  e1 <- GetLastError ;;
  e2 <- GetLastError ;;
  throw_if ((e1 =? ERROR_PATH_NOT_FOUND) && negb (e2 =? ERROR_ALREADY_EXISTS))
           "Path not found".

Definition application_name : string := "\.az-dcap-client".

Definition c_str_nonempty (s : string) : bool :=
  match s with EmptyString => false | String _ _ => true end.

Definition init_callback : M unit :=
  env_home <- new_TCHAR ;;
  env_home <- GetEnvironmentVariable "LOCALAPPDATA" env_home ;;
  env_azdcap_cache <- new_TCHAR ;;
  env_azdcap_cache <- GetEnvironmentVariable "AZDCAP_CACHE" env_azdcap_cache ;;
  dirname <-
    (if c_str_nonempty env_home then ret env_home
     else if c_str_nonempty env_azdcap_cache then ret env_azdcap_cache
     else throw (runtime_error
                   "LOCALAPPDATA and AZDCAPCACHE environment variables not defined")) ;;
  let dirname := (dirname ++ application_name)%string in
  make_dir dirname ;;
  modify (set_g_cache_dirname dirname).

(** [std::call_once]: the flag is set only when the callback returns. *)
Definition init : M unit :=
  fun w =>
    if init_flag w then (inr tt, w)
    else (init_callback ;; modify (set_init_flag true)) w.

(** *** The hasher *)

Definition NT_SUCCESS (status : Z) : bool := 0 <=? status.
Definition STATUS_UNSUCCESSFUL : Z := to_int 0xC0000001.
Definition STATUS_NO_MEMORY : Z := to_int 0xC0000017.

Definition newline : string := String (ascii_of_nat 10) EmptyString.

(** [std::to_string] of a signed integer. *)
Definition to_string (z : Z) : string := NilZero.string_of_int (Z.to_int z).

Definition bcrypt_error (status : Z) (call : string) : string :=
  ("Error 0x" ++ to_string status ++ "returned by " ++ call ++ newline)%string.

Definition hex_digit (n : N) : ascii :=
  match String.get (N.to_nat n) "0123456789abcdef" with
  | Some c => c
  | None => "0"%char
  end.

(** [snprintf(buf, sizeof(buf), "%02x", b)] *)
Definition hex_of_byte (b : byte) : string :=
  String (hex_digit (Byte.to_N b / 16)) (String (hex_digit (Byte.to_N b mod 16)) EmptyString).

Fixpoint hex_of_bytes (bs : list byte) : string :=
  match bs with
  | [] => EmptyString
  | b :: bs' => (hex_of_byte b ++ hex_of_bytes bs')%string
  end.

(** The straight-line body of [sha256] up to the label [Cleanup]: the
    final [status], [errorString] and [retval].  The second step compares
    [status] with the result of [BCryptGetProperty] instead of assigning
    it, as the source does, so that step cannot fail. *)
Definition sha256_body (o : Oracle) (data : list byte) : Z * string * string :=
  let status := bcrypt_status o OpenAlgorithmProvider in
  if negb (NT_SUCCESS status) then
    (status, bcrypt_error status "BCryptOpenAlgorithmProvider", EmptyString)
  else if negb (NT_SUCCESS (if status =? bcrypt_status o GetProperty_ObjectLength
                            then 1 else 0)) then
    (status, bcrypt_error status "BCryptGetProperty", EmptyString)
  else if heap_exhausted o then
    (STATUS_NO_MEMORY, ("Memory allocation failed" ++ newline)%string, EmptyString)
  else
  let status := bcrypt_status o GetProperty_HashLength in
  if negb (NT_SUCCESS status) then
    (status, bcrypt_error status "BCryptGetProperty", EmptyString)
  else if heap_exhausted o then
    (STATUS_NO_MEMORY, ("Memory allocation failed" ++ newline)%string, EmptyString)
  else
  let status := bcrypt_status o CreateHash in
  if negb (NT_SUCCESS status) then
    (status, bcrypt_error status "BCryptCreateHash", EmptyString)
  else
  let status := bcrypt_status o HashData in
  if negb (NT_SUCCESS status) then
    (status, bcrypt_error status "BCryptHashData", EmptyString)
  else
  let status := bcrypt_status o FinishHash in
  if negb (NT_SUCCESS status) then
    (status, bcrypt_error status "BCryptFinishHash", EmptyString)
  else
    (status, EmptyString, hex_of_bytes (bcrypt_digest o data)).

Definition sha256_data (data_size : Z) (data : list byte) : M string :=
  fun w =>
    let '(status, errorString, retval) :=
      sha256_body (oracle w) (firstn (Z.to_nat (to_DWORD data_size)) data) in
    (throw_if (negb (NT_SUCCESS status)) errorString ;; ret retval) w.

Definition sha256 (input : string) : M string :=
  sha256_data (Z.of_nat (String.length input)) (list_byte_of_string input).

Definition get_file_name (id : string) : M string :=
  name <- sha256 id ;;
  fun w => (inr (g_cache_dirname w ++ "\" ++ name)%string, w).

(** *** Clearing the cache *)

Definition ERROR_NO_MORE_FILES : Z := 18.

(** The search handle is the list of names still to come. *)
Definition FindNextFile (hFind : list string) : M bool :=
  log EvFindNextFile ;;
  match hFind with
  | [] => SetLastError ERROR_NO_MORE_FILES ;; ret false
  | _ :: _ => ret true
  end.

(** [literal + n] on a string literal is pointer arithmetic: the message
    becomes the literal without its first [n] characters.  Beyond the end
    of the literal C++ leaves the result undefined; the model takes the
    empty string there. *)
Definition literal_plus (literal : string) (n : Z) : string :=
  substring (Z.to_nat n) (String.length literal - Z.to_nat n) literal.

(** [fileName.compare(L".") && fileName.compare(L"..")]: [compare] is
    zero on equal strings. *)
Definition is_real_entry (fileName : string) : bool :=
  negb (String.eqb fileName ".") && negb (String.eqb fileName "..").

(** The body of the loop.  [DeleteFileW] and [GetLastError] are called
    in two arguments of one call of [fthrow_if], and C++ does not say
    which argument is evaluated first: a build that goes right to left
    reads the last-error value before the deletion, one that goes left to
    right reads it after. *)
Definition clear_entry (baseDir fileName : string) : M unit :=
  if is_real_entry fileName then
    let fullFileName := (baseDir ++ "\" ++ fileName)%string in
    let literal := "Deleting file failed, error code " in
    fun w =>
      if args_right_to_left (oracle w) then
        (err <- GetLastError ;;
         deleted <- DeleteFileW fullFileName ;;
         fthrow_if (negb deleted) (literal_plus literal err)) w
      else
        (deleted <- DeleteFileW fullFileName ;;
         err <- GetLastError ;;
         fthrow_if (negb deleted) (literal_plus literal err)) w
  else ret tt.

Fixpoint clear_loop (baseDir fileName : string) (hFind : list string) : M unit :=
  clear_entry baseDir fileName ;;
  _ <- FindNextFile hFind ;;
  match hFind with
  | [] => ret tt
  | next :: rest => clear_loop baseDir next rest
  end.

Definition local_cache_clear : M unit :=
  init ;;
  baseDir <- (fun w => (inr (g_cache_dirname w), w)) ;;
  let searchPattern := (baseDir ++ "\*")%string in
  hFind <- FindFirstFile searchPattern ;;
  match hFind with
  | Some (fileName, rest) => clear_loop baseDir fileName rest ;; FindClose
  | None => ret tt
  end.

(** *** Opening a file that another process may hold *)

Definition is_invalid (file : option HANDLE) : bool :=
  match file with None => true | Some _ => false end.

(** The [do ... while] loop of [OpenHandle], entered with the counter at
    [i].  [fuel] bounds the unrolling; [MAX_RETRY] rounds are never
    exceeded, so the loop does not run out of it. *)
Fixpoint OpenHandle_loop (fuel : nat) (i : Z)
  (lpFileName : string) (access : Access) (share : Z) (disp : Disposition)
  : M (option HANDLE) :=
  match fuel with
  | O => ret None
  | S fuel' =>
      file <- CreateFile lpFileName access share disp ;;
      Sleep SLEEP_RETRY_MS ;;
      let i := i + 1 in
      err <- GetLastError ;;
      if is_invalid file && (err =? ERROR_SHARING_VIOLATION) && (i <? MAX_RETRY)
      then OpenHandle_loop fuel' i lpFileName access share disp
      else ret file
  end.

Definition OpenHandle (lpFileName : string) (access : Access) (share : Z)
  (disp : Disposition) : M (option HANDLE) :=
  OpenHandle_loop (Z.to_nat MAX_RETRY) 0 lpFileName access share disp.

(** *** Adding and getting an entry *)

Definition string_empty (s : string) : bool :=
  match s with EmptyString => true | String _ _ => false end.

(** The two writes of [local_cache_add] and the close after them (the
    part of the function that follows the successful open). *)
Definition write_entry (file : HANDLE) (header : CacheEntryHeaderV1) (data_size : Z)
  (data : list byte) : M unit :=
  r <- WriteFile file (header_bytes header) ;;
  let '(written, file) := r in
  throw_if_file (negb written) "Header write to local cache failed" (Some file) ;;
  r <- WriteFile file (firstn (Z.to_nat (to_DWORD data_size)) data) ;;
  let '(written, file) := r in
  throw_if_file (negb written) "Data write to local cache failed" (Some file) ;;
  CloseHandle (Some file).

(** [data] is the buffer behind the pointer, [None] for [nullptr]. *)
Definition local_cache_add (id : string) (expiry : Z) (data_size : Z)
  (data : option (list byte)) : M unit :=
  throw_if (string_empty id) "The 'id' parameter must not be empty." ;;
  throw_if (data_size =? 0) "Data cannot be empty." ;;
  match data with
  | None => throw_if true "Data pointer must not be NULL."
  | Some data =>
      init ;;
      let header := {| version := CACHE_V1; expiry := expiry |} in
      filename <- get_file_name id ;;
      file <- OpenHandle filename GENERIC_WRITE FILE_SHARE_NONE CREATE_ALWAYS ;;
      match file with
      | None => throw_if_file true "Create file failed" None
      | Some file => write_entry file header data_size data
      end
  end.

(** [std::vector<uint8_t>(n)]: [n] zero bytes, or [std::length_error] when
    [n] exceeds [max_size()]. *)
Definition vector_max_size : Z := 2 ^ 63 - 1.

Definition make_vector (n : Z) : M (list byte) :=
  if n >? vector_max_size then throw (length_error "vector too long")
  else ret (repeat x00 (Z.to_nat n)).

(** [int datasize = size - sizeof(CacheEntryHeaderV1)]: the subtraction is
    done in [size_t], the result converted to [int]. *)
Definition payload_size (size : Z) : Z :=
  to_int (to_size_t (size - sizeof_CacheEntryHeaderV1)).

(** The part of [local_cache_get] that follows the successful open: the
    header read, the expiry test and the payload read. *)
Definition read_entry (filename : string) (file : HANDLE) : M (option (list byte)) :=
  let buf := repeat x00 (Z.to_nat sizeof_CacheEntryHeaderV1) in
  r <- ReadFile file buf sizeof_CacheEntryHeaderV1 ;;
  let '(_, buf, headerread, file) := r in
  err <- GetLastError ;;
  throw_if_file (negb (err =? 0)) "Header read from local cache failed" (Some file) ;;
  let header := header_of_bytes buf in
  t <- time ;;
  if expiry header <=? t then
    CloseHandle (Some file) ;;
    _ <- DeleteFileW filename ;;
    ret None
  else
    size <- GetFileSize file ;;
    let datasize := payload_size size in
    cache_entry <- make_vector (to_size_t datasize) ;;
    r <- ReadFile file cache_entry size ;;
    let '(_, cache_entry, dataread, file) := r in
    err <- GetLastError ;;
    throw_if_file (negb (err =? 0)) "Data read from local cache failed" (Some file) ;;
    throw_if_file (negb (dataread =? to_DWORD datasize))
                  "Something wrong with data" (Some file) ;;
    CloseHandle (Some file) ;;
    ret (Some cache_entry).

Definition local_cache_get (id : string) : M (option (list byte)) :=
  throw_if (string_empty id) "The 'id' parameter must not be empty." ;;
  init ;;
  filename <- get_file_name id ;;
  file <- OpenHandle filename GENERIC_READ FILE_SHARE_READ OPEN_EXISTING ;;
  match file with
  | None => ret None
  | Some file => read_entry filename file
  end.

(** ** Sample environments

    A machine on which nothing goes wrong, used to run the model on
    concrete inputs.  Its provider returns a four-byte stand-in digest. *)

Definition sample_digest (data : list byte) : list byte :=
  firstn 4 (data ++ repeat x00 4).

Definition quiet_oracle : Oracle :=
  mkOracle (fun _ => 0) (fun _ _ => 0) (fun _ _ => 0) (fun _ => 0)
           (fun _ => 0) sample_digest false (fun _ => O) false.

Definition fresh_machine : World :=
  mkWorld false EmptyString 0 [("LOCALAPPDATA", "C:\Local")] ["C:\Local"] []
          1700000000 [] [] quiet_oracle [].

Definition entry_path : string := "C:\Local\.az-dcap-client\6b000000".

(** The machine after the cache directory has been resolved. *)
Definition ready_machine : World := snd (init fresh_machine).

(** The machine after the two bytes [AB] were stored under the key [k],
    to expire an hour after the sample clock. *)
Definition stored_machine : World :=
  snd (local_cache_add "k" 1700003600 2 (Some [x41; x42]) fresh_machine).

(** The same, with an expiry in the past. *)
Definition expired_machine : World :=
  snd (local_cache_add "k" 1600000000 2 (Some [x41; x42]) fresh_machine).

(** The stored entry, while the access rights refuse the next open, and
    while another process keeps the file for 10000 rounds. *)
Definition denied_machine : World :=
  set_open_faults [ERROR_ACCESS_DENIED] stored_machine.

Definition busy_machine : World :=
  set_open_faults (repeat ERROR_SHARING_VIOLATION (Z.to_nat MAX_RETRY)) stored_machine.

(** An entry file cut off after twelve bytes, the four expiry bytes it
    still has all set. *)
Definition short_entry_machine : World :=
  set_files [(entry_path,
              [x01; x00; x00; x00; x00; x00; x00; x00; xff; xff; xff; xff])]
            ready_machine.

(** An entry file without a single byte. *)
Definition empty_entry_machine : World := set_files [(entry_path, [])] ready_machine.

(** A machine on which the cache directory cannot be created. *)
Definition read_only_oracle : Oracle :=
  mkOracle (fun _ => ERROR_ACCESS_DENIED) (fun _ _ => 0) (fun _ _ => 0) (fun _ => 0)
           (fun _ => 0) sample_digest false (fun _ => O) false.

Definition read_only_machine : World :=
  mkWorld false EmptyString 0 [("LOCALAPPDATA", "C:\Local")] ["C:\Local"] []
          1700000000 [] [] read_only_oracle [].

(** A machine without [LOCALAPPDATA], with the override set. *)
Definition service_machine : World :=
  mkWorld false EmptyString 0 [("AZDCAP_CACHE", "D:\Cache")] ["D:\Cache"] []
          1700000000 [] [] quiet_oracle [].

(** A machine with the override set and without [LOCALAPPDATA], on which
    the first array that [new TCHAR[]] hands out still holds a string
    from an earlier use of the memory; and a machine on which neither
    variable is defined, with the same array. *)
Definition stale_buffer_machine : World :=
  mkWorld false EmptyString 0 [("AZDCAP_CACHE", "D:\Cache")] ["D:\Cache"; "C:\Temp"] []
          1700000000 ["C:\Temp"] [] quiet_oracle [].

Definition unconfigured_machine : World :=
  mkWorld false EmptyString 0 [] ["C:\Temp"] []
          1700000000 ["C:\Temp"] [] quiet_oracle [].

(** A cache directory with three entries, the second of which cannot be
    deleted. *)
Definition locked_oracle : Oracle :=
  mkOracle (fun _ => 0) (fun _ _ => 0) (fun _ _ => 0)
           (fun p => if String.eqb p "C:\Local\.az-dcap-client\bb"
                     then ERROR_ACCESS_DENIED else 0)
           (fun _ => 0) sample_digest false (fun _ => O) false.

Definition cluttered_machine : World :=
  mkWorld false EmptyString 0 [("LOCALAPPDATA", "C:\Local")]
          ["C:\Local"; "C:\Local\.az-dcap-client"]
          [("C:\Local\.az-dcap-client\aa", [x01]);
           ("C:\Local\.az-dcap-client\bb", [x02]);
           ("C:\Local\.az-dcap-client\cc", [x03])]
          1700000000 [] [] locked_oracle [].

(** A cache directory among other files: one beside it, one in a
    subdirectory of it. *)
Definition shared_machine : World :=
  mkWorld false EmptyString 0 [("LOCALAPPDATA", "C:\Local")]
          ["C:\Local"; "C:\Local\.az-dcap-client"; "C:\Local\.az-dcap-client\sub"]
          [("C:\Local\notes.txt", [x01]);
           ("C:\Local\.az-dcap-client\aa", [x02]);
           ("C:\Local\.az-dcap-client\sub\bb", [x03])]
          1700000000 [] [] quiet_oracle [].


(** * Properties *)

(** ** The retry loop of [OpenHandle] *)

Section Opener.

Variables (lpFileName : string) (access : Access) (share : Z) (disp : Disposition).

(** One round of the loop: the open call and the pause after it. *)
Definition open_attempt : M (option HANDLE) :=
  file <- CreateFile lpFileName access share disp ;;
  Sleep SLEEP_RETRY_MS ;;
  ret file.

(** The number of rounds the environment answers with a sharing violation
    before it answers anything else. *)
Fixpoint leading_busy (faults : list Z) : nat :=
  match faults with
  | e :: rest => if e =? ERROR_SHARING_VIOLATION then S (leading_busy rest) else O
  | [] => O
  end.

Definition is_open_call (e : Event) : bool :=
  match e with EvCreateFile _ _ _ => true | _ => false end.

Definition open_calls (w : World) : nat := List.length (filter is_open_call (trace w)).

Lemma CreateFile_honest_returns w :
  exists file w1,
    CreateFile_honest lpFileName disp w = (inr file, w1)
    /\ last_error w1 <> ERROR_SHARING_VIOLATION
    /\ trace w1 = trace w /\ open_faults w1 = open_faults w.
Proof.
  unfold CreateFile_honest.
  destruct (negb (parent_exists lpFileName (dirs w))).
  - eexists _, _. split; [reflexivity|]. simpl. repeat split. discriminate.
  - destruct disp, (file_lookup lpFileName (files w));
      (eexists _, _; split; [reflexivity|]; simpl; repeat split; discriminate).
Qed.

(** A round either is answered with a sharing violation, which the head of
    [open_faults] announces, or ends with another last-error value. *)
Lemma open_attempt_cases w :
  exists file w1,
    open_attempt w = (inr file, w1)
    /\ open_calls w1 = S (open_calls w)
    /\ match open_faults w with
       | e :: rest =>
           open_faults w1 = rest
           /\ (e = ERROR_SHARING_VIOLATION ->
               file = None /\ last_error w1 = ERROR_SHARING_VIOLATION)
           /\ (e <> ERROR_SHARING_VIOLATION ->
               last_error w1 <> ERROR_SHARING_VIOLATION)
       | [] => open_faults w1 = [] /\ last_error w1 <> ERROR_SHARING_VIOLATION
       end.
Proof.
  unfold open_attempt, CreateFile, Sleep, log, modify, bind, ret, open_calls. simpl.
  destruct (open_faults w) as [|e rest] eqn:Hf.
  - destruct (CreateFile_honest_returns (set_trace (EvCreateFile lpFileName access disp :: trace w) w))
      as (file & w1 & -> & Herr & Htr & Hof).
    eexists _, _. split; [reflexivity|]. simpl. rewrite Htr. simpl.
    split; [reflexivity|]. split; [rewrite Hof; simpl; assumption | assumption].
  - destruct (e =? 0) eqn:He.
    + destruct (CreateFile_honest_returns
                  (set_open_faults rest (set_trace (EvCreateFile lpFileName access disp :: trace w) w)))
        as (file & w1 & -> & Herr & Htr & Hof).
      eexists _, _. split; [reflexivity|]. simpl. rewrite Htr. simpl.
      split; [reflexivity|]. split; [rewrite Hof; reflexivity|].
      split; [|intros _; assumption].
      intros ->. discriminate.
    + eexists _, _. split; [reflexivity|]. simpl.
      split; [reflexivity|]. split; [reflexivity|]. split.
      * intros ->. split; reflexivity.
      * intros Hne. assumption.
Qed.

Lemma OpenHandle_loop_unfold fuel i w :
  OpenHandle_loop (S fuel) i lpFileName access share disp w =
  match open_attempt w with
  | (inr file, w1) =>
      if is_invalid file && (last_error w1 =? ERROR_SHARING_VIOLATION)
         && (i + 1 <? MAX_RETRY)
      then OpenHandle_loop fuel (i + 1) lpFileName access share disp w1
      else (inr file, w1)
  | (inl e, w1) => (inl e, w1)
  end.
Proof.
  simpl. unfold open_attempt.
  generalize (CreateFile lpFileName access share disp). intros cf.
  unfold Sleep, log, modify, bind, ret, GetLastError.
  destruct (cf w) as [[e|file] w1]; [reflexivity|].
  match goal with |- context [if ?c then _ else _] => destruct c end; reflexivity.
Qed.


(** The world after a round that was answered with a sharing violation. *)
Definition busy_round (w : World) : World :=
  set_trace (EvSleep SLEEP_RETRY_MS :: EvCreateFile lpFileName access disp :: trace w)
    (set_last_error ERROR_SHARING_VIOLATION (set_open_faults (tl (open_faults w)) w)).

Lemma open_attempt_busy w rest :
  open_faults w = ERROR_SHARING_VIOLATION :: rest ->
  open_attempt w = (inr None, busy_round w).
Proof.
  intros Hf. unfold open_attempt, CreateFile, Sleep, log, modify, bind, ret, busy_round.
  simpl. rewrite Hf. reflexivity.
Qed.

Lemma open_calls_busy_round w : open_calls (busy_round w) = S (open_calls w).
Proof. reflexivity. Qed.

Lemma open_calls_busy_rounds n w :
  open_calls (Nat.iter n busy_round w) = (n + open_calls w)%nat.
Proof.
  induction n as [|n IH]; simpl; [reflexivity|].
  rewrite open_calls_busy_round, IH. reflexivity.
Qed.

Lemma leading_busy_head faults :
  (leading_busy faults = O /\ forall rest, faults <> ERROR_SHARING_VIOLATION :: rest)
  \/ (exists rest, faults = ERROR_SHARING_VIOLATION :: rest
                   /\ leading_busy faults = S (leading_busy rest)).
Proof.
  destruct faults as [|e rest]; simpl.
  - left. split; [reflexivity | discriminate].
  - destruct (e =? ERROR_SHARING_VIOLATION) eqn:He.
    + right. apply Z.eqb_eq in He. subst. eauto.
    + left. split; [reflexivity|]. intros r [= -> _]. discriminate.
Qed.

Lemma OpenHandle_loop_spec fuel :
  forall i w,
    0 <= i < MAX_RETRY ->
    MAX_RETRY - i <= Z.of_nat fuel ->
    let k := leading_busy (open_faults w) in
    let budget := Z.to_nat (MAX_RETRY - i) in
    ((k < budget)%nat ->
     OpenHandle_loop fuel i lpFileName access share disp w
     = open_attempt (Nat.iter k busy_round w))
    /\ ((budget <= k)%nat ->
        OpenHandle_loop fuel i lpFileName access share disp w
        = (inr None, Nat.iter budget busy_round w)).
Proof.
  induction fuel as [|fuel IH]; intros i w Hi Hfuel k budget;
    pose proof (eq_refl : MAX_RETRY = 10000) as HM.
  - change (Z.of_nat 0) with 0 in Hfuel. lia.
  - rewrite OpenHandle_loop_unfold.
    destruct (leading_busy_head (open_faults w)) as [[Hk Hhead] | (rest & Hf & Hk)].
    + (* the answer is not a sharing violation: the loop ends here *)
      destruct (open_attempt_cases w) as (file & w1 & Hatt & _ & Hcase).
      assert (Herr : last_error w1 <> ERROR_SHARING_VIOLATION).
      { destruct (open_faults w) as [|e r]; [tauto|].
        destruct Hcase as (_ & _ & Hne). apply Hne. intros ->. exact (Hhead r eq_refl). }
      apply Z.eqb_neq in Herr.
      subst k. rewrite Hk. simpl Nat.iter. rewrite Hatt, Herr, andb_false_r. simpl.
      split; [reflexivity | intros; subst budget; lia].
    + (* a sharing violation: go round again while the budget lasts *)
      rewrite (open_attempt_busy w rest Hf). simpl is_invalid.
      change (last_error (busy_round w)) with ERROR_SHARING_VIOLATION.
      rewrite Z.eqb_refl. simpl andb.
      assert (Hrest : open_faults (busy_round w) = rest) by (simpl; rewrite Hf; reflexivity).
      destruct (i + 1 <? MAX_RETRY) eqn:Hlt.
      * apply Z.ltb_lt in Hlt.
        destruct (IH (i + 1) (busy_round w)) as [IH1 IH2]; [lia | lia |].
        rewrite Hrest in IH1, IH2.
        assert (Hb : budget = S (Z.to_nat (MAX_RETRY - (i + 1)))) by (subst budget; lia).
        subst k. rewrite Hk, Hb. split; intros Hc.
        -- rewrite IH1 by lia. rewrite Nat.iter_succ_r. reflexivity.
        -- rewrite IH2 by lia. rewrite Nat.iter_succ_r. reflexivity.
      * apply Z.ltb_ge in Hlt.
        assert (Hb : budget = 1%nat) by (subst budget; lia).
        subst k. rewrite Hk, Hb. split; intros Hc; [lia | reflexivity].
Qed.


(** C6. [OpenHandle] makes at least one and at most [MAX_RETRY] = 10000
    open calls.  With [k] the number of sharing violations the
    environment answers before anything else, it makes [k + 1] calls when
    that is within the budget and returns what the last call returned,
    success or failure; it goes round again only after a sharing
    violation.  When the budget runs out it returns the invalid handle of
    the last call, with the sharing violation as the last error. *)
Theorem OpenHandle_retry_budget (w : World) :
  let k := leading_busy (open_faults w) in
  let r := OpenHandle lpFileName access share disp w in
  open_calls (snd r) = (open_calls w + Nat.min (S k) (Z.to_nat MAX_RETRY))%nat
  /\ (1 <= open_calls (snd r) - open_calls w <= Z.to_nat MAX_RETRY)%nat
  /\ ((k < Z.to_nat MAX_RETRY)%nat ->
      r = open_attempt (Nat.iter k busy_round w))
  /\ ((Z.to_nat MAX_RETRY <= k)%nat ->
      r = (inr None, Nat.iter (Z.to_nat MAX_RETRY) busy_round w)
      /\ last_error (snd r) = ERROR_SHARING_VIOLATION).
Proof.
  intros k r.
  destruct (OpenHandle_loop_spec (Z.to_nat MAX_RETRY) 0 w) as [Hlt Hge];
    [unfold MAX_RETRY; lia | unfold MAX_RETRY; lia |].
  rewrite Z.sub_0_r in Hlt, Hge. fold k in Hlt, Hge.
  change (OpenHandle_loop (Z.to_nat MAX_RETRY) 0 lpFileName access share disp w)
    with r in Hlt, Hge.
  assert (Hcount : open_calls (snd r)
                   = (open_calls w + Nat.min (S k) (Z.to_nat MAX_RETRY))%nat).
  { destruct (Nat.lt_ge_cases k (Z.to_nat MAX_RETRY)) as [Hk | Hk].
    - rewrite (Hlt Hk).
      destruct (open_attempt_cases (Nat.iter k busy_round w)) as (f & w1 & -> & Hc & _).
      cbn [snd]. rewrite Hc, open_calls_busy_rounds. lia.
    - rewrite (Hge Hk). cbn [snd]. rewrite open_calls_busy_rounds. lia. }
  split; [exact Hcount|]. split; [rewrite Hcount; unfold MAX_RETRY; lia|].
  split; [exact Hlt|].
  intros Hk. rewrite (Hge Hk). split; [reflexivity|].
  cbn [snd]. destruct (Z.to_nat MAX_RETRY) eqn:E; [discriminate E | reflexivity].
Qed.

End Opener.

(** ** Integers and bytes *)

Lemma Z_of_byte_of_Z z : Z_of_byte (byte_of_Z z) = z mod 256.
Proof.
  unfold Z_of_byte, byte_of_Z.
  assert (Hr : 0 <= z mod 256 < 256) by (apply Z.mod_pos_bound; lia).
  destruct (Byte.of_N (Z.to_N (z mod 256))) as [b|] eqn:E.
  - apply Byte.to_of_N in E. rewrite E. lia.
  - apply Byte.of_N_None_iff in E. lia.
Qed.

Lemma le_bytes_length n z : List.length (le_bytes n z) = n.
Proof.
  revert z. induction n as [|n IH]; intros z; simpl; [reflexivity|].
  rewrite IH. reflexivity.
Qed.

Lemma le_value_le_bytes n z : le_value (le_bytes n z) = z mod 256 ^ Z.of_nat n.
Proof.
  revert z. induction n as [|n IH]; intros z.
  - simpl. rewrite Z.mod_1_r. reflexivity.
  - cbn [le_bytes le_value]. rewrite Z_of_byte_of_Z, IH.
    rewrite Nat2Z.inj_succ, Z.pow_succ_r by lia.
    rewrite Z.rem_mul_r; [reflexivity | lia | apply Z.pow_pos_nonneg; lia].
Qed.

Lemma le_value_zeros n : le_value (repeat x00 n) = 0.
Proof.
  induction n as [|n IH]; simpl; [reflexivity|].
  rewrite IH. reflexivity.
Qed.

Lemma signed_of_range bits z :
  0 < bits -> - 2 ^ (bits - 1) <= z < 2 ^ (bits - 1) -> signed bits z = z.
Proof.
  intros Hb Hz. unfold signed, wrap.
  assert (H2 : 2 ^ bits = 2 * 2 ^ (bits - 1)).
  { rewrite <- Z.pow_succ_r by lia. f_equal. lia. }
  assert (Hp : 0 < 2 ^ (bits - 1)) by (apply Z.pow_pos_nonneg; lia).
  destruct (Z.ltb_spec (z mod 2 ^ bits) (2 ^ (bits - 1))) as [Hlt | Hge].
  - destruct (Z.neg_nonneg_cases z) as [Hneg | Hpos].
    + rewrite <- (Z.mod_add z 1) in Hlt by lia.
      rewrite Z.mod_small in Hlt by lia. lia.
    + apply Z.mod_small. lia.
  - destruct (Z.neg_nonneg_cases z) as [Hneg | Hpos].
    + rewrite <- (Z.mod_add z 1) by lia.
      rewrite Z.mod_small by lia. lia.
    + rewrite Z.mod_small in Hge by lia. lia.
Qed.

Lemma signed_wrap bits z : signed bits (wrap bits z) = signed bits z.
Proof.
  unfold signed, wrap.
  destruct (Z.eq_dec (2 ^ bits) 0) as [E | E].
  - rewrite E, !Z.mod_0_r. reflexivity.
  - rewrite Z.mod_mod by exact E. reflexivity.
Qed.

Lemma signed_wrap_wider z : signed 32 (wrap 64 z) = signed 32 z.
Proof.
  assert (H : (z mod 2 ^ 64) mod 2 ^ 32 = z mod 2 ^ 32).
  { rewrite (Z.mod_eq z (2 ^ 64)) by lia.
    replace (z - 2 ^ 64 * (z / 2 ^ 64)) with (z + (- (2 ^ 32 * (z / 2 ^ 64))) * 2 ^ 32)
      by (change (2 ^ 64) with (2 ^ 32 * 2 ^ 32); ring).
    apply Z.mod_add. lia. }
  unfold signed, wrap. rewrite H. reflexivity.
Qed.

Lemma to_time_t_of_range z : in_time_t z -> to_time_t z = z.
Proof. intros H. apply signed_of_range; [lia | exact H]. Qed.

(** ** The header as bytes *)

Lemma header_bytes_length h :
  List.length (header_bytes h) = Z.to_nat sizeof_CacheEntryHeaderV1.
Proof.
  unfold header_bytes. rewrite !length_app, !le_bytes_length, !repeat_length.
  reflexivity.
Qed.

Lemma header_bytes_shape h :
  header_bytes h
  = le_bytes 2 (version h) ++ repeat x00 6 ++ le_bytes 8 (expiry h).
Proof.
  unfold header_bytes.
  change (Z.to_nat (sizeof_CacheEntryHeaderV1 - (offsetof_expiry + sizeof_time_t))) with O.
  cbn [repeat]. rewrite app_nil_r. reflexivity.
Qed.

Lemma header_of_header_bytes h :
  header_of_bytes (header_bytes h)
  = {| version := wrap 16 (version h); expiry := to_time_t (expiry h) |}.
Proof.
  rewrite header_bytes_shape. unfold header_of_bytes, field_bytes.
  change (Z.to_nat offsetof_version) with O.
  change (Z.to_nat sizeof_uint16_t) with 2%nat.
  change (Z.to_nat offsetof_expiry) with (2 + 6)%nat.
  change (Z.to_nat sizeof_time_t) with 8%nat.
  f_equal.
  - cbn [skipn]. rewrite firstn_app, le_bytes_length, Nat.sub_diag.
    rewrite firstn_O. rewrite app_nil_r.
    rewrite firstn_all2 by (rewrite le_bytes_length; lia).
    apply le_value_le_bytes.
  - rewrite app_assoc, skipn_app, length_app, le_bytes_length, repeat_length, Nat.sub_diag.
    rewrite skipn_all2 by (rewrite length_app, le_bytes_length, repeat_length; lia).
    cbn [skipn app].
    rewrite firstn_all2 by (rewrite le_bytes_length; lia).
    rewrite le_value_le_bytes.
    change (256 ^ Z.of_nat 8) with (2 ^ 64).
    apply (signed_wrap 64).
Qed.

(** ** Paths and the file table *)

Lemma append_assoc_str (a b c : string) : ((a ++ b) ++ c = a ++ (b ++ c))%string.
Proof.
  induction a as [|x a IH]; simpl; [reflexivity|]. rewrite IH. reflexivity.
Qed.

Lemma strip_prefix_app p s : strip_prefix p (p ++ s)%string = Some s.
Proof.
  induction p as [|a p IH]; simpl; [destruct s; reflexivity|].
  rewrite Ascii.eqb_refl. exact IH.
Qed.

Lemma strip_prefix_inv p : forall s n, strip_prefix p s = Some n -> s = (p ++ n)%string.
Proof.
  induction p as [|a p IH]; intros s n H.
  - destruct s; simpl in H; inversion H; reflexivity.
  - destruct s as [|b s]; simpl in H; [discriminate|].
    destruct (Ascii.eqb a b) eqn:E; [|discriminate].
    apply Ascii.eqb_eq in E. subst b. simpl. f_equal. apply IH. exact H.
Qed.

Lemma child_name_join d n :
  no_backslash n = true -> child_name d (d ++ "\" ++ n)%string = Some n.
Proof.
  intros Hn. unfold child_name.
  rewrite <- append_assoc_str, strip_prefix_app, Hn. reflexivity.
Qed.

Lemma child_name_inv d p n :
  child_name d p = Some n -> p = (d ++ "\" ++ n)%string /\ no_backslash n = true.
Proof.
  unfold child_name. intros H.
  destruct (strip_prefix (d ++ "\") p) as [m|] eqn:E; [|discriminate].
  destruct (no_backslash m) eqn:Hm; [|discriminate].
  inversion H; subst m. apply strip_prefix_inv in E.
  rewrite append_assoc_str in E. split; assumption.
Qed.

Lemma parent_exists_join d n ds :
  In d ds -> no_backslash n = true -> parent_exists (d ++ "\" ++ n)%string ds = true.
Proof.
  intros Hin Hn. unfold parent_exists. apply existsb_exists.
  exists d. split; [exact Hin|]. rewrite child_name_join by exact Hn. reflexivity.
Qed.

Lemma no_backslash_app a b :
  no_backslash (a ++ b)%string = no_backslash a && no_backslash b.
Proof.
  induction a as [|x a IH]; simpl; [reflexivity|].
  rewrite IH, andb_assoc. reflexivity.
Qed.

Lemma no_backslash_hex bs : no_backslash (hex_of_bytes bs) = true.
Proof.
  induction bs as [|b bs IH]; [reflexivity|].
  cbn [hex_of_bytes]. rewrite no_backslash_app, IH, andb_true_r.
  destruct b; reflexivity.
Qed.

Lemma pattern_dir_join d : pattern_dir (d ++ "\*")%string = Some d.
Proof.
  induction d as [|c d IH]; [reflexivity|].
  cbn [append pattern_dir]. rewrite IH.
  destruct (String.eqb (String c (d ++ "\*")) "\*") eqn:E; [|reflexivity].
  apply String.eqb_eq in E. inversion E as [[Hc Hd]].
  destruct d as [|c1 [|c2 d]]; discriminate.
Qed.

Lemma file_lookup_store_same p c fs : file_lookup p (file_store p c fs) = Some c.
Proof.
  induction fs as [|[q d] fs IH]; simpl.
  - rewrite String.eqb_refl. reflexivity.
  - destruct (String.eqb p q) eqn:E; simpl; rewrite E; [reflexivity | exact IH].
Qed.

Lemma file_lookup_store_other p q c fs :
  p <> q -> file_lookup q (file_store p c fs) = file_lookup q fs.
Proof.
  intros Hne. induction fs as [|[r d] fs IH]; simpl.
  - apply not_eq_sym in Hne. apply String.eqb_neq in Hne. rewrite Hne. reflexivity.
  - destruct (String.eqb p r) eqn:E; simpl.
    + apply String.eqb_eq in E. subst r.
      apply not_eq_sym in Hne. apply String.eqb_neq in Hne. rewrite Hne. reflexivity.
    + rewrite IH. reflexivity.
Qed.

Lemma file_lookup_remove_same p fs : file_lookup p (file_remove p fs) = None.
Proof.
  induction fs as [|[q d] fs IH]; simpl; [reflexivity|].
  destruct (String.eqb p q) eqn:E; simpl; [exact IH|]. rewrite E. exact IH.
Qed.

Lemma file_lookup_remove_other p q fs :
  p <> q -> file_lookup q (file_remove p fs) = file_lookup q fs.
Proof.
  intros Hne. induction fs as [|[r d] fs IH]; simpl; [reflexivity|].
  destruct (String.eqb p r) eqn:E; simpl.
  - apply String.eqb_eq in E. subst r.
    apply not_eq_sym in Hne. apply String.eqb_neq in Hne. rewrite Hne. exact IH.
  - rewrite IH. reflexivity.
Qed.

(** ** Steps of the operations *)

Lemma init_sets_flag w w0 : init w = (inr tt, w0) -> init_flag w0 = true.
Proof.
  unfold init. destruct (init_flag w) eqn:Hf.
  - intros [= <-]. exact Hf.
  - unfold bind, modify. destruct (init_callback w) as [[e|[]] w']; [discriminate|].
    intros [= <-]. reflexivity.
Qed.

Lemma init_once w : init_flag w = true -> init w = (inr tt, w).
Proof. intros Hf. unfold init. rewrite Hf. reflexivity. Qed.

(** The hasher reads nothing but the provider, and a name it returns is
    made of hexadecimal digits. *)
Lemma sha256_body_success o data status errorString retval :
  sha256_body o data = (status, errorString, retval) ->
  NT_SUCCESS status = true ->
  retval = hex_of_bytes (bcrypt_digest o data).
Proof.
  unfold sha256_body. intros H Hs.
  repeat match type of H with
         | (if negb (NT_SUCCESS (if ?c then _ else _)) then _ else _) = _ =>
             destruct c; cbn [NT_SUCCESS Z.leb Z.compare negb] in H
         | (if negb (NT_SUCCESS ?s) then _ else _) = _ =>
             let E := fresh "E" in
             destruct (NT_SUCCESS s) eqn:E; cbn [negb] in H;
             [| inversion H; subst; congruence]
         | (if heap_exhausted o then _ else _) = _ =>
             destruct (heap_exhausted o);
             [inversion H; subst; discriminate Hs |]
         end;
    inversion H; reflexivity.
Qed.

Lemma get_file_name_inv id w f w1 :
  get_file_name id w = (inr f, w1) ->
  w1 = w /\ exists name, f = (g_cache_dirname w ++ "\" ++ name)%string
                         /\ no_backslash name = true.
Proof.
  unfold get_file_name, sha256, sha256_data, bind at 1.
  destruct (sha256_body _ _) as [[status errorString] retval] eqn:E.
  unfold bind, throw_if, throw, ret.
  destruct (NT_SUCCESS status) eqn:Hs; cbn [negb]; [|discriminate].
  intros [= <- <-]. split; [reflexivity|].
  exists retval. split; [reflexivity|].
  rewrite (sha256_body_success _ _ _ _ _ E Hs). apply no_backslash_hex.
Qed.

Lemma get_file_name_frame id w w' f :
  get_file_name id w = (inr f, w) ->
  oracle w' = oracle w -> g_cache_dirname w' = g_cache_dirname w ->
  get_file_name id w' = (inr f, w').
Proof.
  unfold get_file_name, sha256, sha256_data, bind at 1 3.
  intros H Ho Hd. rewrite Ho.
  destruct (sha256_body _ _) as [[status errorString] retval].
  unfold bind, throw_if, throw, ret in *.
  destruct (negb (NT_SUCCESS status)); [discriminate|].
  inversion H as [Hf]. rewrite Hd. reflexivity.
Qed.

(** ** Preconditions of [local_cache_add] and [local_cache_get] *)

Definition argument_errors : list string :=
  [ "The 'id' parameter must not be empty.";
    "Data cannot be empty.";
    "Data pointer must not be NULL." ].

(** C7. An empty key, a zero [data_size] or a null [data] pointer makes
    [local_cache_add] throw one of the three argument errors, and an empty
    key makes [local_cache_get] throw; in each case the world is exactly
    as before, so no call reached the environment or the file system: no
    directory initialisation, no open, no write. *)
Theorem precondition_rejection (w : World) :
  (forall id expiry data_size data,
      id = EmptyString \/ data_size = 0 \/ data = None ->
      exists what,
        In what argument_errors
        /\ local_cache_add id expiry data_size data w = (inl (runtime_error what), w))
  /\ local_cache_get EmptyString w
     = (inl (runtime_error "The 'id' parameter must not be empty."), w).
Proof.
  split; [|reflexivity].
  intros id expiry data_size data H.
  unfold local_cache_add, argument_errors.
  destruct id as [|c id].
  - eexists. split; [|reflexivity]. simpl. auto.
  - destruct (data_size =? 0) eqn:Hs.
    + eexists. split; [|reflexivity].
      simpl. auto.
    + destruct data as [data|].
      * destruct H as [H | [H | H]]; try discriminate.
        apply Z.eqb_neq in Hs. contradiction.
      * eexists. split; [|reflexivity].
        simpl. auto.
Qed.

(** ** Creating the cache directory *)

(** C5, as the code has it.  When [CreateDirectory] fails, [make_dir]
    looks at the error code only: "already exists" is success,
    "path not found" is fatal (the exception ends whatever the caller
    was going to do next), and any other code (access denied, for one)
    is let through as if the directory had been created. *)
Theorem make_dir_failure_handling (w w1 : World) (dirname : string) :
  CreateDirectory dirname w = (inr false, w1) ->
  (last_error w1 = ERROR_ALREADY_EXISTS -> make_dir dirname w = (inr tt, w1))
  /\ (last_error w1 = ERROR_PATH_NOT_FOUND ->
      make_dir dirname w = (inl (runtime_error "Path not found"), w1)
      /\ forall (A : Type) (rest : M A),
           (make_dir dirname ;; rest) w = (inl (runtime_error "Path not found"), w1))
  /\ (last_error w1 <> ERROR_PATH_NOT_FOUND -> make_dir dirname w = (inr tt, w1)).
Proof.
  intros Hc.
  assert (E : make_dir dirname w
              = if (last_error w1 =? ERROR_PATH_NOT_FOUND)
                   && negb (last_error w1 =? ERROR_ALREADY_EXISTS)
                then (inl (runtime_error "Path not found"), w1)
                else (inr tt, w1)).
  { unfold make_dir, bind. rewrite Hc.
    unfold GetLastError, throw_if, throw, ret.
    destruct (_ && _); reflexivity. }
  split; [|split].
  - intros He. rewrite E, He. reflexivity.
  - intros He.
    assert (E' : make_dir dirname w = (inl (runtime_error "Path not found"), w1))
      by (rewrite E, He; reflexivity).
    split; [exact E'|]. intros A rest. unfold bind. rewrite E'. reflexivity.
  - intros Hne. rewrite E. apply Z.eqb_neq in Hne. rewrite Hne. reflexivity.
Qed.

(** Projections of updated worlds. *)
Ltac world_simpl :=
  cbn [init_flag g_cache_dirname last_error env_vars dirs files now fresh_memory
       open_faults oracle trace
       set_init_flag set_g_cache_dirname set_last_error set_dirs set_files set_now
       set_fresh_memory set_open_faults set_trace fst snd] in *.

(** ** Resolving the cache directory *)

(** The first four calls of [init_callback]: both variables are read into
    fresh buffers before either is looked at. *)
Definition read_configuration : M (string * string) :=
  env_home <- new_TCHAR ;;
  env_home <- GetEnvironmentVariable "LOCALAPPDATA" env_home ;;
  env_azdcap_cache <- new_TCHAR ;;
  env_azdcap_cache <- GetEnvironmentVariable "AZDCAP_CACHE" env_azdcap_cache ;;
  ret (env_home, env_azdcap_cache).

Definition after_configuration (w : World) : World := snd (read_configuration w).

(** Using [base] as the base directory: the cache directory is made
    below it and recorded in [g_cache_dirname]. *)
Definition resolve_with (base : string) : M unit :=
  make_dir (base ++ application_name) ;;
  modify (set_g_cache_dirname (base ++ application_name)).

Definition configuration_error : exn :=
  runtime_error "LOCALAPPDATA and AZDCAPCACHE environment variables not defined".

(** What a buffer holds after [GetEnvironmentVariable]: the value of
    the variable when it is defined, and otherwise what the buffer held
    before, which for a [new TCHAR[]] array is whatever the allocator
    left there. *)
Definition buffer_after (value : option string) (stale : string) : string :=
  match value with Some v => v | None => stale end.

Lemma init_callback_unfold w :
  init_callback w =
  match read_configuration w with
  | (inr (env_home, env_azdcap_cache), w1) =>
      if c_str_nonempty env_home then resolve_with env_home w1
      else if c_str_nonempty env_azdcap_cache then resolve_with env_azdcap_cache w1
      else (inl configuration_error, w1)
  | (inl e, w1) => (inl e, w1)
  end.
Proof.
  unfold init_callback, read_configuration, resolve_with.
  unfold bind, new_TCHAR, GetEnvironmentVariable, bind, log, modify, ret, throw.
  cbv beta iota.
  repeat match goal with
         | |- context [env_lookup ?n ?e] => destruct (env_lookup n e) as [[|? ?]|]
         end;
    cbv beta iota;
    repeat match goal with
           | |- context [c_str_nonempty ?s] => destruct (c_str_nonempty s)
           end;
    reflexivity.
Qed.

Lemma read_configuration_buffers w :
  fst (read_configuration w)
  = inr (match env_lookup "LOCALAPPDATA" (env_vars w) with
         | Some v => v
         | None => hd EmptyString (fresh_memory w)
         end,
         match env_lookup "AZDCAP_CACHE" (env_vars w) with
         | Some v => v
         | None => hd EmptyString (tl (fresh_memory w))
         end).
Proof.
  unfold read_configuration.
  unfold bind, new_TCHAR, GetEnvironmentVariable, bind, log, modify, ret.
  world_simpl.
  destruct (env_lookup "LOCALAPPDATA" (env_vars w)); world_simpl;
    destruct (env_lookup "AZDCAP_CACHE" (env_vars w)); reflexivity.
Qed.

(** C9.  What [init_callback] takes for the base directory.  Each
    variable is read into an array that [new TCHAR[]] does not clear and
    that [GetEnvironmentVariable] leaves alone when the variable is not
    defined, and the tests look at the first character of the arrays,
    not at what the calls returned.  [LOCALAPPDATA] is taken whenever it
    is defined and not empty.  The override and the configuration error
    come only when the array of [LOCALAPPDATA] reads as empty; for a
    variable that is not defined this is up to the allocator.  When the
    array of an undefined variable starts with another character, its
    stale contents are taken for the base directory: ahead of the
    override, and in place of the configuration error. *)
Theorem directory_resolution_order (w : World) :
  let home := env_lookup "LOCALAPPDATA" (env_vars w) in
  let cache := env_lookup "AZDCAP_CACHE" (env_vars w) in
  let env_home := buffer_after home (hd EmptyString (fresh_memory w)) in
  let env_azdcap_cache := buffer_after cache (hd EmptyString (tl (fresh_memory w))) in
  (forall h, home = Some h -> h <> EmptyString ->
             init_callback w = resolve_with h (after_configuration w))
  /\ (env_home = EmptyString ->
      forall c, cache = Some c -> c <> EmptyString ->
                init_callback w = resolve_with c (after_configuration w))
  /\ (env_home = EmptyString -> env_azdcap_cache = EmptyString ->
      init_callback w = (inl configuration_error, after_configuration w))
  /\ (forall stale, home = None -> hd EmptyString (fresh_memory w) = stale ->
                    stale <> EmptyString ->
                    init_callback w = resolve_with stale (after_configuration w))
  /\ (forall stale, env_home = EmptyString -> cache = None ->
                    hd EmptyString (tl (fresh_memory w)) = stale ->
                    stale <> EmptyString ->
                    init_callback w = resolve_with stale (after_configuration w)).
Proof.
  intros home cache env_home env_azdcap_cache.
  pose proof (read_configuration_buffers w) as Hb.
  fold home cache in Hb.
  change (fst (read_configuration w) = inr (env_home, env_azdcap_cache)) in Hb.
  rewrite init_callback_unfold. unfold after_configuration.
  destruct (read_configuration w) as [[e|[b1 b2]] w1];
    cbn [fst snd] in *; [discriminate|].
  injection Hb as Hh Hc. subst b1 b2.
  split; [|split; [|split; [|split]]].
  - intros h Hhome Hne. subst env_home. rewrite Hhome. cbn [buffer_after].
    destruct h; [contradiction | reflexivity].
  - intros Hempty c Hcache Hne. rewrite Hempty. subst env_azdcap_cache.
    rewrite Hcache. cbn [buffer_after c_str_nonempty].
    destruct c; [contradiction | reflexivity].
  - intros Hempty1 Hempty2. rewrite Hempty1, Hempty2. reflexivity.
  - intros stale Hhome Hmem Hne. subst env_home. rewrite Hhome. cbn [buffer_after].
    rewrite Hmem. destruct stale; [contradiction | reflexivity].
  - intros stale Hempty Hcache Hmem Hne. rewrite Hempty. subst env_azdcap_cache.
    rewrite Hcache. cbn [buffer_after c_str_nonempty]. rewrite Hmem.
    destruct stale; [contradiction | reflexivity].
Qed.

(** ** Opening the entry file *)

(** Everything of a world but the last error, the pending open outcomes
    and the trace. *)
Definition same_machine (w w' : World) : Prop :=
  init_flag w' = init_flag w
  /\ g_cache_dirname w' = g_cache_dirname w
  /\ env_vars w' = env_vars w
  /\ dirs w' = dirs w
  /\ files w' = files w
  /\ now w' = now w
  /\ oracle w' = oracle w.

Lemma same_machine_refl w : same_machine w w.
Proof. repeat split. Qed.

Lemma same_machine_trans w1 w2 w3 :
  same_machine w1 w2 -> same_machine w2 w3 -> same_machine w1 w3.
Proof.
  unfold same_machine. intros (a1 & a2 & a3 & a4 & a5 & a6 & a7)
                              (b1 & b2 & b3 & b4 & b5 & b6 & b7).
  repeat split; congruence.
Qed.

Lemma busy_rounds_same_machine name access disp n w :
  same_machine w (Nat.iter n (busy_round name access disp) w).
Proof.
  induction n as [|n IH]; [apply same_machine_refl|].
  cbn [Nat.iter nat_rect]. eapply same_machine_trans; [exact IH|].
  repeat split.
Qed.

Lemma open_attempt_existing_inv name access share w file w2 :
  open_attempt name access share OPEN_EXISTING w = (inr (Some file), w2) ->
  file = mkHandle name 0
  /\ last_error w2 = 0
  /\ same_machine w w2
  /\ exists c, file_lookup name (files w) = Some c.
Proof.
  unfold open_attempt, CreateFile, CreateFile_honest, Sleep, log, modify, bind, ret.
  world_simpl.
  destruct (open_faults w) as [|e rest]; [|destruct (e =? 0)]; world_simpl;
    try discriminate;
    (destruct (parent_exists name (dirs w)); cbn [negb]; [|discriminate];
     destruct (file_lookup name (files w)) as [c|]; [|discriminate];
     intros [= <- <-]; repeat split; eauto).
Qed.

Lemma open_attempt_create_inv name access share w file w2 :
  open_attempt name access share CREATE_ALWAYS w = (inr (Some file), w2) ->
  file = mkHandle name 0
  /\ files w2 = file_store name [] (files w)
  /\ init_flag w2 = init_flag w
  /\ g_cache_dirname w2 = g_cache_dirname w
  /\ dirs w2 = dirs w
  /\ oracle w2 = oracle w.
Proof.
  unfold open_attempt, CreateFile, CreateFile_honest, Sleep, log, modify, bind, ret.
  world_simpl.
  destruct (open_faults w) as [|e rest]; [|destruct (e =? 0)]; world_simpl;
    try discriminate;
    (destruct (parent_exists name (dirs w)); cbn [negb]; [|discriminate];
     destruct (file_lookup name (files w)) as [c|];
     intros [= <- <-]; repeat split; eauto).
Qed.

(** However many rounds it took, a successful [OpenHandle] is a successful
    last round on the same machine. *)
Lemma OpenHandle_success name access share disp w file w2 :
  OpenHandle name access share disp w = (inr (Some file), w2) ->
  exists w', same_machine w w'
             /\ open_attempt name access share disp w' = (inr (Some file), w2).
Proof.
  intros H. unfold OpenHandle in H.
  destruct (OpenHandle_loop_spec name access share disp (Z.to_nat MAX_RETRY) 0 w)
    as [Hlt Hge]; [unfold MAX_RETRY; lia | unfold MAX_RETRY; lia |].
  rewrite Z.sub_0_r in Hlt, Hge.
  destruct (Nat.lt_ge_cases (leading_busy (open_faults w)) (Z.to_nat MAX_RETRY))
    as [Hk | Hk].
  - rewrite (Hlt Hk) in H. eexists. split; [|exact H].
    apply busy_rounds_same_machine.
  - rewrite (Hge Hk) in H. discriminate.
Qed.

(** Without forced outcomes the first round decides. *)
Lemma OpenHandle_quiet name access share disp w :
  open_faults w = [] ->
  OpenHandle name access share disp w = open_attempt name access share disp w.
Proof.
  intros Hq. unfold OpenHandle.
  destruct (OpenHandle_loop_spec name access share disp (Z.to_nat MAX_RETRY) 0 w)
    as [Hlt _]; [unfold MAX_RETRY; lia | unfold MAX_RETRY; lia |].
  rewrite Hq in Hlt. apply Hlt. unfold MAX_RETRY. cbn [leading_busy]. lia.
Qed.

(** ** Failed opens in [local_cache_get] *)

Lemma local_cache_get_unfold id w w0 filename w1 file w2 :
  id <> EmptyString ->
  init w = (inr tt, w0) ->
  get_file_name id w0 = (inr filename, w1) ->
  OpenHandle filename GENERIC_READ FILE_SHARE_READ OPEN_EXISTING w1 = (inr file, w2) ->
  local_cache_get id w
  = match file with
    | None => (inr None, w2)
    | Some file => read_entry filename file w2
    end.
Proof.
  intros Hid Hinit Hname Hopen.
  unfold local_cache_get. destruct id; [contradiction|].
  cbn [string_empty throw_if]. unfold bind at 1. unfold ret at 1.
  unfold bind at 1. rewrite Hinit.
  unfold bind at 1. rewrite Hname.
  unfold bind at 1. rewrite Hopen.
  destruct file; reflexivity.
Qed.

(** C3, as the code has it.  Whatever makes the open fail, a missing
    file, any other error or a used-up retry budget, [local_cache_get]
    returns not-found and throws nothing; the world is left as
    [OpenHandle] left it. *)
Theorem get_open_failure_is_miss (w w0 w1 w2 : World) (id filename : string) :
  id <> EmptyString ->
  init w = (inr tt, w0) ->
  get_file_name id w0 = (inr filename, w1) ->
  OpenHandle filename GENERIC_READ FILE_SHARE_READ OPEN_EXISTING w1 = (inr None, w2) ->
  local_cache_get id w = (inr None, w2).
Proof.
  intros Hid Hinit Hname Hopen.
  rewrite (local_cache_get_unfold id w w0 filename w1 None w2); auto.
Qed.

(** ** Reading an entry *)

(** The header buffer after the header read: the first bytes of the file
    over a zeroed buffer. *)
Definition header_read (c : list byte) : list byte :=
  blit (firstn (Z.to_nat sizeof_CacheEntryHeaderV1) c)
       (repeat x00 (Z.to_nat sizeof_CacheEntryHeaderV1)).

Definition stored_expiry (c : list byte) : Z := expiry (header_of_bytes (header_read c)).

(** What [read_entry] does up to the expiry test, on a file that was just
    opened. *)
Lemma read_entry_unfold filename c w :
  file_lookup filename (files w) = Some c ->
  last_error w = 0 ->
  read_fault (oracle w) filename 0 = 0 ->
  let got := firstn (Z.to_nat sizeof_CacheEntryHeaderV1) c in
  let file := mkHandle filename (0 + List.length got) in
  let w1 := set_trace (EvReadFile filename sizeof_CacheEntryHeaderV1 :: trace w) w in
  read_entry filename (mkHandle filename 0) w
  = if stored_expiry c <=? now w then
      (CloseHandle (Some file) ;; _ <- DeleteFileW filename ;; ret None) w1
    else
      (size <- GetFileSize file ;;
       let datasize := payload_size size in
       cache_entry <- make_vector (to_size_t datasize) ;;
       r <- ReadFile file cache_entry size ;;
       let '(_, cache_entry, dataread, file) := r in
       err <- GetLastError ;;
       throw_if_file (negb (err =? 0)) "Data read from local cache failed" (Some file) ;;
       throw_if_file (negb (dataread =? to_DWORD datasize))
                     "Something wrong with data" (Some file) ;;
       CloseHandle (Some file) ;;
       ret (Some cache_entry)) w1.
Proof.
  intros Hc Herr Hfault got file w1.
  unfold read_entry. unfold bind at 1.
  unfold ReadFile, bind at 1, log, modify. world_simpl.
  cbn [h_path h_pos]. rewrite Hfault. cbn [Z.eqb].
  unfold file_contents. world_simpl. rewrite Hc. cbn [skipn].
  fold got. unfold bind at 1. unfold GetLastError at 1. world_simpl.
  rewrite Herr. cbn [Z.eqb negb throw_if_file].
  unfold bind at 1. unfold ret at 1.
  unfold bind at 1. unfold time at 1. world_simpl.
  fold file. fold w1.
  change (expiry (header_of_bytes (blit got (repeat x00 (Z.to_nat sizeof_CacheEntryHeaderV1)))))
    with (stored_expiry c).
  destruct (stored_expiry c <=? now w); reflexivity.
Qed.

Lemma read_entry_expired filename c w :
  file_lookup filename (files w) = Some c ->
  last_error w = 0 ->
  read_fault (oracle w) filename 0 = 0 ->
  stored_expiry c <= now w ->
  let r := read_entry filename (mkHandle filename 0) w in
  fst r = inr None
  /\ hd_error (trace (snd r)) = Some (EvDeleteFile filename)
  /\ files (snd r) = (if delete_fault (oracle w) filename =? 0
                      then file_remove filename (files w) else files w).
Proof.
  intros Hc Herr Hfault Hexp r. subst r.
  rewrite (read_entry_unfold filename c w Hc Herr Hfault).
  apply Z.leb_le in Hexp. rewrite Hexp.
  unfold CloseHandle, DeleteFileW, bind, log, modify, ret. world_simpl.
  destruct (delete_fault (oracle w) filename =? 0); cbn [negb]; world_simpl.
  - rewrite Hc. world_simpl. repeat split.
  - repeat split.
Qed.

Lemma skipn_repeat_zeros n k : skipn n (repeat x00 k) = repeat x00 (k - n).
Proof.
  revert k. induction n as [|n IH]; intros k.
  - rewrite Nat.sub_0_r. reflexivity.
  - destruct k as [|k]; [reflexivity|]. cbn [repeat skipn]. rewrite IH. reflexivity.
Qed.

Lemma firstn_repeat_zeros n k : (n <= k)%nat -> firstn n (repeat x00 k) = repeat x00 n.
Proof.
  revert k. induction n as [|n IH]; intros k Hk; [reflexivity|].
  destruct k as [|k]; [lia|]. cbn [repeat firstn]. rewrite IH by lia. reflexivity.
Qed.

(** A file shorter than the header leaves the rest of the buffer zero. *)
Lemma header_read_short c :
  (List.length c <= Z.to_nat sizeof_CacheEntryHeaderV1)%nat ->
  header_read c = c ++ repeat x00 (Z.to_nat sizeof_CacheEntryHeaderV1 - List.length c).
Proof.
  intros Hlen. unfold header_read, blit.
  rewrite firstn_all2 by exact Hlen. rewrite skipn_repeat_zeros. reflexivity.
Qed.

Lemma header_read_full c :
  (Z.to_nat sizeof_CacheEntryHeaderV1 <= List.length c)%nat ->
  header_read c = firstn (Z.to_nat sizeof_CacheEntryHeaderV1) c.
Proof.
  intros Hlen. unfold header_read, blit.
  rewrite length_firstn, Nat.min_l by exact Hlen.
  rewrite skipn_repeat_zeros, Nat.sub_diag. apply app_nil_r.
Qed.

(** When no byte of the expiry field is in the file, the expiry reads as
    zero. *)
Lemma stored_expiry_absent c :
  (List.length c <= Z.to_nat offsetof_expiry)%nat -> stored_expiry c = 0.
Proof.
  intros Hlen. unfold stored_expiry.
  change (Z.to_nat offsetof_expiry) with 8%nat in Hlen.
  rewrite header_read_short
    by (change (Z.to_nat sizeof_CacheEntryHeaderV1) with 16%nat; lia).
  unfold header_of_bytes, field_bytes. cbn [expiry].
  change (Z.to_nat offsetof_expiry) with 8%nat.
  change (Z.to_nat sizeof_time_t) with 8%nat.
  change (Z.to_nat sizeof_CacheEntryHeaderV1) with 16%nat.
  rewrite skipn_app, (skipn_all2 c) by exact Hlen.
  rewrite skipn_repeat_zeros. cbn [app].
  rewrite firstn_repeat_zeros by lia.
  rewrite le_value_zeros. reflexivity.
Qed.

(** ** Expired entries *)

(** C4. When the entry can be opened and its header read, and the stored
    expiry is at or before the current time, [local_cache_get] returns
    not-found whether or not the file can be deleted.  Its last call is
    the [DeleteFileW] on the entry file; when that succeeds the file is
    gone, when it fails the files are as they were and the result is
    not-found all the same. *)
Theorem expired_entry_is_deleted (w w0 w1 w2 : World) (id filename : string)
  (file : HANDLE) :
  id <> EmptyString ->
  init w = (inr tt, w0) ->
  get_file_name id w0 = (inr filename, w1) ->
  OpenHandle filename GENERIC_READ FILE_SHARE_READ OPEN_EXISTING w1
  = (inr (Some file), w2) ->
  read_fault (oracle w2) filename 0 = 0 ->
  stored_expiry (file_contents filename w2) <= now w2 ->
  let r := local_cache_get id w in
  fst r = inr None
  /\ hd_error (trace (snd r)) = Some (EvDeleteFile filename)
  /\ (delete_fault (oracle w2) filename = 0 ->
      file_lookup filename (files (snd r)) = None)
  /\ (delete_fault (oracle w2) filename <> 0 -> files (snd r) = files w2).
Proof.
  intros Hid Hinit Hname Hopen Hfault Hexp r. subst r.
  rewrite (local_cache_get_unfold id w w0 filename w1 (Some file) w2) by assumption.
  destruct (OpenHandle_success _ _ _ _ _ _ _ Hopen) as (w' & Hsame & Hatt).
  destruct (open_attempt_existing_inv _ _ _ _ _ _ Hatt)
    as (-> & Herr & (_ & _ & _ & _ & Hfiles & _ & _) & c & Hc).
  assert (Hc2 : file_lookup filename (files w2) = Some c) by (rewrite Hfiles; exact Hc).
  unfold file_contents in Hexp. rewrite Hc2 in Hexp.
  destruct (read_entry_expired filename c w2 Hc2 Herr Hfault Hexp) as (Hr & Htr & Hfs).
  split; [exact Hr|]. split; [exact Htr|]. rewrite Hfs. split.
  - intros ->. cbn [Z.eqb]. apply file_lookup_remove_same.
  - intros Hne. apply Z.eqb_neq in Hne. rewrite Hne. reflexivity.
Qed.

(** ** Reading the payload *)

(** For a file that has its header, and a payload of less than 2 GiB,
    [local_cache_get] takes the payload to be the file size less the
    header size. *)
Lemma payload_size_exact size :
  sizeof_CacheEntryHeaderV1 <= size < sizeof_CacheEntryHeaderV1 + 2 ^ 31 ->
  payload_size size = size - sizeof_CacheEntryHeaderV1.
Proof.
  intros H. unfold payload_size, to_int, to_size_t.
  rewrite (signed_of_range 32 (wrap 64 (size - sizeof_CacheEntryHeaderV1))).
  - unfold wrap. apply Z.mod_small.
    change sizeof_CacheEntryHeaderV1 with 16 in *. lia.
  - lia.
  - unfold wrap. rewrite Z.mod_small;
      change sizeof_CacheEntryHeaderV1 with 16 in *; lia.
Qed.

Lemma read_entry_payload filename hdr data w :
  file_lookup filename (files w) = Some (hdr ++ data) ->
  List.length hdr = Z.to_nat sizeof_CacheEntryHeaderV1 ->
  Z.of_nat (List.length data) < 2 ^ 31 ->
  last_error w = 0 ->
  read_fault (oracle w) filename 0 = 0 ->
  read_fault (oracle w) filename (Z.to_nat sizeof_CacheEntryHeaderV1) = 0 ->
  now w < stored_expiry (hdr ++ data) ->
  exists w',
    read_entry filename (mkHandle filename 0) w = (inr (Some data), w')
    /\ files w' = files w.
Proof.
  intros Hc Hhdr Hlen Herr Hf0 Hf16 Hexp.
  eexists. split; [|shelve].
  rewrite (read_entry_unfold filename (hdr ++ data) w Hc Herr Hf0).
  apply Z.leb_gt in Hexp. rewrite Hexp. clear Hexp.
  set (n := Z.of_nat (List.length data)) in *.
  assert (Hgot : firstn (Z.to_nat sizeof_CacheEntryHeaderV1) (hdr ++ data) = hdr).
  { rewrite <- Hhdr. rewrite firstn_app, Nat.sub_diag, firstn_O, app_nil_r.
    apply firstn_all. }
  rewrite Hgot, Hhdr. cbn [Nat.add].
  assert (Hsize : to_DWORD (Z.of_nat (List.length (hdr ++ data)))
                  = sizeof_CacheEntryHeaderV1 + n).
  { rewrite length_app, Hhdr. unfold to_DWORD, wrap.
    change sizeof_CacheEntryHeaderV1 with 16. subst n.
    rewrite Z.mod_small; lia. }
  assert (Hps : payload_size (sizeof_CacheEntryHeaderV1 + n) = n).
  { rewrite payload_size_exact; subst n; lia. }
  assert (Hn64 : to_size_t n = n).
  { unfold to_size_t, wrap. apply Z.mod_small. subst n. lia. }
  assert (Hn32 : to_DWORD n = n).
  { unfold to_DWORD, wrap. apply Z.mod_small. subst n. lia. }
  assert (Hskip : skipn (Z.to_nat sizeof_CacheEntryHeaderV1) (hdr ++ data) = data).
  { rewrite <- Hhdr. rewrite skipn_app, Nat.sub_diag, skipn_all. reflexivity. }
  unfold bind at 1. unfold GetFileSize, bind at 1, log, modify. world_simpl.
  cbn [h_path]. unfold file_contents at 1. world_simpl. rewrite Hc, Hsize, Hps, Hn64.
  unfold bind at 1. unfold make_vector.
  replace (n >? vector_max_size) with false
    by (symmetry; rewrite Z.gtb_ltb; apply Z.ltb_ge; unfold vector_max_size; subst n; lia).
  unfold ret at 1. unfold bind at 1.
  unfold ReadFile, bind at 1, log, modify. world_simpl. cbn [h_path h_pos].
  rewrite Hf16. cbn [Z.eqb].
  unfold file_contents. world_simpl. rewrite Hc, Hskip.
  rewrite ?Hsize, ?Hps, ?Hn64.
  rewrite firstn_all2 by (change sizeof_CacheEntryHeaderV1 with 16; subst n; lia).
  unfold blit. rewrite skipn_repeat_zeros.
  replace (Z.to_nat n - List.length data)%nat with O by (subst n; lia).
  cbn [repeat]. rewrite app_nil_r.
  unfold bind at 1. unfold GetLastError at 1. world_simpl. rewrite Herr.
  cbn [Z.eqb negb throw_if_file]. unfold bind at 1. unfold ret at 1.
  fold n. rewrite ?Hsize, ?Hps, ?Hn32, Z.eqb_refl. cbn [negb].
  unfold bind, ret, CloseHandle, log, modify. world_simpl.
  reflexivity.
  Unshelve. reflexivity.
Qed.

(** ** Writing an entry *)

(** The two writes on a file that was just created or truncated: either a
    write fails and the matching error is thrown, or the file holds the
    header followed by the first [(DWORD)data_size] bytes of the data. *)
Lemma write_entry_spec filename hdr data_size data w :
  file_lookup filename (files w) = Some [] ->
  let payload := firstn (Z.to_nat (to_DWORD data_size)) data in
  let fault0 := write_fault (oracle w) filename 0 in
  let fault1 := write_fault (oracle w) filename (Z.to_nat sizeof_CacheEntryHeaderV1) in
  exists w',
    write_entry (mkHandle filename 0) hdr data_size data w
    = (if fault0 =? 0 then
         if fault1 =? 0 then inr tt
         else inl (runtime_error "Data write to local cache failed")
       else inl (runtime_error "Header write to local cache failed"), w')
    /\ (fault0 = 0 -> fault1 = 0 ->
        file_lookup filename (files w') = Some (header_bytes hdr ++ payload)
        /\ last_error w' = last_error w)
    /\ init_flag w' = init_flag w
    /\ g_cache_dirname w' = g_cache_dirname w
    /\ dirs w' = dirs w
    /\ oracle w' = oracle w
    /\ open_faults w' = open_faults w
    /\ now w' = now w.
Proof.
  intros Hc payload fault0 fault1.
  unfold write_entry. unfold bind at 1.
  unfold WriteFile at 1, bind at 1, log, modify. world_simpl. cbn [h_path h_pos].
  fold fault0. destruct (fault0 =? 0) eqn:E0.
  - unfold file_contents at 1 2. world_simpl. rewrite Hc.
    cbn [firstn app negb throw_if_file]. rewrite skipn_nil, app_nil_r.
    unfold bind at 1. unfold ret at 1. unfold bind at 1.
    unfold WriteFile at 1. unfold bind at 1. unfold log, modify. world_simpl.
    cbn [h_path h_pos].
    rewrite header_bytes_length. cbn [Nat.add]. fold fault1.
    destruct (fault1 =? 0) eqn:E1.
    + unfold file_contents. world_simpl. rewrite file_lookup_store_same.
      rewrite firstn_all2 with (l := header_bytes hdr)
        by (rewrite header_bytes_length; lia).
      rewrite skipn_all2 with (l := header_bytes hdr)
        by (rewrite header_bytes_length; lia).
      rewrite app_nil_r. fold payload.
      cbn [negb throw_if_file]. unfold bind, ret, CloseHandle, log, modify. world_simpl.
      eexists. split; [reflexivity|]. world_simpl.
      split; [intros _ _; split; [apply file_lookup_store_same | reflexivity]|].
      repeat split.
    + cbn [negb throw_if_file].
      unfold bind, ret, throw, CloseHandle, log, modify. world_simpl.
      eexists. split; [reflexivity|]. world_simpl.
      apply Z.eqb_neq in E1.
      split; [intros _ H1; contradiction|]. repeat split.
  - cbn [negb throw_if_file].
    unfold bind, ret, throw, CloseHandle, log, modify. world_simpl.
    eexists. split; [reflexivity|]. world_simpl.
    apply Z.eqb_neq in E0.
    split; [intros H0; contradiction|]. repeat split.
Qed.

(** ** Adding an entry *)

Lemma open_attempt_quiet_create name access share w :
  open_faults w = [] ->
  parent_exists name (dirs w) = true ->
  exists w2,
    open_attempt name access share CREATE_ALWAYS w = (inr (Some (mkHandle name 0)), w2)
    /\ files w2 = file_store name [] (files w)
    /\ init_flag w2 = init_flag w
    /\ g_cache_dirname w2 = g_cache_dirname w
    /\ dirs w2 = dirs w
    /\ oracle w2 = oracle w
    /\ open_faults w2 = []
    /\ now w2 = now w.
Proof.
  intros Hq Hp.
  unfold open_attempt, CreateFile, CreateFile_honest, Sleep, log, modify, bind, ret.
  world_simpl. rewrite Hq. world_simpl. rewrite Hp. cbn [negb].
  destruct (file_lookup name (files w));
    (eexists; split; [reflexivity|]; world_simpl; repeat split; assumption).
Qed.

Lemma open_attempt_quiet_existing name access share w c :
  open_faults w = [] ->
  parent_exists name (dirs w) = true ->
  file_lookup name (files w) = Some c ->
  exists w2,
    open_attempt name access share OPEN_EXISTING w = (inr (Some (mkHandle name 0)), w2)
    /\ last_error w2 = 0
    /\ files w2 = files w
    /\ oracle w2 = oracle w
    /\ now w2 = now w.
Proof.
  intros Hq Hp Hc.
  unfold open_attempt, CreateFile, CreateFile_honest, Sleep, log, modify, bind, ret.
  world_simpl. rewrite Hq. world_simpl. rewrite Hp, Hc. cbn [negb].
  eexists. split; [reflexivity|]. world_simpl. repeat split.
Qed.

Lemma local_cache_add_unfold id expiry data_size data w w0 filename w1 file w2 :
  id <> EmptyString ->
  data_size <> 0 ->
  init w = (inr tt, w0) ->
  get_file_name id w0 = (inr filename, w1) ->
  OpenHandle filename GENERIC_WRITE FILE_SHARE_NONE CREATE_ALWAYS w1 = (inr file, w2) ->
  local_cache_add id expiry data_size (Some data) w
  = match file with
    | None => throw_if_file true "Create file failed" None w2
    | Some file =>
        write_entry file {| version := CACHE_V1; expiry := expiry |} data_size data w2
    end.
Proof.
  intros Hid Hsize Hinit Hname Hopen.
  unfold local_cache_add. destruct id; [contradiction|].
  apply Z.eqb_neq in Hsize. rewrite Hsize.
  cbn [string_empty throw_if]. unfold bind at 1. unfold ret at 1.
  unfold bind at 1. unfold ret at 1.
  unfold bind at 1. rewrite Hinit.
  unfold bind at 1. rewrite Hname.
  unfold bind at 1. rewrite Hopen.
  destruct file; reflexivity.
Qed.

(** On a machine where nothing interferes, [local_cache_add] returns and
    the entry file holds the header followed by the first
    [(DWORD)data_size] bytes of the data. *)
Lemma local_cache_add_quiet id expiry data_size data w w0 filename :
  id <> EmptyString ->
  data_size <> 0 ->
  init w = (inr tt, w0) ->
  get_file_name id w0 = (inr filename, w0) ->
  In (g_cache_dirname w0) (dirs w0) ->
  open_faults w0 = [] ->
  (forall pos, write_fault (oracle w0) filename pos = 0) ->
  exists w1,
    local_cache_add id expiry data_size (Some data) w = (inr tt, w1)
    /\ file_lookup filename (files w1)
       = Some (header_bytes {| version := CACHE_V1; expiry := expiry |}
               ++ firstn (Z.to_nat (to_DWORD data_size)) data)
    /\ init_flag w1 = true
    /\ g_cache_dirname w1 = g_cache_dirname w0
    /\ dirs w1 = dirs w0
    /\ oracle w1 = oracle w0
    /\ open_faults w1 = []
    /\ now w1 = now w0.
Proof.
  intros Hid Hsize Hinit Hname Hdir Hq Hwf.
  destruct (get_file_name_inv _ _ _ _ Hname) as (_ & name & -> & Hnb).
  pose proof (parent_exists_join _ _ _ Hdir Hnb) as Hp.
  set (filename := (g_cache_dirname w0 ++ "\" ++ name)%string) in *.
  destruct (open_attempt_quiet_create filename GENERIC_WRITE FILE_SHARE_NONE w0 Hq Hp)
    as (w2 & Hopen & Hfiles & Hflag & Hdn & Hds & Ho & Hq2 & Hnow).
  rewrite <- OpenHandle_quiet in Hopen by exact Hq.
  rewrite (local_cache_add_unfold id expiry data_size data w w0 filename w0 _ w2
             Hid Hsize Hinit Hname Hopen).
  assert (Hc : file_lookup filename (files w2) = Some [])
    by (rewrite Hfiles; apply file_lookup_store_same).
  destruct (write_entry_spec filename {| version := CACHE_V1; expiry := expiry |}
              data_size data w2 Hc)
    as (w1 & Hw & Hcontent & Hflag1 & Hdn1 & Hds1 & Ho1 & Hq1 & Hnow1).
  rewrite Ho, !Hwf in Hw, Hcontent. cbn [Z.eqb] in Hw.
  destruct (Hcontent eq_refl eq_refl) as [Hlook _].
  exists w1. split; [exact Hw|]. split; [exact Hlook|].
  pose proof (init_sets_flag _ _ Hinit).
  repeat split; congruence.
Qed.

(** ** Getting an entry back *)

Lemma local_cache_get_quiet id w filename c :
  id <> EmptyString ->
  init_flag w = true ->
  get_file_name id w = (inr filename, w) ->
  In (g_cache_dirname w) (dirs w) ->
  open_faults w = [] ->
  file_lookup filename (files w) = Some c ->
  exists w2,
    local_cache_get id w = read_entry filename (mkHandle filename 0) w2
    /\ last_error w2 = 0
    /\ files w2 = files w
    /\ oracle w2 = oracle w
    /\ now w2 = now w.
Proof.
  intros Hid Hflag Hname Hdir Hq Hc.
  destruct (get_file_name_inv _ _ _ _ Hname) as (_ & name & Hf & Hnb).
  pose proof (parent_exists_join _ _ _ Hdir Hnb) as Hp. rewrite <- Hf in Hp.
  destruct (open_attempt_quiet_existing filename GENERIC_READ FILE_SHARE_READ w c Hq Hp Hc)
    as (w2 & Hopen & Herr & Hfiles & Ho & Hnow).
  rewrite <- OpenHandle_quiet in Hopen by exact Hq.
  exists w2. split; [|auto].
  rewrite (local_cache_get_unfold id w w filename w _ w2 Hid (init_once w Hflag) Hname Hopen).
  reflexivity.
Qed.

Lemma stored_expiry_written h payload :
  stored_expiry (header_bytes h ++ payload) = to_time_t (expiry h).
Proof.
  unfold stored_expiry.
  rewrite header_read_full by (rewrite length_app, header_bytes_length; lia).
  rewrite <- (header_bytes_length h).
  rewrite firstn_app, Nat.sub_diag, firstn_O, app_nil_r, firstn_all.
  rewrite header_of_header_bytes. reflexivity.
Qed.

Lemma signed_range bits z :
  0 < bits -> - 2 ^ (bits - 1) <= signed bits z < 2 ^ (bits - 1).
Proof.
  intros Hb. unfold signed, wrap.
  assert (H2 : 2 ^ bits = 2 * 2 ^ (bits - 1)).
  { rewrite <- Z.pow_succ_r by lia. f_equal. lia. }
  assert (Hp : 0 < 2 ^ (bits - 1)) by (apply Z.pow_pos_nonneg; lia).
  pose proof (Z.mod_pos_bound z (2 ^ bits) ltac:(lia)) as Hm.
  destruct (Z.ltb_spec (z mod 2 ^ bits) (2 ^ (bits - 1))); lia.
Qed.

(** A negative [datasize] becomes a vector size beyond [max_size()]. *)
Lemma read_entry_length_error filename c w :
  file_lookup filename (files w) = Some c ->
  last_error w = 0 ->
  read_fault (oracle w) filename 0 = 0 ->
  now w < stored_expiry c ->
  payload_size (to_DWORD (Z.of_nat (List.length c))) < 0 ->
  fst (read_entry filename (mkHandle filename 0) w)
  = inl (length_error "vector too long").
Proof.
  intros Hc Herr Hf0 Hexp Hneg.
  rewrite (read_entry_unfold filename c w Hc Herr Hf0).
  apply Z.leb_gt in Hexp. rewrite Hexp. clear Hexp.
  unfold bind at 1. unfold GetFileSize, bind at 1, log, modify. world_simpl.
  cbn [h_path]. unfold file_contents at 1. world_simpl. rewrite Hc.
  set (d := payload_size (to_DWORD (Z.of_nat (List.length c)))) in *.
  assert (Hd : - 2 ^ 31 <= d) by (apply (signed_range 32); lia).
  assert (Hbig : (to_size_t d >? vector_max_size) = true).
  { unfold to_size_t, wrap, vector_max_size.
    rewrite <- (Z.mod_add d 1) by lia. rewrite Z.mod_small by lia. lia. }
  unfold bind at 1. unfold make_vector. rewrite Hbig. reflexivity.
Qed.

(** ** Entry files shorter than the header *)

Lemma le_value_app_zeros bs n : le_value (bs ++ repeat x00 n) = le_value bs.
Proof.
  induction bs as [|b bs IH]; cbn [app le_value]; [apply le_value_zeros|].
  rewrite IH. reflexivity.
Qed.

(** The expiry read from a file shorter than the header: the value of
    the bytes the file has from offset 8 on, the missing ones taken as
    zero. *)
Lemma stored_expiry_short c :
  (List.length c < Z.to_nat sizeof_CacheEntryHeaderV1)%nat ->
  stored_expiry c = to_time_t (le_value (skipn (Z.to_nat offsetof_expiry) c)).
Proof.
  intros Hlen. unfold stored_expiry.
  rewrite header_read_short by lia.
  unfold header_of_bytes, field_bytes. cbn [expiry].
  change (Z.to_nat offsetof_expiry) with 8%nat.
  change (Z.to_nat sizeof_time_t) with 8%nat.
  change (Z.to_nat sizeof_CacheEntryHeaderV1) with 16%nat in *.
  rewrite skipn_app, skipn_repeat_zeros.
  rewrite firstn_all2 by (rewrite length_app, length_skipn, repeat_length; lia).
  rewrite le_value_app_zeros. reflexivity.
Qed.

Lemma payload_size_short n :
  0 <= n < sizeof_CacheEntryHeaderV1 -> payload_size (to_DWORD n) < 0.
Proof.
  change sizeof_CacheEntryHeaderV1 with 16. intros Hn.
  assert (Hd : to_DWORD n = n) by (unfold to_DWORD, wrap; apply Z.mod_small; lia).
  rewrite Hd. unfold payload_size, to_int, to_size_t.
  change sizeof_CacheEntryHeaderV1 with 16.
  rewrite signed_wrap_wider by lia.
  rewrite signed_of_range; lia.
Qed.

(** An entry shorter than the header that does not read as expired: the
    size of the vector comes out negative, the constructor throws, and
    nothing was called but the header read and [GetFileSize]. *)
Lemma read_entry_short_unexpired filename c w :
  file_lookup filename (files w) = Some c ->
  last_error w = 0 ->
  read_fault (oracle w) filename 0 = 0 ->
  now w < stored_expiry c ->
  (List.length c < Z.to_nat sizeof_CacheEntryHeaderV1)%nat ->
  read_entry filename (mkHandle filename 0) w
  = (inl (length_error "vector too long"),
     set_trace (EvGetFileSize filename
                :: EvReadFile filename sizeof_CacheEntryHeaderV1 :: trace w) w).
Proof.
  intros Hc Herr Hf0 Hexp Hlen.
  rewrite (read_entry_unfold filename c w Hc Herr Hf0).
  apply Z.leb_gt in Hexp. rewrite Hexp. clear Hexp.
  unfold bind at 1. unfold GetFileSize, bind at 1, log, modify. world_simpl.
  cbn [h_path]. unfold file_contents at 1. world_simpl. rewrite Hc.
  set (d := payload_size (to_DWORD (Z.of_nat (List.length c)))).
  assert (Hneg : d < 0).
  { apply payload_size_short. change sizeof_CacheEntryHeaderV1 with 16.
    change (Z.to_nat sizeof_CacheEntryHeaderV1) with 16%nat in Hlen. lia. }
  assert (Hd : - 2 ^ 31 <= d) by (apply (signed_range 32); lia).
  assert (Hbig : (to_size_t d >? vector_max_size) = true).
  { unfold to_size_t, wrap, vector_max_size.
    rewrite <- (Z.mod_add d 1) by lia. rewrite Z.mod_small by lia. lia. }
  unfold bind at 1. unfold make_vector. rewrite Hbig. reflexivity.
Qed.

(** C10, as the code has it.  A file shorter than the 16-byte header is
    read without any check of the byte count, so no header-read error and
    no other [runtime_error] comes of it: the bytes the file does not
    have stay zero in the buffer, and the expiry the call tests is the
    value of whatever bytes the file has from offset 8 on.  When that is
    at or before the current time the call deletes the file and returns
    not-found; this is always so for a file of at most 8 bytes (none of
    the expiry field present, so it reads as zero) on a clock that is not
    negative.  When it is after the current time (the file then has 9 to
    15 bytes) the size of the payload comes out negative and the vector
    constructor throws [std::length_error]; nothing was called but the
    header read and [GetFileSize], so the file stays. *)
Theorem short_entry_is_dropped (w w0 w1 w2 : World) (id filename : string)
  (file : HANDLE) :
  id <> EmptyString ->
  init w = (inr tt, w0) ->
  get_file_name id w0 = (inr filename, w1) ->
  OpenHandle filename GENERIC_READ FILE_SHARE_READ OPEN_EXISTING w1
  = (inr (Some file), w2) ->
  read_fault (oracle w2) filename 0 = 0 ->
  let c := file_contents filename w2 in
  (List.length c < Z.to_nat sizeof_CacheEntryHeaderV1)%nat ->
  let r := local_cache_get id w in
  let stored := to_time_t (le_value (skipn (Z.to_nat offsetof_expiry) c)) in
  let dropped :=
    fst r = inr None
    /\ hd_error (trace (snd r)) = Some (EvDeleteFile filename)
    /\ (delete_fault (oracle w2) filename = 0 ->
        file_lookup filename (files (snd r)) = None) in
  (forall what, fst r <> inl (runtime_error what))
  /\ (stored <= now w2 -> dropped)
  /\ (now w2 < stored ->
      r = (inl (length_error "vector too long"),
           set_trace (EvGetFileSize filename
                      :: EvReadFile filename sizeof_CacheEntryHeaderV1 :: trace w2) w2))
  /\ ((List.length c <= Z.to_nat offsetof_expiry)%nat -> 0 <= now w2 -> dropped).
Proof.
  intros Hid Hinit Hname Hopen Hfault c Hlen r stored dropped.
  assert (Hrun : r = read_entry filename (mkHandle filename 0) w2
                 /\ last_error w2 = 0
                 /\ file_lookup filename (files w2) = Some c).
  { subst r.
    rewrite (local_cache_get_unfold id w w0 filename w1 (Some file) w2) by assumption.
    destruct (OpenHandle_success _ _ _ _ _ _ _ Hopen) as (w' & Hsame & Hatt).
    destruct (open_attempt_existing_inv _ _ _ _ _ _ Hatt)
      as (-> & Herr & (_ & _ & _ & _ & Hfiles & _ & _) & c' & Hc).
    split; [reflexivity|]. split; [exact Herr|].
    subst c. unfold file_contents. rewrite Hfiles, Hc. reflexivity. }
  destruct Hrun as (Hr & Herr & Hc).
  assert (Hstored : stored_expiry c = stored) by (apply stored_expiry_short; exact Hlen).
  assert (Hdrop : stored <= now w2 -> dropped).
  { intros Hexp. subst dropped. rewrite Hr. rewrite <- Hstored in Hexp.
    destruct (read_entry_expired filename c w2 Hc Herr Hfault Hexp) as (Hres & Htr & Hfs).
    split; [exact Hres|]. split; [exact Htr|]. rewrite Hfs.
    intros ->. cbn [Z.eqb]. apply file_lookup_remove_same. }
  assert (Hthrow : now w2 < stored ->
                   r = (inl (length_error "vector too long"),
                        set_trace (EvGetFileSize filename
                                   :: EvReadFile filename sizeof_CacheEntryHeaderV1
                                   :: trace w2) w2)).
  { intros Hexp. rewrite Hr. rewrite <- Hstored in Hexp.
    apply (read_entry_short_unexpired filename c w2); assumption. }
  split; [|split; [exact Hdrop|]; split; [exact Hthrow|]].
  - intros what Hwhat. destruct (Z.le_gt_cases stored (now w2)) as [Hexp | Hexp].
    + destruct (Hdrop Hexp) as (Hres & _). rewrite Hres in Hwhat. discriminate.
    + rewrite (Hthrow Hexp) in Hwhat. discriminate.
  - intros Hshort Hnow. apply Hdrop. rewrite <- Hstored.
    rewrite stored_expiry_absent by exact Hshort. exact Hnow.
Qed.

(** Resolving the directory does not touch the clock. *)
Lemma init_preserves_now w : now (snd (init w)) = now w.
Proof.
  unfold init. destruct (init_flag w); [reflexivity|].
  unfold bind at 1. rewrite init_callback_unfold.
  assert (Hcfg : now (snd (read_configuration w)) = now w).
  { unfold read_configuration, bind, new_TCHAR, GetEnvironmentVariable, bind, log,
      modify, ret. world_simpl.
    destruct (env_lookup "LOCALAPPDATA" (env_vars w)); world_simpl;
      destruct (env_lookup "AZDCAP_CACHE" (env_vars w)); reflexivity. }
  destruct (read_configuration w) as [[e|[env_home env_azdcap_cache]] w1];
    world_simpl; [exact Hcfg|].
  assert (Hres : forall base, now (snd (resolve_with base w1)) = now w1).
  { intros base.
    unfold resolve_with, make_dir, CreateDirectory, GetLastError, throw_if, throw,
      bind, log, modify, ret. world_simpl.
    destruct (existsb _ _); world_simpl;
      [|destruct (mkdir_fault (oracle w1) (base ++ application_name) =? 0); world_simpl];
      match goal with |- context [if ?c then _ else _] => destruct c end; reflexivity. }
  destruct (c_str_nonempty env_home);
    [|destruct (c_str_nonempty env_azdcap_cache)].
  - specialize (Hres env_home).
    destruct (resolve_with env_home w1) as [[e|[]] w2]; unfold modify;
      world_simpl; congruence.
  - specialize (Hres env_azdcap_cache).
    destruct (resolve_with env_azdcap_cache w1) as [[e|[]] w2]; unfold modify;
      world_simpl; congruence.
  - exact Hcfg.
Qed.

Section RoundTrip.

Variables (w w0 : World) (id filename : string) (deadline : Z) (payload : list byte).

Hypothesis key_not_empty : id <> EmptyString.
Hypothesis payload_not_empty : payload <> [].
Hypothesis expiry_is_time_t : in_time_t deadline.
Hypothesis directory_resolved : init w = (inr tt, w0).
Hypothesis directory_exists : In (g_cache_dirname w0) (dirs w0).
Hypothesis hasher_works : get_file_name id w0 = (inr filename, w0).
Hypothesis no_contention : open_faults w0 = [].
Hypothesis writes_work : forall pos, write_fault (oracle w0) filename pos = 0.
Hypothesis reads_work : forall pos, read_fault (oracle w0) filename pos = 0.

Let data_size : Z := Z.of_nat (List.length payload).
Let header : CacheEntryHeaderV1 := {| version := CACHE_V1; expiry := deadline |}.

Lemma data_size_not_zero : data_size <> 0.
Proof.
  subst data_size. destruct payload; [contradiction | cbn [List.length]; lia].
Qed.

(** The add, and what a later get finds, for a payload that fits a
    [DWORD] file size. *)
Lemma add_then_open :
  sizeof_CacheEntryHeaderV1 + data_size < 2 ^ 32 ->
  exists w1,
    local_cache_add id deadline data_size (Some payload) w = (inr tt, w1)
    /\ now w1 = now w0
    /\ forall t, t < deadline ->
         exists w2 w3,
           local_cache_get id w1 = read_entry filename (mkHandle filename 0) w2
           /\ local_cache_get id (set_now t w1)
              = read_entry filename (mkHandle filename 0) w3
           /\ (now w1 < deadline -> now w2 < stored_expiry (header_bytes header ++ payload))
           /\ now w3 < stored_expiry (header_bytes header ++ payload)
           /\ (forall w', w' = w2 \/ w' = w3 ->
                 file_lookup filename (files w') = Some (header_bytes header ++ payload)
                 /\ last_error w' = 0
                 /\ forall pos, read_fault (oracle w') filename pos = 0).
Proof.
  intros Hfit.
  destruct (local_cache_add_quiet id deadline data_size payload w w0 filename
              key_not_empty data_size_not_zero directory_resolved hasher_works
              directory_exists no_contention writes_work)
    as (w1 & Hadd & Hlook & Hflag & Hdn & Hds & Ho & Hq & Hnow).
  assert (Hall : firstn (Z.to_nat (to_DWORD data_size)) payload = payload).
  { apply firstn_all2. unfold to_DWORD, wrap.
    change sizeof_CacheEntryHeaderV1 with 16 in Hfit.
    rewrite Z.mod_small by (subst data_size; lia). subst data_size. lia. }
  rewrite Hall in Hlook. fold header in Hlook.
  exists w1. split; [exact Hadd|]. split; [exact Hnow|]. intros t Ht.
  assert (Hname1 : get_file_name id w1 = (inr filename, w1))
    by (apply (get_file_name_frame id w0); assumption).
  assert (Hname3 : get_file_name id (set_now t w1) = (inr filename, set_now t w1))
    by (apply (get_file_name_frame id w0); assumption).
  destruct (local_cache_get_quiet id w1 filename _ key_not_empty Hflag Hname1
              ltac:(rewrite Hdn, Hds; exact directory_exists) Hq Hlook)
    as (w2 & Hget2 & Herr2 & Hfs2 & Ho2 & Hnow2).
  destruct (local_cache_get_quiet id (set_now t w1) filename _ key_not_empty Hflag Hname3
              ltac:(world_simpl; rewrite Hdn, Hds; exact directory_exists) Hq Hlook)
    as (w3 & Hget3 & Herr3 & Hfs3 & Ho3 & Hnow3).
  world_simpl.
  exists w2, w3. split; [exact Hget2|]. split; [exact Hget3|].
  rewrite stored_expiry_written. cbn [expiry header].
  rewrite to_time_t_of_range by exact expiry_is_time_t.
  split; [intros; lia|]. split; [lia|].
  intros w' [-> | ->].
  - rewrite Hfs2, Ho2, Ho. auto.
  - rewrite Hfs3, Ho3, Ho. auto.
Qed.

(** C1, as the code has it.  On a machine where the cache directory
    resolves and exists, the hasher works, nobody else holds the entry
    file and reads and writes succeed: for a non-empty key and a
    non-empty payload of fewer than 2^31 bytes, [local_cache_add] returns
    normally, and a [local_cache_get] that follows returns exactly the
    payload, as long as the clock it reads is before the expiry. *)
Theorem add_then_get_round_trip :
  data_size < 2 ^ 31 ->
  exists w1,
    local_cache_add id deadline data_size (Some payload) w = (inr tt, w1)
    /\ (now w < deadline -> fst (local_cache_get id w1) = inr (Some payload))
    /\ (forall t, t < deadline ->
          fst (local_cache_get id (set_now t w1)) = inr (Some payload)).
Proof.
  intros Hsmall.
  destruct add_then_open as (w1 & Hadd & Hnow & Hget);
    [change sizeof_CacheEntryHeaderV1 with 16; lia|].
  exists w1. split; [exact Hadd|]. split.
  - intros Hlt.
    assert (Hsame : now w0 = now w).
    { pose proof (init_preserves_now w) as Hi.
      rewrite directory_resolved in Hi. exact Hi. }
    destruct (Hget (now w) Hlt) as (w2 & w3 & Hg2 & _ & He2 & _ & Hw).
    destruct (Hw w2 (or_introl eq_refl)) as (Hlook & Herr & Hrf).
    destruct (read_entry_payload filename (header_bytes header) payload w2 Hlook
                (header_bytes_length header) Hsmall Herr (Hrf _) (Hrf _))
      as (w' & Hr & _); [apply He2; lia|].
    rewrite Hg2, Hr. reflexivity.
  - intros t Ht.
    destruct (Hget t Ht) as (w2 & w3 & _ & Hg3 & _ & He3 & Hw).
    destruct (Hw w3 (or_intror eq_refl)) as (Hlook & Herr & Hrf).
    destruct (read_entry_payload filename (header_bytes header) payload w3 Hlook
                (header_bytes_length header) Hsmall Herr (Hrf _) (Hrf _) He3)
      as (w' & Hr & _).
    rewrite Hg3, Hr. reflexivity.
Qed.

(** A payload of 2^31 bytes or more, still within a [DWORD] file size, is
    written in full, but the [int] that holds its size in
    [local_cache_get] is negative and the get throws. *)
Lemma add_then_get_oversized :
  2 ^ 31 <= data_size ->
  sizeof_CacheEntryHeaderV1 + data_size < 2 ^ 32 ->
  exists w1,
    local_cache_add id deadline data_size (Some payload) w = (inr tt, w1)
    /\ forall t, t < deadline ->
         fst (local_cache_get id (set_now t w1)) = inl (length_error "vector too long").
Proof.
  intros Hbig Hfit.
  destruct (add_then_open Hfit) as (w1 & Hadd & Hnow & Hget).
  exists w1. split; [exact Hadd|]. intros t Ht.
  destruct (Hget t Ht) as (w2 & w3 & _ & Hg3 & _ & He3 & Hw).
  destruct (Hw w3 (or_intror eq_refl)) as (Hlook & Herr & Hrf).
  rewrite Hg3. apply (read_entry_length_error _ _ _ Hlook Herr (Hrf _) He3).
  rewrite length_app, header_bytes_length, Nat2Z.inj_add.
  fold data_size. change (Z.of_nat (Z.to_nat sizeof_CacheEntryHeaderV1)) with 16.
  change sizeof_CacheEntryHeaderV1 with 16 in Hfit.
  unfold to_DWORD, wrap. rewrite Z.mod_small by (subst data_size; lia).
  unfold payload_size, to_int, to_size_t, signed, wrap.
  change sizeof_CacheEntryHeaderV1 with 16.
  replace (16 + data_size - 16) with data_size by lia.
  rewrite (Z.mod_small data_size (2 ^ 64)) by (subst data_size; lia).
  rewrite (Z.mod_small data_size (2 ^ 32)) by lia.
  destruct (Z.ltb_spec data_size (2 ^ (32 - 1))); lia.
Qed.

End RoundTrip.

(** ** The layout of a written entry *)

Lemma local_cache_add_inv id expiry data_size data w w' :
  local_cache_add id expiry data_size (Some data) w = (inr tt, w') ->
  exists w0 filename w2,
    init w = (inr tt, w0)
    /\ get_file_name id w0 = (inr filename, w0)
    /\ file_lookup filename (files w2) = Some []
    /\ write_entry (mkHandle filename 0) {| version := CACHE_V1; expiry := expiry |}
         data_size data w2 = (inr tt, w').
Proof.
  unfold local_cache_add. destruct id as [|ch id]; [discriminate|].
  destruct (data_size =? 0); [discriminate|].
  cbn [string_empty throw_if]. unfold bind at 1. unfold ret at 1.
  unfold bind at 1. unfold ret at 1. unfold bind at 1.
  destruct (init w) as [[e|[]] w0] eqn:Hinit; [discriminate|].
  unfold bind at 1.
  destruct (get_file_name (String ch id) w0) as [[e|filename] w1] eqn:Hname; [discriminate|].
  destruct (get_file_name_inv _ _ _ _ Hname) as (-> & _).
  unfold bind at 1.
  destruct (OpenHandle filename GENERIC_WRITE FILE_SHARE_NONE CREATE_ALWAYS w0)
    as [[e|[file|]] w2] eqn:Hopen; try discriminate.
  intros Hwrite.
  destruct (OpenHandle_success _ _ _ _ _ _ _ Hopen) as (wk & Hsame & Hatt).
  destruct (open_attempt_create_inv _ _ _ _ _ _ Hatt) as (-> & Hfiles & _).
  exists w0, filename, w2. repeat split; try assumption.
  rewrite Hfiles. apply file_lookup_store_same.
Qed.

(** A payload of 2^31 bytes or more: the [int] that holds its size in
    [local_cache_get] is negative, also when the file size no longer
    fits the [DWORD] that [GetFileSize] returns. *)
Lemma payload_size_oversized n :
  2 ^ 31 <= n < 2 ^ 32 ->
  payload_size (to_DWORD (sizeof_CacheEntryHeaderV1 + n)) < 0.
Proof.
  intros Hn. unfold payload_size, to_int, to_size_t, to_DWORD.
  rewrite signed_wrap_wider.
  assert (H : signed 32 (wrap 32 (sizeof_CacheEntryHeaderV1 + n) - sizeof_CacheEntryHeaderV1)
              = signed 32 n).
  { unfold signed, wrap. rewrite Zminus_mod_idemp_l.
    replace (sizeof_CacheEntryHeaderV1 + n - sizeof_CacheEntryHeaderV1) with n by lia.
    reflexivity. }
  rewrite H. unfold signed, wrap. rewrite Z.mod_small by lia.
  destruct (Z.ltb_spec n (2 ^ (32 - 1))); lia.
Qed.

(** C2, as the code has it.  After a [local_cache_add] that returned, the
    entry file holds the 2-byte version at offset 0, six bytes of
    alignment, the 8-byte expiry at offset 8 and the payload from offset
    16 on, so the payload length is the file size less 16.  A
    [local_cache_get] of the same key that opens this file before the
    expiry, and whose reads succeed, takes the payload length from the
    file size in the same way as long as the payload has fewer than 2^31
    bytes: it returns a vector of the file size less 16 bytes, the
    payload.  For a longer payload the [int] it keeps the length in is
    negative, and it throws [std::length_error]. *)
Theorem entry_file_layout (w w' : World) (id : string) (expires data_size : Z)
  (data : list byte) :
  local_cache_add id expires data_size (Some data) w = (inr tt, w') ->
  exists filename,
    fst ((init ;; get_file_name id) w) = inr filename
    /\ let c := file_contents filename w' in
       let payload := firstn (Z.to_nat (to_DWORD data_size)) data in
       c = le_bytes 2 CACHE_V1 ++ repeat x00 6 ++ le_bytes 8 expires ++ payload
       /\ field_bytes offsetof_version sizeof_uint16_t c = le_bytes 2 CACHE_V1
       /\ field_bytes offsetof_expiry sizeof_time_t c = le_bytes 8 expires
       /\ skipn (Z.to_nat sizeof_CacheEntryHeaderV1) c = payload
       /\ Z.of_nat (List.length payload)
          = Z.of_nat (List.length c) - sizeof_CacheEntryHeaderV1
       /\ forall (v v0 v1 v2 : World) (file : HANDLE),
            init v = (inr tt, v0) ->
            get_file_name id v0 = (inr filename, v1) ->
            OpenHandle filename GENERIC_READ FILE_SHARE_READ OPEN_EXISTING v1
            = (inr (Some file), v2) ->
            file_contents filename v2 = c ->
            (forall pos, read_fault (oracle v2) filename pos = 0) ->
            now v2 < to_time_t expires ->
            (Z.of_nat (List.length payload) < 2 ^ 31 ->
             exists got,
               fst (local_cache_get id v) = inr (Some got)
               /\ Z.of_nat (List.length got)
                  = Z.of_nat (List.length c) - sizeof_CacheEntryHeaderV1
               /\ got = payload)
            /\ (2 ^ 31 <= Z.of_nat (List.length payload) ->
                fst (local_cache_get id v) = inl (length_error "vector too long")).
Proof.
  intros Hadd.
  assert (Hid : id <> EmptyString).
  { intros ->. discriminate Hadd. }
  destruct (local_cache_add_inv _ _ _ _ _ _ Hadd)
    as (w0 & filename & w2 & Hinit & Hname & Hempty & Hwrite).
  exists filename. split.
  { unfold bind. rewrite Hinit, Hname. reflexivity. }
  destruct (write_entry_spec filename {| version := CACHE_V1; expiry := expires |}
              data_size data w2 Hempty)
    as (w1 & Hw & Hcontent & _).
  rewrite Hwrite in Hw.
  destruct (write_fault (oracle w2) filename 0 =? 0) eqn:E0; [|discriminate].
  destruct (write_fault (oracle w2) filename (Z.to_nat sizeof_CacheEntryHeaderV1) =? 0)
    eqn:E1; [|discriminate].
  injection Hw as <-.
  apply Z.eqb_eq in E0, E1. destruct (Hcontent E0 E1) as [Hlook _].
  set (h := {| version := CACHE_V1; expiry := expires |}) in *.
  intros c payload.
  assert (Hc0 : c = header_bytes h ++ payload).
  { subst c. unfold file_contents. rewrite Hlook. reflexivity. }
  clearbody c. subst c.
  assert (Hshape : header_bytes h ++ payload
                   = le_bytes 2 CACHE_V1 ++ repeat x00 6 ++ le_bytes 8 expires ++ payload).
  { rewrite header_bytes_shape. cbn [version expiry h]. rewrite <- !app_assoc. reflexivity. }
  assert (Hlen : List.length (header_bytes h ++ payload)
                 = (Z.to_nat sizeof_CacheEntryHeaderV1 + List.length payload)%nat)
    by (rewrite length_app, header_bytes_length; reflexivity).
  split; [exact Hshape|]. split; [|split; [|split; [|split]]].
  - rewrite Hshape. reflexivity.
  - rewrite Hshape. unfold field_bytes.
    change (Z.to_nat offsetof_expiry) with (2 + 6)%nat.
    change (Z.to_nat sizeof_time_t) with 8%nat.
    rewrite (app_assoc (le_bytes 2 CACHE_V1)).
    rewrite skipn_app, length_app, le_bytes_length, repeat_length, Nat.sub_diag.
    rewrite skipn_all2 by (rewrite length_app, le_bytes_length, repeat_length; lia).
    cbn [skipn app].
    rewrite firstn_app, le_bytes_length, Nat.sub_diag, firstn_O, app_nil_r.
    apply firstn_all2. rewrite le_bytes_length. lia.
  - rewrite <- (header_bytes_length h).
    rewrite skipn_app, Nat.sub_diag, skipn_all. reflexivity.
  - rewrite Hlen. change sizeof_CacheEntryHeaderV1 with 16. lia.
  - intros v v0 v1 v2 file Hinit' Hname' Hopen Hsame Hreads Hclock.
    rewrite (local_cache_get_unfold id v v0 filename v1 (Some file) v2) by assumption.
    destruct (OpenHandle_success _ _ _ _ _ _ _ Hopen) as (vk & _ & Hatt).
    destruct (open_attempt_existing_inv _ _ _ _ _ _ Hatt)
      as (-> & Herr & (_ & _ & _ & _ & Hfiles & _ & _) & c' & Hc).
    assert (Hc2 : file_lookup filename (files v2) = Some (header_bytes h ++ payload)).
    { rewrite Hfiles, Hc. unfold file_contents in Hsame.
      rewrite Hfiles, Hc in Hsame. rewrite Hsame. reflexivity. }
    assert (Hexp : now v2 < stored_expiry (header_bytes h ++ payload))
      by (rewrite stored_expiry_written; exact Hclock).
    split.
    + intros Hsmall.
      destruct (read_entry_payload filename (header_bytes h) payload v2 Hc2
                  (header_bytes_length h) Hsmall Herr (Hreads _) (Hreads _) Hexp)
        as (v3 & Hr & _).
      exists payload. rewrite Hr. split; [reflexivity|]. split; [|reflexivity].
      rewrite Hlen. change sizeof_CacheEntryHeaderV1 with 16. lia.
    + intros Hbig.
      apply (read_entry_length_error filename _ v2 Hc2 Herr (Hreads _) Hexp).
      rewrite Hlen, Nat2Z.inj_add.
      change (Z.of_nat (Z.to_nat sizeof_CacheEntryHeaderV1)) with sizeof_CacheEntryHeaderV1.
      apply payload_size_oversized. split; [exact Hbig|].
      subst payload. pose proof (firstn_le_length (Z.to_nat (to_DWORD data_size)) data) as Hle.
      assert (Hd : to_DWORD data_size < 2 ^ 32)
        by (unfold to_DWORD, wrap; apply Z.mod_pos_bound; lia).
      assert (Hd0 : 0 <= to_DWORD data_size)
        by (unfold to_DWORD, wrap; apply Z.mod_pos_bound; lia).
      lia.
Qed.

(** ** Clearing the cache *)

(** The paths [DeleteFileW] was called on, oldest call first. *)
Definition delete_calls (t : list Event) : list string :=
  rev (flat_map (fun e => match e with EvDeleteFile p => [p] | _ => [] end) t).

(** The names up to the first one for which [ok] fails, and the rest. *)
Fixpoint until_failure (ok : string -> bool) (names : list string)
  : list string * list string :=
  match names with
  | [] => ([], [])
  | n :: rest =>
      if ok n then (n :: fst (until_failure ok rest), snd (until_failure ok rest))
      else ([], names)
  end.

Definition remove_all (paths : list string) (fs : list (string * list byte))
  : list (string * list byte) :=
  fold_left (fun fs p => file_remove p fs) paths fs.

Lemma delete_calls_cons e t :
  delete_calls (e :: t)
  = delete_calls t ++ match e with EvDeleteFile p => [p] | _ => [] end.
Proof.
  unfold delete_calls. cbn [flat_map]. rewrite rev_app_distr.
  destruct e; reflexivity.
Qed.

Lemma file_lookup_remove_all paths : forall fs p,
  file_lookup p (remove_all paths fs)
  = if existsb (String.eqb p) paths then None else file_lookup p fs.
Proof.
  induction paths as [|q paths IH]; intros fs p; [reflexivity|].
  cbn [remove_all fold_left existsb]. fold (remove_all paths (file_remove q fs)).
  rewrite IH. destruct (String.eqb p q) eqn:E.
  - apply String.eqb_eq in E. subst q. cbn [orb].
    destruct (existsb (String.eqb p) paths); [reflexivity|].
    apply file_lookup_remove_same.
  - cbn [orb]. destruct (existsb (String.eqb p) paths); [reflexivity|].
    apply file_lookup_remove_other. intros ->. rewrite String.eqb_refl in E. discriminate.
Qed.

Section Clear.

Variable baseDir : string.

Definition full_name (n : string) : string := (baseDir ++ "\" ++ n)%string.

Lemma full_name_inj n m : full_name n = full_name m -> n = m.
Proof.
  unfold full_name. induction baseDir as [|c b IH]; cbn [append]; intros H.
  - inversion H. reflexivity.
  - inversion H. auto.
Qed.

Lemma clear_entry_skip n w :
  is_real_entry n = false -> clear_entry baseDir n w = (inr tt, w).
Proof. intros H. unfold clear_entry. rewrite H. reflexivity. Qed.

Lemma clear_entry_deleted n w c :
  is_real_entry n = true ->
  delete_fault (oracle w) (full_name n) = 0 ->
  file_lookup (full_name n) (files w) = Some c ->
  clear_entry baseDir n w
  = (inr tt, set_files (file_remove (full_name n) (files w))
               (set_trace (EvDeleteFile (full_name n) :: trace w) w)).
Proof.
  intros Hr Hf Hc. unfold clear_entry. rewrite Hr. fold (full_name n).
  unfold DeleteFileW, GetLastError, fthrow_if, bind, log, modify, ret. world_simpl.
  rewrite Hf. cbn [Z.eqb negb]. rewrite Hc.
  destruct (args_right_to_left (oracle w)); reflexivity.
Qed.

(** A deletion fails when the file system refuses it or when the name is
    not a file: a subdirectory, for one. *)
Lemma clear_entry_failed n w :
  is_real_entry n = true ->
  delete_fault (oracle w) (full_name n) <> 0
  \/ file_lookup (full_name n) (files w) = None ->
  exists what w',
    clear_entry baseDir n w = (inl (runtime_error what), w')
    /\ files w' = files w
    /\ dirs w' = dirs w
    /\ trace w' = EvFindClose :: EvDeleteFile (full_name n) :: trace w.
Proof.
  intros Hr Hf. unfold clear_entry. rewrite Hr. fold (full_name n).
  unfold DeleteFileW, GetLastError, fthrow_if, FindClose, throw, bind, log, modify, ret.
  world_simpl.
  destruct (args_right_to_left (oracle w));
    (destruct (delete_fault (oracle w) (full_name n) =? 0) eqn:E; cbn [negb]; world_simpl;
     [destruct Hf as [Hf | Hf];
      [apply Z.eqb_eq in E; contradiction|];
      rewrite Hf; destruct (existsb _ _); world_simpl
     |]);
    (eexists _, _; split; [reflexivity|]; repeat split).
Qed.

Variable o : Oracle.
Variable fs0 : list (string * list byte).

(** [DeleteFileW] succeeds on a name: the file system lets it, and the
    name is a file. *)
Definition deletable (n : string) : bool :=
  (delete_fault o (full_name n) =? 0) && is_file (full_name n) fs0.

(** The loop over the names of the listing: it deletes the real entries
    in order up to the first one that cannot be deleted, and throws
    there. *)
Lemma clear_loop_spec rest : forall fileName w,
  oracle w = o ->
  let todo := filter is_real_entry (fileName :: rest) in
  NoDup todo ->
  (forall n, In n todo ->
             file_lookup (full_name n) (files w) = file_lookup (full_name n) fs0) ->
  let pre := fst (until_failure deletable todo) in
  let post := snd (until_failure deletable todo) in
  let r := clear_loop baseDir fileName rest w in
  delete_calls (trace (snd r))
  = delete_calls (trace w) ++ map full_name (pre ++ firstn 1 post)
  /\ files (snd r) = remove_all (map full_name pre) (files w)
  /\ dirs (snd r) = dirs w
  /\ match post with
     | [] => fst r = inr tt
     | _ :: _ => exists what, fst r = inl (runtime_error what)
     end.
Proof.
  assert (Hyes : forall n w, oracle w = o ->
             file_lookup (full_name n) (files w) = file_lookup (full_name n) fs0 ->
             deletable n = true ->
             delete_fault (oracle w) (full_name n) = 0
             /\ exists c, file_lookup (full_name n) (files w) = Some c).
  { intros n w Ho Hsame Hd. unfold deletable, is_file in Hd.
    apply andb_true_iff in Hd. destruct Hd as [Hf Hfile].
    apply Z.eqb_eq in Hf. rewrite Ho. split; [exact Hf|]. rewrite Hsame.
    destruct (file_lookup (full_name n) fs0) as [c|]; [eauto | discriminate]. }
  assert (Hno : forall n w, oracle w = o ->
             file_lookup (full_name n) (files w) = file_lookup (full_name n) fs0 ->
             deletable n = false ->
             delete_fault (oracle w) (full_name n) <> 0
             \/ file_lookup (full_name n) (files w) = None).
  { intros n w Ho Hsame Hd. unfold deletable, is_file in Hd.
    apply andb_false_iff in Hd. rewrite Ho, Hsame. destruct Hd as [Hf | Hfile].
    - left. apply Z.eqb_neq. exact Hf.
    - right. destruct (file_lookup (full_name n) fs0); [discriminate | reflexivity]. }
  induction rest as [|next rest IH]; intros fileName w Ho todo Hnd Hex pre post r.
  - (* the last name of the listing *)
    subst r pre post todo. cbn [filter] in *. cbn [clear_loop]. unfold bind.
    destruct (is_real_entry fileName) eqn:Hr.
    + cbn [until_failure]. destruct (deletable fileName) eqn:Hd.
      * destruct (Hyes fileName w Ho (Hex fileName (or_introl eq_refl)) Hd)
          as (Hf & c & Hc).
        rewrite (clear_entry_deleted fileName w c Hr Hf Hc).
        unfold FindNextFile, SetLastError, bind, log, modify, ret. world_simpl.
        rewrite !delete_calls_cons, !app_nil_r. cbn [fst snd map app firstn].
        repeat split.
      * pose proof (Hno fileName w Ho (Hex fileName (or_introl eq_refl)) Hd) as Hf.
        destruct (clear_entry_failed fileName w Hr Hf) as (what & w' & -> & Hfs & Hds & Htr).
        world_simpl. rewrite Htr, !delete_calls_cons, app_nil_r.
        cbn [fst snd map app firstn]. repeat split; eauto.
    + rewrite (clear_entry_skip fileName w Hr).
      unfold FindNextFile, SetLastError, bind, log, modify, ret. world_simpl.
      rewrite !delete_calls_cons, !app_nil_r. repeat split.
  - (* a name with more to come *)
    subst r pre post todo. cbn [clear_loop]. unfold bind.
    change (filter is_real_entry (fileName :: next :: rest))
      with (if is_real_entry fileName
            then fileName :: filter is_real_entry (next :: rest)
            else filter is_real_entry (next :: rest)) in *.
    destruct (is_real_entry fileName) eqn:Hr.
    + cbn [until_failure]. destruct (deletable fileName) eqn:Hd.
      * destruct (Hyes fileName w Ho (Hex fileName (or_introl eq_refl)) Hd)
          as (Hf & c & Hc).
        rewrite (clear_entry_deleted fileName w c Hr Hf Hc).
        unfold FindNextFile, bind, log, modify, ret.
        world_simpl.
        match goal with
        | |- context [clear_loop baseDir next rest ?w1] => set (w1' := w1)
        end.
        inversion Hnd as [|? ? Hnotin Hnd']. subst.
        destruct (IH next w1') as (Hcalls & Hfiles & Hdirs & Hres).
        { exact Ho. }
        { exact Hnd'. }
        { intros n Hin. subst w1'. world_simpl.
          rewrite file_lookup_remove_other; [apply Hex; right; exact Hin|].
          intros Heq. apply full_name_inj in Heq. subst n. contradiction. }
        cbn [fst snd]. split; [|split; [|split]].
        -- rewrite Hcalls. subst w1'. world_simpl.
           rewrite !delete_calls_cons, app_nil_r. cbn [map app].
           rewrite <- app_assoc. reflexivity.
        -- rewrite Hfiles. subst w1'. world_simpl. reflexivity.
        -- rewrite Hdirs. subst w1'. world_simpl. reflexivity.
        -- exact Hres.
      * pose proof (Hno fileName w Ho (Hex fileName (or_introl eq_refl)) Hd) as Hf.
        destruct (clear_entry_failed fileName w Hr Hf) as (what & w' & -> & Hfs & Hds & Htr).
        world_simpl. rewrite Htr, !delete_calls_cons, app_nil_r.
        cbn [fst snd map app firstn]. repeat split; eauto.
    + rewrite (clear_entry_skip fileName w Hr).
      unfold FindNextFile, bind, log, modify, ret.
      world_simpl.
      match goal with
      | |- context [clear_loop baseDir next rest ?w1] => set (w1' := w1)
      end.
      destruct (IH next w1') as (Hcalls & Hfiles & Hdirs & Hres);
        [exact Ho | exact Hnd | exact Hex |].
      split; [|split; [|split]].
      * rewrite Hcalls. subst w1'. world_simpl. rewrite delete_calls_cons, app_nil_r.
        reflexivity.
      * rewrite Hfiles. reflexivity.
      * rewrite Hdirs. reflexivity.
      * exact Hres.
Qed.

End Clear.

Lemma file_lookup_In p c fs : In (p, c) fs -> file_lookup p fs <> None.
Proof.
  induction fs as [|[q d] fs IH]; intros Hin; [contradiction|].
  cbn [file_lookup]. destruct (String.eqb p q) eqn:E; [discriminate|].
  destruct Hin as [Heq | Hin]; [|auto].
  inversion Heq; subst. rewrite String.eqb_refl in E. discriminate.
Qed.

Lemma until_failure_app ok names :
  names = fst (until_failure ok names) ++ snd (until_failure ok names).
Proof.
  induction names as [|n names IH]; [reflexivity|].
  cbn [until_failure]. destruct (ok n); cbn [fst snd app]; [|reflexivity].
  f_equal. exact IH.
Qed.

Lemma existsb_eqb_In p ps : existsb (String.eqb p) ps = true <-> In p ps.
Proof.
  rewrite existsb_exists. split.
  - intros (q & Hin & E). apply String.eqb_eq in E. subst. exact Hin.
  - intros Hin. exists p. split; [exact Hin | apply String.eqb_refl].
Qed.

(** *** What a search lists *)

Lemma children_of_paths d fs : children d fs = subdirectories d (map fst fs).
Proof.
  unfold children, subdirectories.
  induction fs as [|e fs IH]; [reflexivity|]. cbn [flat_map map]. rewrite IH. reflexivity.
Qed.

Lemma In_subdirectories d ds n :
  In n (subdirectories d ds) <-> exists p, In p ds /\ child_name d p = Some n.
Proof.
  unfold subdirectories. rewrite in_flat_map. split.
  - intros (p & Hin & Hn).
    destruct (child_name d p) as [m|] eqn:E; [|contradiction].
    destruct Hn as [<- | []]. eauto.
  - intros (p & Hin & E). exists p. split; [exact Hin|]. rewrite E. left. reflexivity.
Qed.

Lemma subdirectories_NoDup d ds : NoDup ds -> NoDup (subdirectories d ds).
Proof.
  induction ds as [|p ds IH]; intros Hnd; [constructor|].
  inversion Hnd as [|? ? Hnotin Hnd']. subst.
  change (subdirectories d (p :: ds))
    with (match child_name d p with Some n => [n] | None => [] end ++ subdirectories d ds).
  destruct (child_name d p) as [n|] eqn:E; [|apply IH; exact Hnd'].
  cbn [app]. constructor; [|apply IH; exact Hnd'].
  intros Hin. apply In_subdirectories in Hin. destruct Hin as (q & Hq & Eq).
  apply child_name_inv in E, Eq. destruct E as [-> _], Eq as [-> _]. contradiction.
Qed.

Lemma insert_by_rank_perm rank n names :
  Permutation (insert_by_rank rank n names) (n :: names).
Proof.
  induction names as [|m names IH]; [apply Permutation_refl|].
  cbn [insert_by_rank]. destruct (rank n <=? rank m)%nat; [apply Permutation_refl|].
  apply Permutation_trans with (m :: n :: names).
  - apply perm_skip. exact IH.
  - apply perm_swap.
Qed.

Lemma in_search_order_perm rank names : Permutation (in_search_order rank names) names.
Proof.
  induction names as [|n names IH]; [apply Permutation_refl|].
  cbn [in_search_order fold_right]. fold (in_search_order rank names).
  apply Permutation_trans with (n :: in_search_order rank names).
  - apply insert_by_rank_perm.
  - apply perm_skip. exact IH.
Qed.

(** A search lists exactly the files and the directories directly below
    the directory, each once when no path is there twice. *)
Lemma In_dir_entries d w n :
  In n (dir_entries d w)
  <-> exists p, child_name d p = Some n /\ (In p (map fst (files w)) \/ In p (dirs w)).
Proof.
  unfold dir_entries. split.
  - intros Hin. apply (Permutation_in _ (in_search_order_perm _ _)) in Hin.
    rewrite children_of_paths in Hin. apply in_app_or in Hin.
    destruct Hin as [Hin | Hin]; apply In_subdirectories in Hin;
      destruct Hin as (p & Hp & E); exists p; auto.
  - intros (p & E & Hp).
    apply (Permutation_in _ (Permutation_sym (in_search_order_perm _ _))).
    rewrite children_of_paths. apply in_or_app.
    destruct Hp as [Hp | Hp]; [left | right]; apply In_subdirectories; eauto.
Qed.

Lemma dir_entries_NoDup d w :
  NoDup (map fst (files w) ++ dirs w) -> NoDup (dir_entries d w).
Proof.
  intros Hnd. unfold dir_entries.
  apply (Permutation_NoDup (Permutation_sym (in_search_order_perm _ _))).
  rewrite children_of_paths. unfold subdirectories. rewrite <- flat_map_app.
  apply subdirectories_NoDup. exact Hnd.
Qed.

Lemma dir_entries_no_backslash d w n : In n (dir_entries d w) -> no_backslash n = true.
Proof.
  intros Hin. apply In_dir_entries in Hin. destruct Hin as (p & E & _).
  apply child_name_inv in E. apply E.
Qed.

Lemma file_lookup_not_In p fs : ~ In p (map fst fs) -> file_lookup p fs = None.
Proof.
  induction fs as [|[q c] fs IH]; intros Hnot; [reflexivity|].
  cbn [file_lookup]. destruct (String.eqb p q) eqn:E.
  - apply String.eqb_eq in E. subst q. exfalso. apply Hnot. left. reflexivity.
  - apply IH. intros Hin. apply Hnot. right. exact Hin.
Qed.

Lemma file_lookup_Some_path p c fs : file_lookup p fs = Some c -> In p (map fst fs).
Proof.
  intros H. destruct (in_dec string_dec p (map fst fs)) as [Hin | Hnot]; [exact Hin|].
  rewrite (file_lookup_not_In _ _ Hnot) in H. discriminate.
Qed.

(** C8.  With the cache directory resolved and present and no path there
    twice, [local_cache_clear] goes through the listing of the directory:
    [.] and [..] and every file and every subdirectory directly below it,
    in the order of the search.  It leaves out exactly the names [.] and
    [..] and calls [DeleteFileW] on the others in listing order.  With
    [pre] the entries before the first one that cannot be deleted (a
    subdirectory never can) and [post] that entry and all after it: the
    calls are those for [pre] and for the head of [post]; the files of
    [pre] are gone; those of [post] are as they were, each of them still
    a file or a directory; no directory is removed; and the result is an
    error exactly when [post] is not empty. *)
Theorem clear_stops_at_first_failure (w w0 : World) :
  init w = (inr tt, w0) ->
  In (g_cache_dirname w0) (dirs w0) ->
  NoDup (map fst (files w0) ++ dirs w0) ->
  let base := g_cache_dirname w0 in
  let listing := "." :: ".." :: dir_entries base w0 in
  let todo := filter is_real_entry listing in
  let ok := deletable base (oracle w0) (files w0) in
  let pre := fst (until_failure ok todo) in
  let post := snd (until_failure ok todo) in
  let r := local_cache_clear w in
  (forall p n, child_name base p = Some n ->
               file_lookup p (files w0) <> None \/ In p (dirs w0) -> In n listing)
  /\ (forall n, In (full_name base n) (dirs w0) -> ok n = false)
  /\ (forall n, In n listing -> n <> "." -> n <> ".." -> In n (pre ++ post))
  /\ delete_calls (trace (snd r))
     = delete_calls (trace w0) ++ map (full_name base) (pre ++ firstn 1 post)
  /\ (forall n, In n pre -> file_lookup (full_name base n) (files (snd r)) = None)
  /\ (forall n, In n post ->
        file_lookup (full_name base n) (files (snd r))
        = file_lookup (full_name base n) (files w0)
        /\ (file_lookup (full_name base n) (files w0) <> None
            \/ In (full_name base n) (dirs (snd r))))
  /\ dirs (snd r) = dirs w0
  /\ match post with
     | [] => fst r = inr tt
     | _ :: _ => exists what, fst r = inl (runtime_error what)
     end.
Proof.
  intros Hinit Hdir Hnd base listing todo ok pre post r.
  set (w1 := set_trace (EvFindFirstFile (base ++ "\*") :: trace w0) w0).
  assert (Hr : r = (clear_loop base "." (".." :: dir_entries base w0) ;; FindClose) w1).
  { subst r. unfold local_cache_clear. unfold bind at 1. rewrite Hinit.
    unfold bind at 1. fold base. unfold bind at 1.
    unfold FindFirstFile, bind at 1, log, modify. world_simpl.
    rewrite pattern_dir_join.
    apply existsb_eqb_In in Hdir. fold base in Hdir. rewrite Hdir. reflexivity. }
  assert (Htodo_nd : NoDup todo).
  { change todo with (filter is_real_entry (dir_entries base w0)).
    apply NoDup_filter, dir_entries_NoDup. exact Hnd. }
  assert (Htodo_ex : forall n, In n todo ->
                               file_lookup (full_name base n) (files w0) <> None
                               \/ In (full_name base n) (dirs w0)).
  { intros n Hin. subst todo listing. apply filter_In in Hin. destruct Hin as [Hin Hreal].
    destruct Hin as [<- | [<- | Hin]]; [discriminate | discriminate |].
    apply In_dir_entries in Hin. destruct Hin as (p & E & Hp).
    apply child_name_inv in E. destruct E as [-> _].
    destruct Hp as [Hp | Hp]; [left | right; exact Hp].
    apply in_map_iff in Hp. destruct Hp as ([q c] & Hq & Hin). cbn [fst] in Hq. subst q.
    apply (file_lookup_In _ c). exact Hin. }
  destruct (clear_loop_spec base (oracle w0) (files w0) (".." :: dir_entries base w0) "." w1
              eq_refl Htodo_nd ltac:(intros; reflexivity))
    as (Hcalls & Hfiles & Hdirs & Hres).
  fold listing todo ok pre post in Hcalls, Hfiles, Hres.
  pose proof (until_failure_app ok todo) as Happ.
  fold pre post in Happ.
  assert (Hfinal : delete_calls (trace (snd r))
                   = delete_calls (trace (snd (clear_loop base "." (".." :: dir_entries base w0) w1)))
                   /\ files (snd r)
                      = files (snd (clear_loop base "." (".." :: dir_entries base w0) w1))
                   /\ dirs (snd r)
                      = dirs (snd (clear_loop base "." (".." :: dir_entries base w0) w1))
                   /\ match post with
                      | [] => fst r = inr tt
                      | _ :: _ => exists what, fst r = inl (runtime_error what)
                      end).
  { rewrite Hr. unfold bind.
    destruct (clear_loop base "." (".." :: dir_entries base w0) w1) as [[e|[]] w2].
    - world_simpl. repeat split. destruct post; [discriminate Hres | exact Hres].
    - unfold FindClose, log, modify. world_simpl.
      rewrite delete_calls_cons, app_nil_r. repeat split.
      destruct post; [reflexivity|]. destruct Hres as (what & Hw). discriminate Hw. }
  destruct Hfinal as (Hc2 & Hf2 & Hd2 & Hres2).
  assert (Hdirs_r : dirs (snd r) = dirs w0) by (rewrite Hd2, Hdirs; reflexivity).
  split; [|split; [|split; [|split; [|split; [|split; [|split]]]]]].
  - intros p n E Hp. right. right. apply In_dir_entries. exists p. split; [exact E|].
    destruct Hp as [Hp | Hp]; [left | right; exact Hp].
    destruct (file_lookup p (files w0)) as [c|] eqn:Hc; [|contradiction].
    apply (file_lookup_Some_path _ c). exact Hc.
  - intros n Hin. subst ok. unfold deletable, is_file.
    rewrite file_lookup_not_In; [apply andb_false_r|].
    intros Hfile. apply NoDup_app_remove_l in Hnd as Hnd_dirs.
    revert Hnd Hfile Hin. generalize (full_name base n) (map fst (files w0)) (dirs w0).
    clear. intros p fs ds Hnd Hfile Hin.
    induction fs as [|q fs IH]; [contradiction|].
    cbn [app] in Hnd. inversion Hnd as [|? ? Hnotin Hnd']. subst.
    destruct Hfile as [-> | Hfile]; [|auto].
    apply Hnotin. apply in_or_app. right. exact Hin.
  - intros n Hin Hdot Hdotdot. rewrite <- Happ. apply filter_In. split; [exact Hin|].
    unfold is_real_entry. apply String.eqb_neq in Hdot, Hdotdot.
    rewrite Hdot, Hdotdot. reflexivity.
  - rewrite Hc2, Hcalls. reflexivity.
  - intros n Hin. rewrite Hf2, Hfiles, file_lookup_remove_all.
    replace (existsb (String.eqb (full_name base n)) (map (full_name base) pre)) with true;
      [reflexivity|].
    symmetry. apply existsb_eqb_In. apply in_map. exact Hin.
  - intros n Hin. split.
    + rewrite Hf2, Hfiles, file_lookup_remove_all.
      replace (existsb (String.eqb (full_name base n)) (map (full_name base) pre))
        with false; [reflexivity|].
      symmetry. apply not_true_is_false. intros Hex. apply existsb_eqb_In in Hex.
      apply in_map_iff in Hex. destruct Hex as (m & Heq & Hm).
      apply full_name_inj in Heq. subst m.
      rewrite Happ in Htodo_nd.
      revert Htodo_nd Hm Hin. clear. intros Hnd Hm Hin.
      induction pre as [|a pre IH]; [contradiction|].
      cbn [app] in Hnd. inversion Hnd as [|? ? Hnotin Hnd']. subst.
      destruct Hm as [-> | Hm]; [|auto].
      apply Hnotin. apply in_or_app. right. exact Hin.
    + rewrite Hdirs_r. apply Htodo_ex. rewrite Happ. apply in_or_app. right. exact Hin.
  - exact Hdirs_r.
  - exact Hres2.
Qed.

(** * The properties on the sample machines *)

(** C1 on the sample machine: two bytes stored under [k] come back. *)
Lemma add_then_get_round_trip_witness :
  exists w1,
    local_cache_add "k" 1700003600 2 (Some [x41; x42]) fresh_machine = (inr tt, w1)
    /\ (now fresh_machine < 1700003600 ->
        fst (local_cache_get "k" w1) = inr (Some [x41; x42]))
    /\ (forall t, t < 1700003600 ->
          fst (local_cache_get "k" (set_now t w1)) = inr (Some [x41; x42])).
Proof.
  apply (add_then_get_round_trip fresh_machine ready_machine "k" entry_path
           1700003600 [x41; x42]).
  - discriminate.
  - discriminate.
  - unfold in_time_t. lia.
  - vm_compute. reflexivity.
  - vm_compute. auto.
  - vm_compute. reflexivity.
  - vm_compute. reflexivity.
  - intros pos. vm_compute. reflexivity.
  - intros pos. vm_compute. reflexivity.
  - vm_compute. reflexivity.
Defined.

(** C1 does not hold for every payload: 2^31 bytes are stored, but the
    get that follows throws instead of returning them. *)
Lemma round_trip_fails_at_2GiB :
  exists w1,
    local_cache_add "k" 1700003600 (Z.of_nat (List.length (repeat x00 (Z.to_nat (2 ^ 31)))))
                    (Some (repeat x00 (Z.to_nat (2 ^ 31)))) fresh_machine
    = (inr tt, w1)
    /\ now w1 < 1700003600
    /\ fst (local_cache_get "k" w1) = inl (length_error "vector too long").
Proof.
  assert (Hlen : Z.of_nat (List.length (repeat x00 (Z.to_nat (2 ^ 31)))) = 2 ^ 31)
    by (rewrite repeat_length; apply Z2Nat.id; lia).
  assert (Hne : repeat x00 (Z.to_nat (2 ^ 31)) <> []).
  { intros E. apply (f_equal (@List.length byte)) in E.
    apply (f_equal Z.of_nat) in E. rewrite Hlen in E. discriminate E. }
  revert Hlen Hne. generalize (repeat x00 (Z.to_nat (2 ^ 31))). intros payload Hlen Hne.
  destruct (add_then_open fresh_machine ready_machine "k" entry_path 1700003600 payload)
    as (w1 & Hadd & Hnow & Hget).
  - discriminate.
  - exact Hne.
  - unfold in_time_t. lia.
  - vm_compute. reflexivity.
  - vm_compute. auto.
  - vm_compute. reflexivity.
  - vm_compute. reflexivity.
  - intros pos. vm_compute. reflexivity.
  - intros pos. vm_compute. reflexivity.
  - rewrite Hlen. reflexivity.
  - exists w1. split; [exact Hadd|].
    assert (Hclock : now w1 < 1700003600) by (rewrite Hnow; vm_compute; reflexivity).
    split; [exact Hclock|].
    destruct (Hget (now w1) Hclock) as (w2 & w3 & Hg2 & _ & He2 & _ & Hw).
    destruct (Hw w2 (or_introl eq_refl)) as (Hlook & Herr & Hrf).
    rewrite Hg2.
    apply (read_entry_length_error _ _ _ Hlook Herr (Hrf _) (He2 Hclock)).
    rewrite length_app, header_bytes_length, Nat2Z.inj_add, Hlen.
    reflexivity.
Defined.

(** C2 on the sample machine: the entry written for the two bytes [AB],
    and the get that reads it back. *)
Lemma entry_file_layout_witness :
  exists filename,
    fst ((init ;; get_file_name "k") fresh_machine) = inr filename
    /\ skipn 16 (file_contents filename stored_machine) = [x41; x42]
    /\ Z.of_nat (List.length (file_contents filename stored_machine)) - 16 = 2
    /\ exists got,
         fst (local_cache_get "k" stored_machine) = inr (Some got)
         /\ Z.of_nat (List.length got)
            = Z.of_nat (List.length (file_contents filename stored_machine)) - 16.
Proof.
  destruct (entry_file_layout fresh_machine stored_machine "k" 1700003600 2 [x41; x42])
    as (filename & Hname & _ & _ & _ & Hpayload & Hlen & Hget).
  - vm_compute. reflexivity.
  - exists filename. split; [exact Hname|]. split; [exact Hpayload|].
    split; [symmetry; exact Hlen|].
    assert (Hpath : filename = entry_path).
    { vm_compute in Hname. injection Hname as <-. reflexivity. }
    destruct (Hget stored_machine stored_machine stored_machine
                (snd (OpenHandle filename GENERIC_READ FILE_SHARE_READ OPEN_EXISTING
                        stored_machine))
                (mkHandle filename 0)) as [Hsmall _].
    + vm_compute. reflexivity.
    + rewrite Hpath. vm_compute. reflexivity.
    + rewrite Hpath. vm_compute. reflexivity.
    + rewrite Hpath. vm_compute. reflexivity.
    + intros pos. rewrite Hpath. vm_compute. reflexivity.
    + rewrite Hpath. vm_compute. reflexivity.
    + destruct Hsmall as (got & Hres & Hsize & _); [vm_compute; reflexivity|].
      exists got. split; [exact Hres | exact Hsize].
Defined.

(** C2 does not hold with the offsets 2 and 10: the file written for the
    two bytes [AB] has 18 bytes, the eight bytes at offset 2 are not the
    expiry, and the bytes from offset 10 on are not the payload.  Nor
    does [local_cache_get] take the payload length from the file size for
    every entry: for a payload of 2^31 bytes it throws. *)
Lemma entry_layout_is_not_packed :
  (local_cache_add "k" 1700003600 2 (Some [x41; x42]) fresh_machine
   = (inr tt, stored_machine)
   /\ List.length (file_contents entry_path stored_machine) = 18%nat
   /\ Z.of_nat (List.length (file_contents entry_path stored_machine)) - 10 <> 2
   /\ field_bytes 2 8 (file_contents entry_path stored_machine) <> le_bytes 8 1700003600
   /\ field_bytes 8 8 (file_contents entry_path stored_machine) = le_bytes 8 1700003600
   /\ skipn 10 (file_contents entry_path stored_machine) <> [x41; x42]
   /\ skipn 16 (file_contents entry_path stored_machine) = [x41; x42])
  /\ exists w1,
       local_cache_add "k" 1700003600
         (Z.of_nat (List.length (repeat x00 (Z.to_nat (2 ^ 31)))))
         (Some (repeat x00 (Z.to_nat (2 ^ 31)))) fresh_machine
       = (inr tt, w1)
       /\ fst (local_cache_get "k" (set_now 1700000000 w1))
          = inl (length_error "vector too long").
Proof.
  split; [vm_compute; repeat split; discriminate|].
  assert (Hlen : Z.of_nat (List.length (repeat x00 (Z.to_nat (2 ^ 31)))) = 2 ^ 31)
    by (rewrite repeat_length; apply Z2Nat.id; lia).
  assert (Hne : repeat x00 (Z.to_nat (2 ^ 31)) <> []).
  { intros E. apply (f_equal (@List.length byte)) in E.
    apply (f_equal Z.of_nat) in E. rewrite Hlen in E. discriminate E. }
  revert Hlen Hne. generalize (repeat x00 (Z.to_nat (2 ^ 31))). intros payload Hlen Hne.
  destruct (add_then_get_oversized fresh_machine ready_machine "k" entry_path
              1700003600 payload)
    as (w1 & Hadd & Hget).
  - discriminate.
  - exact Hne.
  - unfold in_time_t. lia.
  - vm_compute. reflexivity.
  - vm_compute. auto.
  - vm_compute. reflexivity.
  - vm_compute. reflexivity.
  - intros pos. vm_compute. reflexivity.
  - intros pos. vm_compute. reflexivity.
  - rewrite Hlen. lia.
  - rewrite Hlen. reflexivity.
  - exists w1. split; [exact Hadd|]. apply Hget. lia.
Qed.

(** C3 on the sample machine: a key that was never added. *)
Lemma get_open_failure_is_miss_witness :
  fst (local_cache_get "zz" stored_machine) = inr None.
Proof.
  rewrite (get_open_failure_is_miss stored_machine stored_machine stored_machine
             (snd (OpenHandle "C:\Local\.az-dcap-client\7a7a0000" GENERIC_READ
                     FILE_SHARE_READ OPEN_EXISTING stored_machine))
             "zz" "C:\Local\.az-dcap-client\7a7a0000").
  - reflexivity.
  - discriminate.
  - vm_compute. reflexivity.
  - vm_compute. reflexivity.
  - vm_compute. reflexivity.
Defined.

(** C3 does not hold for opens that fail for another reason than a
    missing file: with the entry in place, an open refused for access
    rights, and one that used up all 10000 rounds on sharing violations,
    both end in not-found, not in an error. *)
Lemma get_swallows_open_errors :
  file_lookup entry_path (files denied_machine) <> None
  /\ fst (local_cache_get "k" denied_machine) = inr None
  /\ last_error (snd (local_cache_get "k" denied_machine)) = ERROR_ACCESS_DENIED
  /\ fst (local_cache_get "k" busy_machine) = inr None
  /\ last_error (snd (local_cache_get "k" busy_machine)) = ERROR_SHARING_VIOLATION
  /\ open_calls (snd (local_cache_get "k" busy_machine)) = S (Z.to_nat MAX_RETRY).
Proof.
  vm_compute. repeat split. discriminate.
Qed.

(** C4 on the sample machine: the expired entry is reported as not-found
    and its file is gone. *)
Lemma expired_entry_is_deleted_witness :
  fst (local_cache_get "k" expired_machine) = inr None
  /\ file_lookup entry_path (files (snd (local_cache_get "k" expired_machine))) = None.
Proof.
  destruct (expired_entry_is_deleted expired_machine expired_machine expired_machine
              (snd (OpenHandle entry_path GENERIC_READ FILE_SHARE_READ OPEN_EXISTING
                      expired_machine))
              "k" entry_path (mkHandle entry_path 0))
    as (Hmiss & _ & Hgone & _).
  - discriminate.
  - vm_compute. reflexivity.
  - vm_compute. reflexivity.
  - vm_compute. reflexivity.
  - vm_compute. reflexivity.
  - vm_compute. discriminate.
  - split; [exact Hmiss|]. apply Hgone. vm_compute. reflexivity.
Defined.

(** C5 on the sample machine: the directory is already there. *)
Lemma make_dir_failure_handling_witness :
  fst (make_dir "C:\Local\.az-dcap-client" ready_machine) = inr tt.
Proof.
  destruct (make_dir_failure_handling ready_machine
              (snd (CreateDirectory "C:\Local\.az-dcap-client" ready_machine))
              "C:\Local\.az-dcap-client")
    as (Hexists & _ & _).
  - vm_compute. reflexivity.
  - rewrite Hexists; [reflexivity | vm_compute; reflexivity].
Defined.

(** C5 does not hold for every failure: when creating the directory is
    refused for access rights, [make_dir] returns normally and so does
    the initialisation that called it, with a directory name recorded
    that does not exist. *)
Lemma make_dir_ignores_access_denied :
  fst (CreateDirectory "C:\Local\.az-dcap-client" read_only_machine) = inr false
  /\ last_error (snd (CreateDirectory "C:\Local\.az-dcap-client" read_only_machine))
     = ERROR_ACCESS_DENIED
  /\ fst (make_dir "C:\Local\.az-dcap-client" read_only_machine) = inr tt
  /\ fst (init read_only_machine) = inr tt
  /\ g_cache_dirname (snd (init read_only_machine)) = "C:\Local\.az-dcap-client"
  /\ dirs (snd (init read_only_machine)) = ["C:\Local"].
Proof.
  vm_compute. repeat split.
Qed.

(** C6 on the sample machine: two sharing violations, then a refusal. *)
Lemma OpenHandle_retry_budget_witness :
  let w := set_open_faults [ERROR_SHARING_VIOLATION; ERROR_SHARING_VIOLATION;
                            ERROR_ACCESS_DENIED] stored_machine in
  let r := OpenHandle entry_path GENERIC_READ FILE_SHARE_READ OPEN_EXISTING w in
  open_calls (snd r) = (open_calls w + 3)%nat
  /\ fst r = inr None
  /\ last_error (snd r) = ERROR_ACCESS_DENIED.
Proof.
  intros w r.
  destruct (OpenHandle_retry_budget entry_path GENERIC_READ FILE_SHARE_READ OPEN_EXISTING w)
    as (Hcalls & _ & Hlast & _).
  fold r in Hcalls, Hlast.
  split; [exact Hcalls|].
  rewrite Hlast by (vm_compute; lia). vm_compute. split; reflexivity.
Defined.

(** C7 on the sample machine. *)
Lemma precondition_rejection_witness :
  exists what,
    In what argument_errors
    /\ local_cache_add "k" 1700003600 0 (Some []) fresh_machine
       = (inl (runtime_error what), fresh_machine).
Proof.
  destruct (precondition_rejection fresh_machine) as [Hadd _].
  apply (Hadd "k" 1700003600 0 (Some [])). auto.
Defined.

(** C8 on two sample directories.  In the first the second of three
    files cannot be deleted: the first is gone, the call on the second
    throws, the third is never tried.  In the second a subdirectory
    follows a file: the file is gone, the call on the subdirectory
    throws, and the subdirectory stays. *)
Lemma clear_stops_at_first_failure_witness :
  (let r := local_cache_clear cluttered_machine in
   delete_calls (trace (snd r))
   = ["C:\Local\.az-dcap-client\aa"; "C:\Local\.az-dcap-client\bb"]
   /\ file_lookup "C:\Local\.az-dcap-client\aa" (files (snd r)) = None
   /\ file_lookup "C:\Local\.az-dcap-client\cc" (files (snd r)) = Some [x03]
   /\ exists what, fst r = inl (runtime_error what))
  /\ (let r := local_cache_clear shared_machine in
      delete_calls (trace (snd r))
      = ["C:\Local\.az-dcap-client\aa"; "C:\Local\.az-dcap-client\sub"]
      /\ file_lookup "C:\Local\.az-dcap-client\aa" (files (snd r)) = None
      /\ In "C:\Local\.az-dcap-client\sub" (dirs (snd r))
      /\ exists what, fst r = inl (runtime_error what)).
Proof.
  split.
  - pose proof (clear_stops_at_first_failure cluttered_machine
                  (snd (init cluttered_machine))) as H.
    cbv zeta in H.
    destruct H as (_ & _ & _ & Hcalls & Hgone & Hkept & _ & Hres).
    + vm_compute. reflexivity.
    + vm_compute. auto.
    + vm_compute. repeat constructor; cbn [In]; intuition discriminate.
    + cbv zeta.
      split; [rewrite Hcalls; vm_compute; reflexivity|].
      split; [apply (Hgone "aa"); vm_compute; auto|].
      split; [|vm_compute in Hres; exact Hres].
      destruct (Hkept "cc") as [Hcc _]; [vm_compute; auto|].
      vm_compute in Hcc. vm_compute. exact Hcc.
  - pose proof (clear_stops_at_first_failure shared_machine
                  (snd (init shared_machine))) as H.
    cbv zeta in H.
    destruct H as (_ & _ & _ & Hcalls & Hgone & Hkept & _ & Hres).
    + vm_compute. reflexivity.
    + vm_compute. auto.
    + vm_compute. repeat constructor; cbn [In]; intuition discriminate.
    + cbv zeta.
      split; [rewrite Hcalls; vm_compute; reflexivity|].
      split; [apply (Hgone "aa"); vm_compute; auto|].
      split; [|vm_compute in Hres; exact Hres].
      destruct (Hkept "sub") as [_ [Hfile | Hsub]]; [vm_compute; auto | |].
      * exfalso. apply Hfile. vm_compute. reflexivity.
      * vm_compute in Hsub. vm_compute. exact Hsub.
Defined.

(** C9 on two machines whose allocator hands out an array that still
    holds the string [C:\Temp].  On the first [LOCALAPPDATA] is not
    defined and the override is: the cache directory is made below
    [C:\Temp], not below the override.  On the second neither variable
    is defined: the configuration error is not thrown. *)
Lemma directory_resolution_order_witness :
  (env_lookup "LOCALAPPDATA" (env_vars stale_buffer_machine) = None
   /\ env_lookup "AZDCAP_CACHE" (env_vars stale_buffer_machine) = Some "D:\Cache"
   /\ fst (init_callback stale_buffer_machine) = inr tt
   /\ g_cache_dirname (snd (init_callback stale_buffer_machine))
      = "C:\Temp\.az-dcap-client")
  /\ (env_vars unconfigured_machine = []
      /\ fst (init_callback unconfigured_machine) = inr tt
      /\ g_cache_dirname (snd (init_callback unconfigured_machine))
         = "C:\Temp\.az-dcap-client").
Proof.
  split.
  - destruct (directory_resolution_order stale_buffer_machine) as (_ & _ & _ & Hstale & _).
    rewrite (Hstale "C:\Temp" eq_refl eq_refl ltac:(discriminate)).
    vm_compute. repeat split.
  - destruct (directory_resolution_order unconfigured_machine) as (_ & _ & _ & Hstale & _).
    rewrite (Hstale "C:\Temp" eq_refl eq_refl ltac:(discriminate)).
    vm_compute. repeat split.
Defined.

(** C10 on two sample machines: an entry file of no bytes at all is
    dropped; one of twelve bytes whose expiry bytes are set makes the
    call throw [std::length_error], and stays. *)
Lemma short_entry_is_dropped_witness :
  (fst (local_cache_get "k" empty_entry_machine) = inr None
   /\ file_lookup entry_path (files (snd (local_cache_get "k" empty_entry_machine))) = None)
  /\ (fst (local_cache_get "k" short_entry_machine) = inl (length_error "vector too long")
      /\ files (snd (local_cache_get "k" short_entry_machine)) = files short_entry_machine).
Proof.
  split.
  - destruct (short_entry_is_dropped empty_entry_machine empty_entry_machine
                empty_entry_machine
                (snd (OpenHandle entry_path GENERIC_READ FILE_SHARE_READ OPEN_EXISTING
                        empty_entry_machine))
                "k" entry_path (mkHandle entry_path 0))
      as (_ & _ & _ & Hdrop).
    + discriminate.
    + vm_compute. reflexivity.
    + vm_compute. reflexivity.
    + vm_compute. reflexivity.
    + vm_compute. reflexivity.
    + vm_compute. lia.
    + destruct Hdrop as (Hmiss & _ & Hgone).
      * vm_compute. lia.
      * vm_compute. discriminate.
      * split; [exact Hmiss|]. apply Hgone. vm_compute. reflexivity.
  - destruct (short_entry_is_dropped short_entry_machine short_entry_machine
                short_entry_machine
                (snd (OpenHandle entry_path GENERIC_READ FILE_SHARE_READ OPEN_EXISTING
                        short_entry_machine))
                "k" entry_path (mkHandle entry_path 0))
      as (_ & _ & Hthrow & _).
    + discriminate.
    + vm_compute. reflexivity.
    + vm_compute. reflexivity.
    + vm_compute. reflexivity.
    + vm_compute. reflexivity.
    + vm_compute. lia.
    + rewrite Hthrow by (vm_compute; reflexivity).
      split; vm_compute; reflexivity.
Defined.

(** C10 does not hold for every short file: twelve bytes, with the four
    expiry bytes that are there all set, read as an expiry in the year
    2106; the entry is not taken as expired, and the negative payload
    size makes the call throw.  The file stays. *)
Lemma short_entry_can_throw :
  List.length (file_contents entry_path short_entry_machine) = 12%nat
  /\ stored_expiry (file_contents entry_path short_entry_machine) = 4294967295
  /\ now short_entry_machine = 1700000000
  /\ fst (local_cache_get "k" short_entry_machine) = inl (length_error "vector too long")
  /\ files (snd (local_cache_get "k" short_entry_machine)) = files short_entry_machine.
Proof.
  vm_compute. repeat split.
Qed.

(** When [LOCALAPPDATA] is not defined the buffer it was to be read into
    is looked at all the same; what the allocator left in it is then
    taken for the base directory, ahead of the override. *)
Example init_callback_reads_the_untouched_buffer :
  g_cache_dirname (snd (init_callback (set_fresh_memory ["junk"] service_machine)))
  = "junk\.az-dcap-client".
Proof. vm_compute. reflexivity. Qed.

(** * Further properties *)

(** ** The names of entry files *)

Definition is_hex_digit (c : ascii) : bool :=
  existsb (Ascii.eqb c) (list_ascii_of_string "0123456789abcdef").

Fixpoint all_chars (p : ascii -> bool) (s : string) : bool :=
  match s with
  | EmptyString => true
  | String c s' => p c && all_chars p s'
  end.

Lemma all_chars_app p a b :
  all_chars p (a ++ b)%string = all_chars p a && all_chars p b.
Proof.
  induction a as [|c a IH]; cbn [append all_chars]; [reflexivity|].
  rewrite IH, andb_assoc. reflexivity.
Qed.

Lemma length_append_str a b :
  String.length (a ++ b)%string = (String.length a + String.length b)%nat.
Proof.
  induction a as [|c a IH]; cbn [append String.length]; [reflexivity|].
  rewrite IH. reflexivity.
Qed.

Lemma hex_of_bytes_length bs :
  String.length (hex_of_bytes bs) = (2 * List.length bs)%nat.
Proof.
  induction bs as [|b bs IH]; [reflexivity|].
  cbn [hex_of_bytes List.length]. rewrite length_append_str, IH.
  cbn [hex_of_byte String.length]. lia.
Qed.

Lemma hex_is_real_entry bs : is_real_entry (hex_of_bytes bs) = true.
Proof.
  pose proof (hex_of_bytes_length bs) as Hlen.
  unfold is_real_entry. apply andb_true_intro. split; apply negb_true_iff, String.eqb_neq.
  - intros E. rewrite E in Hlen. cbn [String.length] in Hlen. lia.
  - destruct bs as [|b [|b' bs]].
    + discriminate.
    + destruct b; discriminate.
    + intros E. rewrite E in Hlen. cbn [String.length List.length] in Hlen. lia.
Qed.

(** X1. The name [sha256] builds from a digest has two characters for
    each digest byte, each of them one of [0123456789abcdef]; so it holds
    no path separator and is neither [.] nor [..]. *)
Theorem hex_of_bytes_shape (bs : list byte) :
  String.length (hex_of_bytes bs) = (2 * List.length bs)%nat
  /\ all_chars is_hex_digit (hex_of_bytes bs) = true
  /\ no_backslash (hex_of_bytes bs) = true
  /\ is_real_entry (hex_of_bytes bs) = true.
Proof.
  split; [apply hex_of_bytes_length|]. split; [|split].
  - induction bs as [|b bs IH]; [reflexivity|].
    cbn [hex_of_bytes]. rewrite all_chars_app, IH, andb_true_r.
    destruct b; reflexivity.
  - apply no_backslash_hex.
  - apply hex_is_real_entry.
Qed.

(** Reading a name back into the digest bytes. *)
Definition hex_value (c : ascii) : option N :=
  (fix find (digits : list ascii) (i : N) : option N :=
     match digits with
     | [] => None
     | d :: rest => if Ascii.eqb c d then Some i else find rest (i + 1)%N
     end) (list_ascii_of_string "0123456789abcdef") 0%N.

Fixpoint bytes_of_hex (s : string) : option (list byte) :=
  match s with
  | EmptyString => Some []
  | String _ EmptyString => None
  | String hi (String lo rest) =>
      match hex_value hi, hex_value lo, bytes_of_hex rest with
      | Some h, Some l, Some bs =>
          option_map (fun b => b :: bs) (Byte.of_N (16 * h + l))
      | _, _, _ => None
      end
  end.

Lemma bytes_of_hex_of_bytes bs : bytes_of_hex (hex_of_bytes bs) = Some bs.
Proof.
  induction bs as [|b bs IH]; [reflexivity|].
  cbn [hex_of_bytes].
  assert (Hstep : forall rest,
             bytes_of_hex (hex_of_byte b ++ rest)
             = option_map (cons b) (bytes_of_hex rest)).
  { intros rest. destruct b; cbn [hex_of_byte append bytes_of_hex];
      destruct (bytes_of_hex rest); reflexivity. }
  rewrite Hstep, IH. reflexivity.
Qed.

(** X2. Different digests give different names: the hexadecimal
    rendering loses nothing. *)
Theorem hex_of_bytes_injective (a b : list byte) :
  hex_of_bytes a = hex_of_bytes b -> a = b.
Proof.
  intros H. apply (f_equal bytes_of_hex) in H.
  rewrite !bytes_of_hex_of_bytes in H. injection H as H. exact H.
Qed.

(** ** The hasher *)

(** The calls whose failure [sha256] notices. *)
Definition provider_works (o : Oracle) : bool :=
  NT_SUCCESS (bcrypt_status o OpenAlgorithmProvider)
  && negb (heap_exhausted o)
  && NT_SUCCESS (bcrypt_status o GetProperty_HashLength)
  && NT_SUCCESS (bcrypt_status o CreateHash)
  && NT_SUCCESS (bcrypt_status o HashData)
  && NT_SUCCESS (bcrypt_status o FinishHash).

Lemma sha256_body_outcome o data :
  (provider_works o = true ->
   exists status,
     NT_SUCCESS status = true
     /\ sha256_body o data = (status, EmptyString, hex_of_bytes (bcrypt_digest o data)))
  /\ (provider_works o = false ->
      exists status errorString,
        NT_SUCCESS status = false
        /\ sha256_body o data = (status, errorString, EmptyString)).
Proof.
  unfold provider_works, sha256_body.
  destruct (NT_SUCCESS (bcrypt_status o OpenAlgorithmProvider)) eqn:E1; cbn [negb andb].
  2: { split; [discriminate|]. intros _. eauto. }
  assert (Hcmp : negb (NT_SUCCESS (if bcrypt_status o OpenAlgorithmProvider
                                      =? bcrypt_status o GetProperty_ObjectLength
                                   then 1 else 0)) = false)
    by (destruct (_ =? _); reflexivity).
  rewrite Hcmp.
  destruct (heap_exhausted o); cbn [negb andb].
  1: { split; [discriminate|]. intros _. eexists _, _. split; [|reflexivity]. reflexivity. }
  destruct (NT_SUCCESS (bcrypt_status o GetProperty_HashLength)) eqn:E2; cbn [negb andb].
  2: { split; [discriminate|]. intros _. eauto. }
  destruct (NT_SUCCESS (bcrypt_status o CreateHash)) eqn:E3; cbn [negb andb].
  2: { split; [discriminate|]. intros _. eauto. }
  destruct (NT_SUCCESS (bcrypt_status o HashData)) eqn:E4; cbn [negb andb].
  2: { split; [discriminate|]. intros _. eauto. }
  destruct (NT_SUCCESS (bcrypt_status o FinishHash)) eqn:E5; cbn [negb andb].
  2: { split; [discriminate|]. intros _. eauto. }
  split; [|discriminate]. intros _. eauto.
Qed.

(** X3. [sha256] returns the hexadecimal digest exactly when opening the
    provider, both allocations, the hash-length query and the three hash
    calls succeed, and throws a [runtime_error] otherwise; it leaves the
    world alone in both cases.  The status of the object-length query
    plays no part: the source compares it with [status] instead of
    storing it, so a failure of that call goes unnoticed. *)
Theorem sha256_outcome (input : string) (w : World) :
  let data := firstn (Z.to_nat (to_DWORD (Z.of_nat (String.length input))))
                     (list_byte_of_string input) in
  (provider_works (oracle w) = true ->
   sha256 input w = (inr (hex_of_bytes (bcrypt_digest (oracle w) data)), w))
  /\ (provider_works (oracle w) = false ->
      exists what, sha256 input w = (inl (runtime_error what), w)).
Proof.
  intros data. unfold sha256, sha256_data. fold data.
  destruct (sha256_body_outcome (oracle w) data) as [Hok Hbad].
  split; intros Hp.
  - destruct (Hok Hp) as (status & Hs & ->).
    unfold bind, throw_if, ret. rewrite Hs. reflexivity.
  - destruct (Hbad Hp) as (status & errorString & Hs & ->).
    unfold bind, throw_if, throw. rewrite Hs. cbn [negb]. eexists. reflexivity.
Qed.

(** X4. Two keys are given the same file name only when the provider
    returns the same digest for them. *)
Theorem same_file_name_same_digest (w w1 w2 : World) (id1 id2 filename : string) :
  get_file_name id1 w = (inr filename, w1) ->
  get_file_name id2 w = (inr filename, w2) ->
  let data id := firstn (Z.to_nat (to_DWORD (Z.of_nat (String.length id))))
                        (list_byte_of_string id) in
  bcrypt_digest (oracle w) (data id1) = bcrypt_digest (oracle w) (data id2).
Proof.
  intros H1 H2 data.
  assert (Hname : forall id f w',
             get_file_name id w = (inr f, w') ->
             f = full_name (g_cache_dirname w)
                   (hex_of_bytes (bcrypt_digest (oracle w) (data id)))).
  { intros id f w'. unfold get_file_name, sha256, sha256_data, bind at 1.
    fold (data id).
    destruct (sha256_body (oracle w) (data id)) as [[status errorString] retval] eqn:E.
    unfold bind, throw_if, throw, ret.
    destruct (NT_SUCCESS status) eqn:Hs; cbn [negb]; [|discriminate].
    intros [= <- _]. rewrite (sha256_body_success _ _ _ _ _ E Hs). reflexivity. }
  apply Hname in H1, H2. rewrite H1 in H2.
  apply full_name_inj in H2. apply (f_equal bytes_of_hex) in H2.
  rewrite !bytes_of_hex_of_bytes in H2. injection H2 as H2. exact H2.
Qed.

(** ** Resolving the directory once *)

(** What directory resolution leaves alone. *)
Definition same_store (w w' : World) : Prop :=
  init_flag w' = init_flag w
  /\ files w' = files w
  /\ now w' = now w
  /\ oracle w' = oracle w
  /\ open_faults w' = open_faults w
  /\ env_vars w' = env_vars w.

Lemma read_configuration_frame w :
  same_store w (snd (read_configuration w))
  /\ g_cache_dirname (snd (read_configuration w)) = g_cache_dirname w
  /\ dirs (snd (read_configuration w)) = dirs w.
Proof.
  unfold read_configuration, bind, new_TCHAR, GetEnvironmentVariable, bind, log,
    modify, ret. world_simpl.
  destruct (env_lookup "LOCALAPPDATA" (env_vars w)); world_simpl;
    destruct (env_lookup "AZDCAP_CACHE" (env_vars w)); repeat split.
Qed.

Lemma resolve_with_frame base w :
  same_store w (snd (resolve_with base w))
  /\ (forall e, fst (resolve_with base w) = inl e ->
                g_cache_dirname (snd (resolve_with base w)) = g_cache_dirname w).
Proof.
  unfold resolve_with, make_dir, CreateDirectory, GetLastError, throw_if, throw,
    bind, log, modify, ret. world_simpl.
  destruct (existsb _ _); world_simpl;
    [|destruct (mkdir_fault (oracle w) (base ++ application_name) =? 0); world_simpl];
    match goal with |- context [if ?c then _ else _] => destruct c end;
    world_simpl; (split; [repeat split | intros e He; try discriminate He; reflexivity]).
Qed.

Lemma init_callback_frame w :
  same_store w (snd (init_callback w))
  /\ (forall e, fst (init_callback w) = inl e ->
                g_cache_dirname (snd (init_callback w)) = g_cache_dirname w).
Proof.
  rewrite init_callback_unfold.
  destruct (read_configuration_frame w) as ((c1 & c2 & c3 & c4 & c5 & c6) & Hdn & _).
  destruct (read_configuration w) as [[e|[env_home env_azdcap_cache]] w1];
    world_simpl; [split; [repeat split; assumption | intros; assumption]|].
  assert (Hres : forall base,
             same_store w (snd (resolve_with base w1))
             /\ (forall e, fst (resolve_with base w1) = inl e ->
                           g_cache_dirname (snd (resolve_with base w1))
                           = g_cache_dirname w)).
  { intros base.
    destruct (resolve_with_frame base w1) as ((d1 & d2 & d3 & d4 & d5 & d6) & Hd).
    split; [repeat split; congruence|]. intros e He. rewrite (Hd e He). exact Hdn. }
  destruct (c_str_nonempty env_home); [apply Hres|].
  destruct (c_str_nonempty env_azdcap_cache); [apply Hres|].
  world_simpl. split; [repeat split; assumption | intros; assumption].
Qed.

(** X5. [init] behaves as [std::call_once] does.  After a call that
    returned, further calls change nothing.  A call whose callback threw
    leaves the flag unset and [g_cache_dirname] as it was, so the next
    call runs the callback again.  No call touches a file. *)
Theorem init_runs_once (w : World) :
  (forall w0, init w = (inr tt, w0) -> init w0 = (inr tt, w0))
  /\ (forall e w', init w = (inl e, w') ->
        init_flag w' = false
        /\ g_cache_dirname w' = g_cache_dirname w
        /\ init w' = (init_callback ;; modify (set_init_flag true)) w')
  /\ files (snd (init w)) = files w.
Proof.
  pose proof (init_callback_frame w) as Hframe.
  split; [|split].
  - intros w0 H. apply init_once. apply (init_sets_flag w). exact H.
  - intros e w'. unfold init. destruct (init_flag w) eqn:Hf; [discriminate|].
    unfold bind at 1. destruct (init_callback w) as [[e'|[]] w1] eqn:Hcb;
      [|unfold modify; discriminate].
    intros [= <- <-]. world_simpl.
    destruct Hframe as ((Hflag & _) & Hdn).
    rewrite Hflag, Hf. repeat split. apply (Hdn e'). reflexivity.
  - unfold init. destruct (init_flag w); [reflexivity|].
    unfold bind, modify. destruct Hframe as ((_ & Hfiles & _) & _).
    destruct (init_callback w) as [[e|[]] w1]; world_simpl; exact Hfiles.
Qed.

(** X6. When the last-error value of the thread is already
    [ERROR_PATH_NOT_FOUND], [make_dir] throws even though the directory
    was created: a successful [CreateDirectory] does not reset the value
    that [make_dir] goes on to test. *)
Theorem make_dir_stale_error (w : World) (dirname : string) :
  last_error w = ERROR_PATH_NOT_FOUND ->
  existsb (String.eqb dirname) (dirs w) = false ->
  mkdir_fault (oracle w) dirname = 0 ->
  fst (CreateDirectory dirname w) = inr true
  /\ fst (make_dir dirname w) = inl (runtime_error "Path not found")
  /\ In dirname (dirs (snd (make_dir dirname w))).
Proof.
  intros Herr Hnew Hok.
  unfold make_dir, CreateDirectory, GetLastError, throw_if, throw, bind, log, modify, ret.
  world_simpl. rewrite Hnew, Hok. cbn [Z.eqb]. world_simpl. rewrite Herr.
  cbn [Z.eqb andb negb]. world_simpl.
  repeat split. apply in_or_app. right. left. reflexivity.
Qed.

(** ** More on the opener *)

Section OpenerMore.

Variables (name : string) (access : Access) (share : Z) (disp : Disposition).

Definition slept_ms (w : World) : Z :=
  fold_right (fun e acc => match e with EvSleep ms => ms + acc | _ => acc end) 0 (trace w).

(** The result of a whole [OpenHandle] is the result of its last round,
    reached through rounds that were answered with a sharing violation. *)
Lemma OpenHandle_rounds w :
  exists n,
    (n < Z.to_nat MAX_RETRY)%nat
    /\ (OpenHandle name access share disp w
        = open_attempt name access share disp
            (Nat.iter n (busy_round name access disp) w)
        \/ (S n = Z.to_nat MAX_RETRY
            /\ OpenHandle name access share disp w
               = (inr None, Nat.iter (S n) (busy_round name access disp) w))).
Proof.
  unfold OpenHandle.
  destruct (OpenHandle_loop_spec name access share disp (Z.to_nat MAX_RETRY) 0 w)
    as [Hlt Hge]; [unfold MAX_RETRY; lia | unfold MAX_RETRY; lia |].
  rewrite Z.sub_0_r in Hlt, Hge.
  destruct (Nat.lt_ge_cases (leading_busy (open_faults w)) (Z.to_nat MAX_RETRY))
    as [Hk | Hk].
  - exists (leading_busy (open_faults w)). split; [exact Hk|]. left. exact (Hlt Hk).
  - exists (Z.to_nat (MAX_RETRY - 1)). split; [unfold MAX_RETRY; lia|]. right.
    assert (E : S (Z.to_nat (MAX_RETRY - 1)) = Z.to_nat MAX_RETRY)
      by (unfold MAX_RETRY; lia).
    split; [exact E|]. rewrite E. exact (Hge Hk).
Qed.

Lemma slept_busy_round w :
  slept_ms (busy_round name access disp w) = SLEEP_RETRY_MS + slept_ms w.
Proof. reflexivity. Qed.

Lemma slept_busy_rounds n w :
  slept_ms (Nat.iter n (busy_round name access disp) w)
  = SLEEP_RETRY_MS * Z.of_nat n + slept_ms w.
Proof.
  induction n as [|n IH]; [cbn [Nat.iter nat_rect]; lia|].
  rewrite Nat.iter_succ, slept_busy_round, IH. lia.
Qed.

Lemma open_attempt_frame w :
  let r := open_attempt name access share disp w in
  slept_ms (snd r) = SLEEP_RETRY_MS + slept_ms w
  /\ (files (snd r) = files w \/ files (snd r) = file_store name [] (files w))
  /\ (disp = OPEN_EXISTING -> files (snd r) = files w)
  /\ dirs (snd r) = dirs w
  /\ oracle (snd r) = oracle w
  /\ now (snd r) = now w
  /\ init_flag (snd r) = init_flag w
  /\ g_cache_dirname (snd r) = g_cache_dirname w
  /\ exists file, fst r = inr file
       /\ (file = None \/ file = Some (mkHandle name 0))
       /\ (disp = OPEN_EXISTING -> file_lookup name (files w) = None -> file = None)
       /\ (file <> None -> disp = OPEN_EXISTING -> last_error (snd r) = 0).
Proof.
  unfold open_attempt, CreateFile, CreateFile_honest, Sleep, log, modify, bind, ret,
    slept_ms.
  world_simpl.
  destruct (open_faults w) as [|e rest]; [|destruct (e =? 0)]; world_simpl;
    try (destruct (parent_exists name (dirs w)); cbn [negb]; world_simpl;
         [destruct disp, (file_lookup name (files w)); world_simpl|]);
    cbn [fold_right];
    (split; [reflexivity|]);
    (split; [auto|]);
    (split; [intros; try discriminate; reflexivity|]);
    repeat (split; [reflexivity|]);
    (eexists; split; [reflexivity|]);
    (split; [auto|]);
    (split; [intros; try discriminate; reflexivity|]);
    intros; try discriminate; try reflexivity; try contradiction.
Qed.

Lemma busy_rounds_frame n w :
  let w' := Nat.iter n (busy_round name access disp) w in
  files w' = files w /\ dirs w' = dirs w /\ oracle w' = oracle w /\ now w' = now w
  /\ init_flag w' = init_flag w /\ g_cache_dirname w' = g_cache_dirname w.
Proof.
  destruct (busy_rounds_same_machine name access disp n w)
    as (a1 & a2 & a3 & a4 & a5 & a6 & a7).
  repeat split; assumption.
Qed.

(** What [OpenHandle] can do to the world, whatever the environment
    answers. *)
Lemma OpenHandle_frame w :
  let r := OpenHandle name access share disp w in
  (files (snd r) = files w \/ files (snd r) = file_store name [] (files w))
  /\ (disp = OPEN_EXISTING -> files (snd r) = files w)
  /\ dirs (snd r) = dirs w
  /\ oracle (snd r) = oracle w
  /\ now (snd r) = now w
  /\ init_flag (snd r) = init_flag w
  /\ g_cache_dirname (snd r) = g_cache_dirname w
  /\ exists file, fst r = inr file
       /\ (file = None \/ file = Some (mkHandle name 0))
       /\ (disp = OPEN_EXISTING -> file_lookup name (files w) = None -> file = None)
       /\ (file <> None -> disp = OPEN_EXISTING -> last_error (snd r) = 0).
Proof.
  intros r. subst r.
  destruct (OpenHandle_rounds w) as (n & Hn & [-> | [HS ->]]).
  - destruct (busy_rounds_frame n w) as (b1 & b2 & b3 & b4 & b5 & b6).
    destruct (open_attempt_frame (Nat.iter n (busy_round name access disp) w))
      as (_ & c1 & c2 & c3 & c4 & c5 & c6 & c7 & file & Hf & c8 & c9 & c10).
    rewrite b1 in c1, c2, c9.
    split; [exact c1|]. split; [exact c2|].
    repeat (split; [congruence|]).
    exists file. auto.
  - destruct (busy_rounds_frame (S n) w) as (b1 & b2 & b3 & b4 & b5 & b6).
    cbn [fst snd].
    split; [auto|]. split; [auto|]. repeat (split; [assumption|]).
    exists None. repeat split; auto. intros H. contradiction.
Qed.

(** X7. [OpenHandle] sleeps 15 ms after every open call, the last one
    included, so even an open that succeeds at once costs 15 ms; in all it
    sleeps 15 ms times the number of calls, at most 150 seconds. *)
Theorem OpenHandle_sleep_budget (w : World) :
  let r := OpenHandle name access share disp w in
  slept_ms (snd r) - slept_ms w
  = SLEEP_RETRY_MS * (Z.of_nat (open_calls (snd r)) - Z.of_nat (open_calls w))
  /\ SLEEP_RETRY_MS <= slept_ms (snd r) - slept_ms w <= SLEEP_RETRY_MS * MAX_RETRY.
Proof.
  intros r. subst r.
  destruct (OpenHandle_rounds w) as (n & Hn & [-> | [HS ->]]).
  - destruct (open_attempt_frame (Nat.iter n (busy_round name access disp) w))
      as (Hs & _).
    destruct (open_attempt_cases name access share disp
                (Nat.iter n (busy_round name access disp) w))
      as (f & w1 & Hatt & Hc & _).
    rewrite Hatt in *. cbn [snd] in *.
    rewrite Hs, Hc, slept_busy_rounds, open_calls_busy_rounds.
    unfold SLEEP_RETRY_MS, MAX_RETRY in *. lia.
  - cbn [snd]. rewrite slept_busy_rounds, open_calls_busy_rounds.
    unfold SLEEP_RETRY_MS, MAX_RETRY in *. lia.
Qed.

Lemma open_attempt_ignores_last_error e w :
  open_attempt name access share disp (set_last_error e w)
  = open_attempt name access share disp w.
Proof.
  unfold open_attempt, CreateFile, CreateFile_honest, Sleep, log, modify, bind, ret.
  world_simpl.
  destruct (open_faults w) as [|e' rest]; [|destruct (e' =? 0)]; world_simpl;
    try reflexivity;
    (destruct (parent_exists name (dirs w)); cbn [negb]; world_simpl;
     [destruct disp, (file_lookup name (files w)); reflexivity | reflexivity]).
Qed.

Lemma OpenHandle_ignores_last_error e w :
  OpenHandle name access share disp (set_last_error e w)
  = OpenHandle name access share disp w.
Proof.
  unfold OpenHandle.
  assert (E : Z.to_nat MAX_RETRY = S (Z.to_nat (MAX_RETRY - 1)))
    by (unfold MAX_RETRY; lia).
  rewrite E, !OpenHandle_loop_unfold, open_attempt_ignores_last_error. reflexivity.
Qed.

End OpenerMore.

(** ** What reading and writing an entry can change *)

Definition close_calls (w : World) : nat :=
  List.length (filter (fun e => match e with EvCloseHandle _ => true | _ => false end)
                      (trace w)).

Ltac split_ifs :=
  repeat (match goal with
          | |- context [if ?c then _ else _] => destruct c
          | |- context [match file_lookup ?p ?fs with _ => _ end] =>
              destruct (file_lookup p fs)
          end; world_simpl; cbn [negb]).

(** [read_entry] never writes: it leaves the files as they are or removes
    the entry file.  It closes the handle once on every way out but one:
    when the vector cannot be made, the exception leaves with the handle
    still open. *)
Lemma read_entry_effects filename file w :
  let r := read_entry filename file w in
  (files (snd r) = files w \/ files (snd r) = file_remove filename (files w))
  /\ (forall data, fst r = inr (Some data) -> files (snd r) = files w)
  /\ close_calls (snd r)
     = (close_calls w + match fst r with
                        | inl (length_error _) => 0
                        | _ => 1
                        end)%nat.
Proof.
  unfold read_entry, ReadFile, GetLastError, throw_if_file, time, CloseHandle,
    DeleteFileW, GetFileSize, make_vector, throw, bind, log, modify, ret, close_calls.
  world_simpl. cbn [h_path h_pos].
  split_ifs; cbn [filter List.length];
    (split; [auto|]); (split; [intros; try discriminate; reflexivity|]); lia.
Qed.

Lemma write_entry_effects file hdr data_size data w :
  let r := write_entry file hdr data_size data w in
  (forall p, p <> h_path file ->
             file_lookup p (files (snd r)) = file_lookup p (files w))
  /\ (exists pos,
        hd_error (trace (snd r)) = Some (EvCloseHandle (Some (mkHandle (h_path file) pos))))
  /\ close_calls (snd r) = S (close_calls w)
  /\ dirs (snd r) = dirs w.
Proof.
  destruct file as [path pos0].
  unfold write_entry, WriteFile, throw_if_file, CloseHandle, throw, bind, log, modify, ret,
    close_calls.
  world_simpl. cbn [h_path h_pos].
  split_ifs; cbn [h_path h_pos]; world_simpl;
    (split; [intros p Hp; rewrite ?file_lookup_store_other by (apply not_eq_sym; exact Hp);
             reflexivity|]);
    (split; [eexists; reflexivity | split; reflexivity]).
Qed.

Section Operations.

Variables (w w0 : World) (id filename : string).

Hypothesis key_not_empty : id <> EmptyString.
Hypothesis directory_resolved : init w = (inr tt, w0).
Hypothesis name_found : get_file_name id w0 = (inr filename, w0).

Lemma files_after_init : files w0 = files w.
Proof.
  unfold init in directory_resolved. destruct (init_flag w).
  - injection directory_resolved as <-. reflexivity.
  - unfold bind, modify in directory_resolved.
    destruct (init_callback_frame w) as ((_ & Hfiles & _) & _).
    destruct (init_callback w) as [[e|[]] w1]; [discriminate|].
    injection directory_resolved as <-. exact Hfiles.
Qed.

Lemma local_cache_get_effects :
  let r := local_cache_get id w in
  (forall p, p <> filename ->
             file_lookup p (files (snd r)) = file_lookup p (files w))
  /\ (file_lookup filename (files (snd r)) = file_lookup filename (files w)
      \/ file_lookup filename (files (snd r)) = None)
  /\ (forall data, fst r = inr (Some data) -> files (snd r) = files w)
  /\ (file_lookup filename (files w) = None ->
      fst r = inr None /\ files (snd r) = files w).
Proof.
  intros r. subst r.
  destruct (OpenHandle_frame filename GENERIC_READ FILE_SHARE_READ OPEN_EXISTING w0)
    as (_ & Hfiles & _ & _ & _ & _ & _ & file & Hfile & Hhandle & Habsent & _).
  specialize (Hfiles eq_refl). specialize (Habsent eq_refl).
  destruct (OpenHandle filename GENERIC_READ FILE_SHARE_READ OPEN_EXISTING w0)
    as [res w2] eqn:Hopen.
  cbn [fst snd] in *. subst res.
  rewrite (local_cache_get_unfold id w w0 filename w0 file w2
             key_not_empty directory_resolved name_found Hopen).
  rewrite <- files_after_init, <- Hfiles.
  destruct Hhandle as [-> | ->].
  - cbn [fst snd]. repeat split; auto; intros; discriminate.
  - destruct (read_entry_effects filename (mkHandle filename 0) w2) as (Hfs & Hsome & _).
    split; [|split; [|split]].
    + intros p Hp. destruct Hfs as [-> | ->]; [reflexivity|].
      apply file_lookup_remove_other. apply not_eq_sym. exact Hp.
    + destruct Hfs as [-> | ->]; [left; reflexivity|]. right.
      apply file_lookup_remove_same.
    + exact Hsome.
    + intros Hnone. rewrite Hfiles in Hnone. specialize (Habsent Hnone).
      discriminate Habsent.
Qed.

(** X8. A key whose entry file does not exist is a miss: whatever
    happens at the open, [local_cache_get] returns not-found, throws
    nothing and leaves every file as it is. *)
Theorem get_missing_entry :
  file_lookup filename (files w) = None ->
  fst (local_cache_get id w) = inr None
  /\ files (snd (local_cache_get id w)) = files w.
Proof.
  intros Hnone. destruct local_cache_get_effects as (_ & _ & _ & H). exact (H Hnone).
Qed.

(** X9. [local_cache_get] never writes.  The files of other keys are as
    they were; the entry file of its own key is either as it was or gone;
    and when the call returns a payload it has changed no file at all. *)
Theorem get_never_writes :
  let r := local_cache_get id w in
  (forall p, p <> filename ->
             file_lookup p (files (snd r)) = file_lookup p (files w))
  /\ (file_lookup filename (files (snd r)) = file_lookup filename (files w)
      \/ file_lookup filename (files (snd r)) = None)
  /\ (forall data, fst r = inr (Some data) -> files (snd r) = files w).
Proof.
  destruct local_cache_get_effects as (H1 & H2 & H3 & _). auto.
Qed.

Variables (expires data_size : Z) (data : list byte).

Hypothesis size_not_zero : data_size <> 0.

Lemma local_cache_add_effects :
  let r := local_cache_add id expires data_size (Some data) w in
  let opened := OpenHandle filename GENERIC_WRITE FILE_SHARE_NONE CREATE_ALWAYS w0 in
  (forall p, p <> filename ->
             file_lookup p (files (snd r)) = file_lookup p (files w))
  /\ (fst opened = inr None ->
      fst r = inl (runtime_error "Create file failed")
      /\ hd_error (trace (snd r)) = Some (EvCloseHandle None))
  /\ (fst opened <> inr None ->
      exists pos,
        hd_error (trace (snd r)) = Some (EvCloseHandle (Some (mkHandle filename pos))))
  /\ close_calls (snd r) = S (close_calls (snd opened))
  /\ dirs (snd r) = dirs w0.
Proof.
  intros r opened. subst r opened.
  destruct (OpenHandle_frame filename GENERIC_WRITE FILE_SHARE_NONE CREATE_ALWAYS w0)
    as (Hfiles & _ & Hdirs & _ & _ & _ & _ & file & Hfile & Hhandle & _).
  destruct (OpenHandle filename GENERIC_WRITE FILE_SHARE_NONE CREATE_ALWAYS w0)
    as [res w2] eqn:Hopen.
  cbn [fst snd] in *. subst res.
  rewrite (local_cache_add_unfold id expires data_size data w w0 filename w0 file w2
             key_not_empty size_not_zero directory_resolved name_found Hopen).
  assert (Hopened : forall p, p <> filename ->
                              file_lookup p (files w2) = file_lookup p (files w)).
  { intros p Hp. rewrite <- files_after_init.
    destruct Hfiles as [-> | ->]; [reflexivity|].
    apply file_lookup_store_other. apply not_eq_sym. exact Hp. }
  destruct Hhandle as [-> | ->].
  - unfold throw_if_file, CloseHandle, throw, bind, log, modify, close_calls. world_simpl.
    split; [exact Hopened|]. split; [intros _; split; reflexivity|].
    split; [intros Hne; contradiction|]. split; [reflexivity | exact Hdirs].
  - destruct (write_entry_effects (mkHandle filename 0)
                {| version := CACHE_V1; expiry := expires |} data_size data w2)
      as (Hkept & (pos & Hclose) & Hcount & Hd).
    split; [|split; [|split; [|split]]].
    + intros p Hp. rewrite (Hkept p Hp). apply Hopened. exact Hp.
    + intros Hnone. discriminate Hnone.
    + intros _. exists pos. exact Hclose.
    + exact Hcount.
    + rewrite Hd. exact Hdirs.
Qed.

(** X10. [local_cache_add] changes no file but the entry file of its own
    key, whether it returns or throws. *)
Theorem add_touches_only_its_entry :
  forall p, p <> filename ->
    file_lookup p (files (snd (local_cache_add id expires data_size (Some data) w)))
    = file_lookup p (files w).
Proof.
  destruct local_cache_add_effects as (H & _). exact H.
Qed.

(** X11. Once [local_cache_add] has reached the open, it calls
    [CloseHandle] exactly once, as its last call, on every way out: on
    the handle it opened on the entry file after both writes, after a
    failed header write and after a failed data write; and, with the
    error "Create file failed", on the invalid handle after a failed
    open. *)
Theorem add_always_closes :
  let r := local_cache_add id expires data_size (Some data) w in
  let opened := OpenHandle filename GENERIC_WRITE FILE_SHARE_NONE CREATE_ALWAYS w0 in
  (fst opened = inr None ->
   fst r = inl (runtime_error "Create file failed")
   /\ hd_error (trace (snd r)) = Some (EvCloseHandle None))
  /\ (fst opened <> inr None ->
      exists pos,
        hd_error (trace (snd r)) = Some (EvCloseHandle (Some (mkHandle filename pos))))
  /\ close_calls (snd r) = S (close_calls (snd opened)).
Proof.
  destruct local_cache_add_effects as (_ & Hfailed & Hopened & Hcount & _). auto.
Qed.

End Operations.


(** ** The last-error value on entry *)

(** The hasher as a function of the provider alone. *)
Definition sha256_result (o : Oracle) (input : string) : exn + string :=
  let '(status, errorString, retval) :=
    sha256_body o (firstn (Z.to_nat (to_DWORD (Z.of_nat (String.length input))))
                          (list_byte_of_string input)) in
  if negb (NT_SUCCESS status) then inl (runtime_error errorString) else inr retval.

Lemma get_file_name_pure id w :
  get_file_name id w
  = (match sha256_result (oracle w) id with
     | inl e => inl e
     | inr name => inr (g_cache_dirname w ++ "\" ++ name)%string
     end, w).
Proof.
  unfold get_file_name, sha256, sha256_data, sha256_result, bind.
  destruct (sha256_body _ _) as [[status errorString] retval].
  unfold throw_if, throw, ret. destruct (negb (NT_SUCCESS status)); reflexivity.
Qed.

Lemma get_file_name_ignores_last_error id e w :
  get_file_name id w = (fst (get_file_name id w), w)
  /\ get_file_name id (set_last_error e w)
     = (fst (get_file_name id w), set_last_error e w).
Proof.
  rewrite !get_file_name_pure. world_simpl. split; reflexivity.
Qed.

(** The two operations on a world whose directory is resolved. *)
Definition opened_for (id : string) (access : Access) (share : Z) (disp : Disposition)
  (w : World) : (exn + (string * option HANDLE)) * World :=
  match sha256_result (oracle w) id with
  | inl e => (inl e, w)
  | inr name =>
      let filename := (g_cache_dirname w ++ "\" ++ name)%string in
      match OpenHandle filename access share disp w with
      | (inl e, w2) => (inl e, w2)
      | (inr file, w2) => (inr (filename, file), w2)
      end
  end.

Lemma local_cache_get_ready id w :
  init_flag w = true ->
  local_cache_get id w
  = if string_empty id
    then (inl (runtime_error "The 'id' parameter must not be empty."), w)
    else match opened_for id GENERIC_READ FILE_SHARE_READ OPEN_EXISTING w with
         | (inl e, w2) => (inl e, w2)
         | (inr (filename, None), w2) => (inr None, w2)
         | (inr (filename, Some file), w2) => read_entry filename file w2
         end.
Proof.
  intros Hflag. unfold local_cache_get, opened_for, bind, throw_if, throw, ret.
  destruct (string_empty id); [reflexivity|].
  rewrite (init_once w Hflag), get_file_name_pure.
  destruct (sha256_result (oracle w) id) as [e|name]; [reflexivity|].
  destruct (OpenHandle _ _ _ _ w) as [[e|[file|]] w2]; reflexivity.
Qed.

Lemma local_cache_add_ready id expires data_size data w :
  init_flag w = true ->
  local_cache_add id expires data_size (Some data) w
  = if string_empty id
    then (inl (runtime_error "The 'id' parameter must not be empty."), w)
    else if data_size =? 0 then (inl (runtime_error "Data cannot be empty."), w)
    else match opened_for id GENERIC_WRITE FILE_SHARE_NONE CREATE_ALWAYS w with
         | (inl e, w2) => (inl e, w2)
         | (inr (filename, None), w2) => throw_if_file true "Create file failed" None w2
         | (inr (filename, Some file), w2) =>
             write_entry file {| version := CACHE_V1; expiry := expires |}
                         data_size data w2
         end.
Proof.
  intros Hflag. unfold local_cache_add, opened_for, bind, throw_if, throw, ret.
  destruct (string_empty id); [reflexivity|].
  destruct (data_size =? 0); [reflexivity|].
  rewrite (init_once w Hflag), get_file_name_pure.
  destruct (sha256_result (oracle w) id) as [e|name]; [reflexivity|].
  destruct (OpenHandle _ _ _ _ w) as [[e|[file|]] w2]; reflexivity.
Qed.

Lemma opened_for_ignores_last_error id access share disp e w :
  fst (opened_for id access share disp (set_last_error e w))
  = fst (opened_for id access share disp w)
  /\ (forall r, fst (opened_for id access share disp w) = inr r ->
                opened_for id access share disp (set_last_error e w)
                = opened_for id access share disp w)
  /\ files (snd (opened_for id access share disp (set_last_error e w)))
     = files (snd (opened_for id access share disp w)).
Proof.
  unfold opened_for. world_simpl.
  destruct (sha256_result (oracle w) id) as [err|name];
    [repeat split; intros; discriminate|].
  rewrite OpenHandle_ignores_last_error.
  destruct (OpenHandle _ _ _ _ w) as [[err|file] w2]; repeat split.
Qed.

(** X13. Once the directory is resolved, what the thread's last-error
    value was on entry makes no difference to [local_cache_get] and
    [local_cache_add]: every value they test was set by a call of their
    own ([CreateFile] sets it on success as on failure). *)
Theorem last_error_on_entry_is_irrelevant (w : World) (e : Z) :
  init_flag w = true ->
  (forall id,
      fst (local_cache_get id (set_last_error e w)) = fst (local_cache_get id w)
      /\ files (snd (local_cache_get id (set_last_error e w)))
         = files (snd (local_cache_get id w)))
  /\ (forall id expires data_size data,
        fst (local_cache_add id expires data_size data (set_last_error e w))
        = fst (local_cache_add id expires data_size data w)
        /\ files (snd (local_cache_add id expires data_size data (set_last_error e w)))
           = files (snd (local_cache_add id expires data_size data w))).
Proof.
  intros Hflag.
  assert (Hflag' : init_flag (set_last_error e w) = true) by exact Hflag.
  split.
  - intros id. rewrite !local_cache_get_ready by assumption.
    destruct (string_empty id); [split; reflexivity|].
    destruct (opened_for_ignores_last_error id GENERIC_READ FILE_SHARE_READ
                OPEN_EXISTING e w) as (Hfst & Hsame & Hfiles).
    destruct (opened_for id GENERIC_READ FILE_SHARE_READ OPEN_EXISTING w)
      as [[err|r] w2] eqn:E.
    + destruct (opened_for id GENERIC_READ FILE_SHARE_READ OPEN_EXISTING
                  (set_last_error e w)) as [res w3].
      cbn [fst snd] in *. subst res. split; [reflexivity | exact Hfiles].
    + rewrite (Hsame r eq_refl). split; reflexivity.
  - intros id expires data_size [data|].
    2: { unfold local_cache_add, bind, throw_if, throw, ret.
         destruct (string_empty id), (data_size =? 0); split; reflexivity. }
    rewrite !local_cache_add_ready by assumption.
    destruct (string_empty id); [split; reflexivity|].
    destruct (data_size =? 0); [split; reflexivity|].
    destruct (opened_for_ignores_last_error id GENERIC_WRITE FILE_SHARE_NONE
                CREATE_ALWAYS e w) as (Hfst & Hsame & Hfiles).
    destruct (opened_for id GENERIC_WRITE FILE_SHARE_NONE CREATE_ALWAYS w)
      as [[err|r] w2] eqn:E.
    + destruct (opened_for id GENERIC_WRITE FILE_SHARE_NONE CREATE_ALWAYS
                  (set_last_error e w)) as [res w3].
      cbn [fst snd] in *. subst res. split; [reflexivity | exact Hfiles].
    + rewrite (Hsame r eq_refl). split; reflexivity.
Qed.

(** ** The entry codec *)

(** X14. A header written as bytes and read back is the same header, for
    every version that fits 16 bits and every expiry that fits [time_t],
    negative ones included; it takes 16 bytes. *)
Theorem header_round_trip (h : CacheEntryHeaderV1) :
  0 <= version h < 2 ^ 16 ->
  in_time_t (expiry h) ->
  header_of_bytes (header_bytes h) = h
  /\ List.length (header_bytes h) = 16%nat.
Proof.
  intros Hv He. split; [|apply header_bytes_length].
  rewrite header_of_header_bytes, to_time_t_of_range by exact He.
  unfold wrap. rewrite Z.mod_small by exact Hv. destruct h; reflexivity.
Qed.


Section QuietMachine.

Variables (w w0 : World) (id filename : string).

Hypothesis key_not_empty : id <> EmptyString.
Hypothesis directory_resolved : init w = (inr tt, w0).
Hypothesis directory_exists : In (g_cache_dirname w0) (dirs w0).
Hypothesis name_found : get_file_name id w0 = (inr filename, w0).
Hypothesis no_contention : open_faults w0 = [].
Hypothesis reads_work : forall pos, read_fault (oracle w0) filename pos = 0.



Variables (expires : Z) (payload : list byte).

Hypothesis payload_not_empty : payload <> [].
Hypothesis expiry_is_time_t : in_time_t expires.

Let data_size : Z := Z.of_nat (List.length payload).
Let header : CacheEntryHeaderV1 := {| version := CACHE_V1; expiry := expires |}.

Lemma quiet_size_not_zero : data_size <> 0.
Proof.
  subst data_size. destruct payload; [contradiction | cbn [List.length]; lia].
Qed.


Hypothesis payload_fits : Z.of_nat (List.length payload) < 2 ^ 31.
Hypothesis writes_work : forall pos, write_fault (oracle w0) filename pos = 0.

Lemma quiet_whole_payload : firstn (Z.to_nat (to_DWORD data_size)) payload = payload.
Proof.
  apply firstn_all2. unfold to_DWORD, wrap.
  rewrite Z.mod_small by (subst data_size; lia). subst data_size. lia.
Qed.

(** X17. Adding an entry with an expiry at or before the time the next
    get reads makes that get a miss, and the get deletes the entry file
    that the add wrote. *)
Theorem add_expired_then_get :
  delete_fault (oracle w0) filename = 0 ->
  exists w1,
    local_cache_add id expires data_size (Some payload) w = (inr tt, w1)
    /\ file_lookup filename (files w1) <> None
    /\ forall t, expires <= t ->
         fst (local_cache_get id (set_now t w1)) = inr None
         /\ file_lookup filename (files (snd (local_cache_get id (set_now t w1)))) = None.
Proof.
  intros Hdel.
  destruct (local_cache_add_quiet id expires data_size payload w w0 filename
              key_not_empty quiet_size_not_zero directory_resolved name_found
              directory_exists no_contention writes_work)
    as (w1 & Hadd & Hlook & Hflag & Hdn & Hds & Ho & Hq & Hnow).
  rewrite quiet_whole_payload in Hlook. fold header in Hlook.
  exists w1. split; [exact Hadd|]. split; [rewrite Hlook; discriminate|].
  intros t Ht. set (w1' := set_now t w1).
  assert (Hname : get_file_name id w1' = (inr filename, w1'))
    by (apply (get_file_name_frame id w0); assumption).
  destruct (local_cache_get_quiet id w1' filename _ key_not_empty Hflag Hname
              ltac:(subst w1'; world_simpl; rewrite Hdn, Hds; exact directory_exists)
              Hq Hlook)
    as (w3 & Hget & Herr & Hfs3 & Ho3 & Hnow3).
  rewrite Hget.
  destruct (read_entry_expired filename (header_bytes header ++ payload) w3)
    as (Hr & _ & Hfs).
  - rewrite Hfs3. exact Hlook.
  - exact Herr.
  - rewrite Ho3. subst w1'. world_simpl. rewrite Ho. apply reads_work.
  - rewrite stored_expiry_written, Hnow3. subst w1'. world_simpl.
    cbn [expiry header]. rewrite to_time_t_of_range by exact expiry_is_time_t. exact Ht.
  - split; [exact Hr|]. rewrite Hfs, Ho3. subst w1'. world_simpl. rewrite Ho, Hdel.
    cbn [Z.eqb]. apply file_lookup_remove_same.
Qed.

Variables (expires' : Z) (payload' : list byte).

Hypothesis payload_not_empty' : payload' <> [].
Hypothesis expiry_is_time_t' : in_time_t expires'.
Hypothesis payload_fits' : Z.of_nat (List.length payload') < 2 ^ 31.

(** X18. A second add under the same key replaces the entry wholesale:
    the file then holds the second header and the second payload and
    nothing of the first, however long the first payload was, and a get
    before the second expiry returns the second payload. *)
Theorem add_twice_overwrites :
  exists w1 w2,
    local_cache_add id expires data_size (Some payload) w = (inr tt, w1)
    /\ local_cache_add id expires' (Z.of_nat (List.length payload')) (Some payload') w1
       = (inr tt, w2)
    /\ file_lookup filename (files w2)
       = Some (header_bytes {| version := CACHE_V1; expiry := expires' |} ++ payload')
    /\ forall t, t < expires' ->
         fst (local_cache_get id (set_now t w2)) = inr (Some payload').
Proof.
  destruct (local_cache_add_quiet id expires data_size payload w w0 filename
              key_not_empty quiet_size_not_zero directory_resolved name_found
              directory_exists no_contention writes_work)
    as (w1 & Hadd & _ & Hflag & Hdn & Hds & Ho & Hq & _).
  assert (Hname1 : get_file_name id w1 = (inr filename, w1))
    by (apply (get_file_name_frame id w0); assumption).
  assert (Hsize' : Z.of_nat (List.length payload') <> 0)
    by (destruct payload'; [contradiction | cbn [List.length]; lia]).
  destruct (local_cache_add_quiet id expires' (Z.of_nat (List.length payload')) payload'
              w1 w1 filename key_not_empty Hsize' (init_once w1 Hflag) Hname1)
    as (w2 & Hadd2 & Hlook2 & Hflag2 & Hdn2 & Hds2 & Ho2 & Hq2 & _).
  { rewrite Hdn, Hds. exact directory_exists. }
  { exact Hq. }
  { intros pos. rewrite Ho. apply writes_work. }
  assert (Hall : firstn (Z.to_nat (to_DWORD (Z.of_nat (List.length payload')))) payload'
                 = payload').
  { apply firstn_all2. unfold to_DWORD, wrap. rewrite Z.mod_small by lia. lia. }
  rewrite Hall in Hlook2.
  exists w1, w2. split; [exact Hadd|]. split; [exact Hadd2|]. split; [exact Hlook2|].
  intros t Ht. set (w2' := set_now t w2).
  assert (Hname2 : get_file_name id w2' = (inr filename, w2')).
  { apply (get_file_name_frame id w0); [exact name_found | |];
      subst w2'; world_simpl; congruence. }
  destruct (local_cache_get_quiet id w2' filename _ key_not_empty Hflag2 Hname2
              ltac:(subst w2'; world_simpl; rewrite Hdn2, Hds2, Hdn, Hds;
                    exact directory_exists)
              Hq2 Hlook2)
    as (w3 & Hget & Herr & Hfs3 & Ho3 & Hnow3).
  rewrite Hget.
  destruct (read_entry_payload filename
              (header_bytes {| version := CACHE_V1; expiry := expires' |}) payload' w3)
    as (w4 & Hr & _).
  - rewrite Hfs3. exact Hlook2.
  - apply header_bytes_length.
  - exact payload_fits'.
  - exact Herr.
  - rewrite Ho3. subst w2'. world_simpl. rewrite Ho2, Ho. apply reads_work.
  - rewrite Ho3. subst w2'. world_simpl. rewrite Ho2, Ho. apply reads_work.
  - rewrite stored_expiry_written, Hnow3. subst w2'. world_simpl.
    cbn [expiry]. rewrite to_time_t_of_range by exact expiry_is_time_t'. exact Ht.
  - rewrite Hr. reflexivity.
Qed.

End QuietMachine.

(** ** Clearing *)

Lemma clear_loop_cons baseDir fileName next rest w :
  clear_loop baseDir fileName (next :: rest) w
  = match clear_entry baseDir fileName w with
    | (inl e, w1) => (inl e, w1)
    | (inr _, w1) =>
        clear_loop baseDir next rest (set_trace (EvFindNextFile :: trace w1) w1)
    end.
Proof.
  cbn [clear_loop]. unfold bind at 1.
  destruct (clear_entry baseDir fileName w) as [[e|[]] w1]; [reflexivity|].
  unfold bind at 1. unfold FindNextFile, bind at 1, log, modify, ret. reflexivity.
Qed.

(** What [clear_loop] can change: files of the directory whose names the
    search produced, the thread's last error and the trace. *)
Lemma clear_loop_frame baseDir rest : forall fileName w,
  let r := clear_loop baseDir fileName rest w in
  (forall p, (forall n, In n (fileName :: rest) -> is_real_entry n = true ->
                        p <> full_name baseDir n) ->
             file_lookup p (files (snd r)) = file_lookup p (files w))
  /\ init_flag (snd r) = init_flag w
  /\ g_cache_dirname (snd r) = g_cache_dirname w
  /\ dirs (snd r) = dirs w
  /\ oracle (snd r) = oracle w
  /\ open_faults (snd r) = open_faults w.
Proof.
  assert (Hentry : forall n w,
             let r := clear_entry baseDir n w in
             (forall p, (is_real_entry n = true -> p <> full_name baseDir n) ->
                        file_lookup p (files (snd r)) = file_lookup p (files w))
             /\ init_flag (snd r) = init_flag w
             /\ g_cache_dirname (snd r) = g_cache_dirname w
             /\ dirs (snd r) = dirs w
             /\ oracle (snd r) = oracle w
             /\ open_faults (snd r) = open_faults w).
  { intros n w. unfold clear_entry. fold (full_name baseDir n).
    destruct (is_real_entry n); [|cbn; repeat split].
    unfold DeleteFileW, GetLastError, fthrow_if, FindClose, throw, bind, log, modify, ret.
    world_simpl. split_ifs; (split; [|repeat split]); intros p Hp; try reflexivity;
      apply file_lookup_remove_other; apply not_eq_sym; apply Hp; reflexivity. }
  induction rest as [|next rest IH]; intros fileName w r; subst r.
  - cbn [clear_loop]. unfold bind.
    destruct (Hentry fileName w) as (Hf & H1 & H2 & H3 & H4 & H5).
    destruct (clear_entry baseDir fileName w) as [[e|[]] w1]; cbn [fst snd] in *.
    + split; [|auto]. intros p Hp. apply Hf. intros Hr. apply Hp; [left; reflexivity | exact Hr].
    + unfold FindNextFile, SetLastError, bind, log, modify, ret. world_simpl.
      split; [|auto]. intros p Hp. apply Hf. intros Hr. apply Hp; [left; reflexivity | exact Hr].
  - rewrite clear_loop_cons.
    destruct (Hentry fileName w) as (Hf & H1 & H2 & H3 & H4 & H5).
    destruct (clear_entry baseDir fileName w) as [[e|[]] w1]; cbn [fst snd] in *.
    + split; [|auto]. intros p Hp. apply Hf. intros Hr. apply Hp; [left; reflexivity | exact Hr].
    + match goal with |- context [clear_loop baseDir next rest ?w'] =>
        destruct (IH next w') as (Hf' & H1' & H2' & H3' & H4' & H5') end.
      world_simpl.
      split; [|repeat split; congruence].
      intros p Hp. rewrite Hf'.
      * apply Hf. intros Hr. apply Hp; [left; reflexivity | exact Hr].
      * intros n Hin Hr. apply Hp; [right; exact Hin | exact Hr].
Qed.

Lemma local_cache_clear_unfold w :
  local_cache_clear w
  = match init w with
    | (inl e, w0) => (inl e, w0)
    | (inr _, w0) =>
        let base := g_cache_dirname w0 in
        let w1 := set_trace (EvFindFirstFile (base ++ "\*") :: trace w0) w0 in
        if existsb (String.eqb base) (dirs w0) then
          (clear_loop base "." (".." :: dir_entries base w0) ;; FindClose) w1
        else (inr tt, set_last_error ERROR_PATH_NOT_FOUND w1)
    end.
Proof.
  unfold local_cache_clear. unfold bind at 1.
  destruct (init w) as [[e|[]] w0]; [reflexivity|].
  unfold bind at 1. unfold bind at 1.
  unfold FindFirstFile, bind at 1, log, modify. world_simpl.
  rewrite pattern_dir_join.
  destruct (existsb (String.eqb (g_cache_dirname w0)) (dirs w0)); reflexivity.
Qed.

Lemma init_frame w :
  files (snd (init w)) = files w
  /\ oracle (snd (init w)) = oracle w
  /\ open_faults (snd (init w)) = open_faults w.
Proof.
  unfold init. destruct (init_flag w); [repeat split|].
  unfold bind, modify.
  destruct (init_callback_frame w) as ((_ & Hfiles & _ & Ho & Hq & _) & _).
  destruct (init_callback w) as [[e|[]] w1]; world_simpl; repeat split; assumption.
Qed.

(** X19. [local_cache_clear] deletes nothing but files that sit directly
    in the cache directory: every other file, the files of
    subdirectories and of the directories above included, is as it was,
    on every path through the function; and the directories themselves
    stay, the cache directory with them. *)
Theorem clear_touches_only_the_directory (w : World) (p : string) :
  let r := local_cache_clear w in
  child_name (g_cache_dirname (snd r)) p = None ->
  file_lookup p (files (snd r)) = file_lookup p (files w)
  /\ (forall d, In d (dirs (snd (init w))) -> In d (dirs (snd r))).
Proof.
  intros r. subst r. rewrite local_cache_clear_unfold.
  destruct (init_frame w) as (Hfiles & _).
  destruct (init w) as [[e|[]] w0]; cbn [fst snd] in *.
  - intros _. rewrite Hfiles. auto.
  - destruct (existsb (String.eqb (g_cache_dirname w0)) (dirs w0)).
    + set (w1 := set_trace _ w0).
      destruct (clear_loop_frame (g_cache_dirname w0)
                  (".." :: dir_entries (g_cache_dirname w0) w0) "." w1)
        as (Hf & _ & Hdn & Hds & _).
      assert (Hsnd : forall A (m : M A),
                 files (snd ((m ;; FindClose) w1)) = files (snd (m w1))
                 /\ g_cache_dirname (snd ((m ;; FindClose) w1)) = g_cache_dirname (snd (m w1))
                 /\ dirs (snd ((m ;; FindClose) w1)) = dirs (snd (m w1))).
      { intros A m. unfold bind, FindClose, log, modify.
        destruct (m w1) as [[e|a] w2]; world_simpl; repeat split. }
      destruct (Hsnd _ (clear_loop (g_cache_dirname w0) "."
                          (".." :: dir_entries (g_cache_dirname w0) w0)))
        as (-> & -> & ->).
      rewrite Hdn, Hds. subst w1. world_simpl. intros Hchild.
      split; [|auto]. rewrite Hf; [rewrite Hfiles; reflexivity|].
      intros n Hin Hr ->.
      destruct Hin as [<- | [<- | Hin]]; [discriminate Hr | discriminate Hr |].
      apply dir_entries_no_backslash in Hin.
      unfold full_name in Hchild. rewrite child_name_join in Hchild by exact Hin.
      discriminate Hchild.
    + world_simpl. intros _. rewrite Hfiles. auto.
Qed.

(** X20. When the cache directory does not exist (a [make_dir] that
    failed without throwing leaves it so), [local_cache_clear] returns
    normally: the search finds nothing, no [DeleteFileW] is called, the
    search handle is not closed, and the only thing left behind is the
    last error of the search. *)
Theorem clear_without_directory (w w0 : World) :
  init w = (inr tt, w0) ->
  existsb (String.eqb (g_cache_dirname w0)) (dirs w0) = false ->
  local_cache_clear w
  = (inr tt,
     set_last_error ERROR_PATH_NOT_FOUND
       (set_trace (EvFindFirstFile (g_cache_dirname w0 ++ "\*") :: trace w0) w0)).
Proof.
  intros Hinit Hdir. rewrite local_cache_clear_unfold, Hinit. cbv zeta.
  rewrite Hdir. reflexivity.
Qed.

Lemma get_file_name_hex id w f w1 :
  get_file_name id w = (inr f, w1) ->
  exists bs, f = (g_cache_dirname w ++ "\" ++ hex_of_bytes bs)%string.
Proof.
  unfold get_file_name, sha256, sha256_data, bind at 1.
  destruct (sha256_body _ _) as [[status errorString] retval] eqn:E.
  unfold bind, throw_if, throw, ret.
  destruct (NT_SUCCESS status) eqn:Hs; cbn [negb]; [|discriminate].
  intros [= <- <-]. eexists.
  rewrite (sha256_body_success _ _ _ _ _ E Hs). reflexivity.
Qed.

(** One round of the loop: the name is skipped, or its file is deleted,
    or the round throws and leaves the files alone. *)
Lemma clear_entry_cases baseDir n w :
  let r := clear_entry baseDir n w in
  (is_real_entry n = false /\ r = (inr tt, w))
  \/ (is_real_entry n = true /\ fst r = inr tt
      /\ files (snd r) = file_remove (full_name baseDir n) (files w))
  \/ (is_real_entry n = true /\ (exists what, fst r = inl (runtime_error what))
      /\ files (snd r) = files w).
Proof.
  unfold clear_entry. fold (full_name baseDir n).
  destruct (is_real_entry n); [right | left; split; reflexivity].
  unfold DeleteFileW, GetLastError, fthrow_if, FindClose, throw, bind, log, modify, ret.
  world_simpl.
  split_ifs; first [ left; repeat split; reflexivity
                   | right; split; [reflexivity|]; split; [eexists; reflexivity | reflexivity] ].
Qed.

Lemma file_lookup_remove_None p q fs :
  file_lookup p fs = None -> file_lookup p (file_remove q fs) = None.
Proof.
  intros H. destruct (string_dec q p) as [-> | Hne].
  - apply file_lookup_remove_same.
  - rewrite file_lookup_remove_other by exact Hne. exact H.
Qed.

(** A loop that ran to its end has deleted the file of every real name
    of the listing, and has brought no file back. *)
Lemma clear_loop_done baseDir rest : forall fileName w w',
  clear_loop baseDir fileName rest w = (inr tt, w') ->
  forall p,
    file_lookup p (files w) = None
    \/ (exists n, In n (fileName :: rest) /\ is_real_entry n = true
                  /\ p = full_name baseDir n) ->
    file_lookup p (files w') = None.
Proof.
  assert (Hround : forall fileName w w1 p,
             clear_entry baseDir fileName w = (inr tt, w1) ->
             (file_lookup p (files w) = None -> file_lookup p (files w1) = None)
             /\ (is_real_entry fileName = true -> p = full_name baseDir fileName ->
                 file_lookup p (files w1) = None)).
  { intros fileName w w1 p Hrun.
    destruct (clear_entry_cases baseDir fileName w) as [(Hr & E) | [(Hr & _ & E) | (_ & (what & E) & _)]];
      rewrite Hrun in E; cbn [fst snd] in E.
    - injection E as <-. split; [auto|]. intros Hreal. rewrite Hr in Hreal. discriminate.
    - rewrite E. split; [apply file_lookup_remove_None|].
      intros _ ->. apply file_lookup_remove_same.
    - discriminate. }
  induction rest as [|next rest IH]; intros fileName w w' Hrun p Hp.
  - cbn [clear_loop] in Hrun. unfold bind at 1 in Hrun.
    destruct (clear_entry baseDir fileName w) as [[e|[]] w1] eqn:Hent; [discriminate|].
    unfold FindNextFile, SetLastError, bind, log, modify, ret in Hrun.
    injection Hrun as <-. world_simpl.
    destruct (Hround fileName w w1 p Hent) as [Hkeep Hdel].
    destruct Hp as [Hp | (n & [<- | []] & Hreal & ->)]; auto.
  - rewrite clear_loop_cons in Hrun.
    destruct (clear_entry baseDir fileName w) as [[e|[]] w1] eqn:Hent; [discriminate|].
    destruct (Hround fileName w w1 p Hent) as [Hkeep Hdel].
    apply (IH _ _ _ Hrun). world_simpl.
    destruct Hp as [Hp | (n & [<- | Hin] & Hreal & ->)]; [left; auto | left; auto |].
    right. exists n. auto.
Qed.

(** X21. After a [local_cache_clear] that returned normally every key is
    a miss: [local_cache_get] returns not-found for each identifier,
    whatever was stored before. *)
Theorem clear_then_get_misses (w w0 w1 : World) (id filename : string) :
  init w = (inr tt, w0) ->
  In (g_cache_dirname w0) (dirs w0) ->
  NoDup (map fst (files w0)) ->
  local_cache_clear w = (inr tt, w1) ->
  id <> EmptyString ->
  get_file_name id w0 = (inr filename, w0) ->
  fst (local_cache_get id w1) = inr None.
Proof.
  intros Hinit Hdir Hnd Hclear Hid Hname.
  set (base := g_cache_dirname w0).
  set (rest := ".." :: dir_entries base w0).
  set (ws := set_trace (EvFindFirstFile (base ++ "\*") :: trace w0) w0).
  assert (Hr : local_cache_clear w = (clear_loop base "." rest ;; FindClose) ws).
  { rewrite local_cache_clear_unfold, Hinit. cbv zeta.
    apply existsb_eqb_In in Hdir. rewrite Hdir. reflexivity. }
  destruct (clear_loop_frame base rest "." ws) as (_ & Hflag & Hdn & Hds & Ho & _).
  rewrite Hr in Hclear. unfold bind in Hclear.
  destruct (clear_loop base "." rest ws) as [[e|[]] w2] eqn:Hloop; [discriminate|].
  unfold FindClose, log, modify in Hclear. injection Hclear as <-.
  cbn [fst snd] in *.
  set (w1 := set_trace (EvFindClose :: trace w2) w2).
  assert (Hflag1 : init_flag w1 = true).
  { subst w1 ws. world_simpl. rewrite Hflag. world_simpl.
    exact (init_sets_flag _ _ Hinit). }
  assert (Hname1 : get_file_name id w1 = (inr filename, w1)).
  { apply (get_file_name_frame id w0); [exact Hname | |]; subst w1 ws; world_simpl.
    - rewrite Ho. reflexivity.
    - rewrite Hdn. reflexivity. }
  assert (Hgone : file_lookup filename (files w1) = None).
  { subst w1. world_simpl. apply (clear_loop_done base rest "." ws w2 Hloop).
    subst ws. world_simpl.
    destruct (file_lookup filename (files w0)) as [c|] eqn:Hc; [right | left; reflexivity].
    destruct (get_file_name_hex _ _ _ _ Hname) as (bs & Hf).
    exists (hex_of_bytes bs). split; [|split; [apply hex_is_real_entry | exact Hf]].
    right. right. apply In_dir_entries. exists filename. split.
    - rewrite Hf. apply child_name_join. apply no_backslash_hex.
    - left. apply (file_lookup_Some_path _ c). exact Hc. }
  destruct (local_cache_get_effects w1 w1 id filename Hid (init_once w1 Hflag1) Hname1)
    as (_ & _ & _ & Hmiss).
  destruct (Hmiss Hgone) as [Hres1 _]. exact Hres1.
Qed.

Lemma literal_plus_suffix (code : Z) :
  0 <= code <= 33 ->
  exists dropped,
    "Deleting file failed, error code "
    = (dropped ++ literal_plus "Deleting file failed, error code " code)%string
    /\ Z.of_nat (String.length dropped) = code.
Proof.
  intros Hc.
  exists (substring 0 (Z.to_nat code) "Deleting file failed, error code ").
  assert (Hcases : exists k, (k <= 33)%nat /\ Z.to_nat code = k /\ code = Z.of_nat k)
    by (exists (Z.to_nat code); lia).
  destruct Hcases as (k & Hk & Hke & Hek). unfold literal_plus. rewrite Hke, Hek. clear -Hk.
  do 34 (destruct k as [|k]; [split; reflexivity|]). lia.
Qed.

(** X22. The message [local_cache_clear] throws when a deletion fails
    never holds an error code: the source adds [GetLastError()] to the
    address of the literal, so the message is the literal (33
    characters) without its first characters, as many as the value
    [GetLastError()] returned.  Which value that is depends on the
    build: the code of the failed deletion when the arguments are
    evaluated left to right, the last-error value from before the call
    when they are evaluated right to left. *)
Theorem clear_error_message (baseDir n : string) (w : World) :
  let path := (baseDir ++ "\" ++ n)%string in
  let e := delete_fault (oracle w) path in
  let failure :=
    if e =? 0
    then if existsb (String.eqb path) (dirs w)
         then ERROR_ACCESS_DENIED else ERROR_FILE_NOT_FOUND
    else e in
  let code := if args_right_to_left (oracle w) then last_error w else failure in
  is_real_entry n = true ->
  e <> 0 \/ file_lookup path (files w) = None ->
  0 <= code <= 33 ->
  exists dropped what,
    fst (clear_entry baseDir n w) = inl (runtime_error what)
    /\ "Deleting file failed, error code " = (dropped ++ what)%string
    /\ Z.of_nat (String.length dropped) = code.
Proof.
  intros path e failure code Hr Hfail Hcode.
  destruct (literal_plus_suffix code Hcode) as (dropped & Hsplit & Hlen).
  exists dropped, (literal_plus "Deleting file failed, error code " code).
  split; [|split; [exact Hsplit | exact Hlen]].
  subst code failure. unfold clear_entry. rewrite Hr. fold path.
  unfold DeleteFileW, GetLastError, fthrow_if, FindClose, throw, bind, log, modify, ret.
  world_simpl. fold e.
  destruct (args_right_to_left (oracle w));
    (destruct (e =? 0) eqn:E; cbn [negb]; world_simpl;
     [destruct Hfail as [Hne | Hnone];
      [apply Z.eqb_eq in E; contradiction|];
      rewrite Hnone; destruct (existsb (String.eqb path) (dirs w)); world_simpl
     |]);
    reflexivity.
Qed.

(** ** Read faults and sizes beyond 32 bits *)

Lemma read_entry_header_fault filename w :
  read_fault (oracle w) filename 0 <> 0 ->
  let r := read_entry filename (mkHandle filename 0) w in
  fst r = inl (runtime_error "Header read from local cache failed")
  /\ files (snd r) = files w
  /\ hd_error (trace (snd r)) = Some (EvCloseHandle (Some (mkHandle filename 0))).
Proof.
  intros Hf r. subst r. apply Z.eqb_neq in Hf.
  unfold read_entry, ReadFile, GetLastError, throw_if_file, CloseHandle, throw, bind,
    log, modify. world_simpl. cbn [h_path h_pos]. rewrite Hf. world_simpl.
  rewrite Hf. cbn [negb]. world_simpl. repeat split.
Qed.

Lemma read_entry_data_fault filename c w :
  file_lookup filename (files w) = Some c ->
  last_error w = 0 ->
  read_fault (oracle w) filename 0 = 0 ->
  read_fault (oracle w) filename (Z.to_nat sizeof_CacheEntryHeaderV1) <> 0 ->
  (Z.to_nat sizeof_CacheEntryHeaderV1 <= List.length c)%nat ->
  Z.of_nat (List.length c) < sizeof_CacheEntryHeaderV1 + 2 ^ 31 ->
  now w < stored_expiry c ->
  let r := read_entry filename (mkHandle filename 0) w in
  fst r = inl (runtime_error "Data read from local cache failed")
  /\ files (snd r) = files w
  /\ hd_error (trace (snd r))
     = Some (EvCloseHandle (Some (mkHandle filename (Z.to_nat sizeof_CacheEntryHeaderV1)))).
Proof.
  intros Hc Herr Hf0 Hf16 Hmin Hmax Hexp r.
  assert (Hrun : exists w',
             r = (inl (runtime_error "Data read from local cache failed"), w')
             /\ files w' = files w
             /\ hd_error (trace w')
                = Some (EvCloseHandle
                          (Some (mkHandle filename (Z.to_nat sizeof_CacheEntryHeaderV1)))));
    [|destruct Hrun as (w' & -> & H1 & H2); auto].
  subst r. eexists. split; [|shelve].
  rewrite (read_entry_unfold filename c w Hc Herr Hf0).
  apply Z.leb_gt in Hexp. rewrite Hexp. clear Hexp.
  apply Z.eqb_neq in Hf16.
  rewrite length_firstn, Nat.min_l by exact Hmin. cbn [Nat.add].
  change sizeof_CacheEntryHeaderV1 with 16 in *. change (Z.to_nat 16) with 16%nat in *.
  set (n := Z.of_nat (List.length c) - 16).
  assert (Hsize : to_DWORD (Z.of_nat (List.length c)) = 16 + n).
  { unfold to_DWORD, wrap. subst n. rewrite Z.mod_small; lia. }
  assert (Hps : payload_size (16 + n) = n).
  { rewrite payload_size_exact; change sizeof_CacheEntryHeaderV1 with 16; subst n; lia. }
  assert (Hn64 : to_size_t n = n).
  { unfold to_size_t, wrap. apply Z.mod_small. subst n. lia. }
  unfold bind at 1. unfold GetFileSize, bind at 1, log, modify. world_simpl.
  cbn [h_path]. unfold file_contents at 1. world_simpl. rewrite Hc, Hsize, Hps, Hn64.
  unfold bind at 1. unfold make_vector.
  replace (n >? vector_max_size) with false
    by (symmetry; rewrite Z.gtb_ltb; apply Z.ltb_ge; unfold vector_max_size; subst n; lia).
  unfold ret at 1. unfold bind at 1.
  unfold ReadFile, bind at 1, log, modify. world_simpl. cbn [h_path h_pos].
  rewrite Hf16.
  unfold bind at 1. unfold GetLastError at 1. world_simpl. rewrite Hf16.
  cbn [negb throw_if_file].
  unfold bind, throw, CloseHandle, log, modify. world_simpl. reflexivity.
  Unshelve. split; reflexivity.
Qed.

(** X23. A read that fails makes [local_cache_get] throw and close the
    handle, and leaves the entry file where it is: "Header read from
    local cache failed" for the first read, "Data read from local cache
    failed" for the second, on an unexpired entry of at least 16 and
    less than 16 + 2^31 bytes. *)
Theorem get_read_fault (w : World) (id filename : string) (c : list byte) :
  id <> EmptyString ->
  init_flag w = true ->
  get_file_name id w = (inr filename, w) ->
  In (g_cache_dirname w) (dirs w) ->
  open_faults w = [] ->
  file_lookup filename (files w) = Some c ->
  let r := local_cache_get id w in
  (read_fault (oracle w) filename 0 <> 0 ->
   fst r = inl (runtime_error "Header read from local cache failed")
   /\ files (snd r) = files w
   /\ hd_error (trace (snd r)) = Some (EvCloseHandle (Some (mkHandle filename 0))))
  /\ (read_fault (oracle w) filename 0 = 0 ->
      read_fault (oracle w) filename 16 <> 0 ->
      (16 <= List.length c)%nat ->
      Z.of_nat (List.length c) < 16 + 2 ^ 31 ->
      now w < stored_expiry c ->
      fst r = inl (runtime_error "Data read from local cache failed")
      /\ files (snd r) = files w
      /\ hd_error (trace (snd r)) = Some (EvCloseHandle (Some (mkHandle filename 16)))).
Proof.
  intros Hid Hflag Hname Hdir Hq Hc r. subst r.
  destruct (local_cache_get_quiet id w filename c Hid Hflag Hname Hdir Hq Hc)
    as (w2 & -> & Herr & Hfiles & Ho & Hnow).
  rewrite <- Hfiles, <- Ho, <- Hnow. rewrite <- Hfiles in Hc. split.
  - intros Hf. apply read_entry_header_fault. exact Hf.
  - intros Hf0 Hf16 Hmin Hmax Hexp.
    apply (read_entry_data_fault filename c w2); assumption.
Qed.

(** X24. [local_cache_add] hands [WriteFile] the size converted to
    [DWORD], so it stores [data_size] modulo 2^32 bytes of the data: a
    size that is a multiple of 2^32 passes the test for an empty payload
    and stores the header alone. *)
Theorem add_size_wraps_at_4GiB (w w0 : World) (id filename : string) (expires : Z)
  (data : list byte) (k r : Z) :
  id <> EmptyString ->
  init w = (inr tt, w0) ->
  get_file_name id w0 = (inr filename, w0) ->
  In (g_cache_dirname w0) (dirs w0) ->
  open_faults w0 = [] ->
  (forall pos, write_fault (oracle w0) filename pos = 0) ->
  0 <= k -> 0 <= r < 2 ^ 32 -> 0 < k * 2 ^ 32 + r ->
  exists w1,
    local_cache_add id expires (k * 2 ^ 32 + r) (Some data) w = (inr tt, w1)
    /\ file_lookup filename (files w1)
       = Some (header_bytes {| version := CACHE_V1; expiry := expires |}
               ++ firstn (Z.to_nat r) data).
Proof.
  intros Hid Hinit Hname Hdir Hq Hwf Hk Hr Hpos.
  destruct (local_cache_add_quiet id expires (k * 2 ^ 32 + r) data w w0 filename
              Hid ltac:(lia) Hinit Hname Hdir Hq Hwf)
    as (w1 & Hadd & Hlook & _).
  exists w1. split; [exact Hadd|]. rewrite Hlook.
  unfold to_DWORD, wrap. rewrite Z.add_comm, Z.mod_add by lia.
  rewrite Z.mod_small by exact Hr. reflexivity.
Qed.

(** ** The directory [init_callback] settles on *)

Lemma resolve_with_success base w w' :
  resolve_with base w = (inr tt, w') ->
  g_cache_dirname w' = (base ++ application_name)%string
  /\ (dirs w' = dirs w \/ dirs w' = dirs w ++ [(base ++ application_name)%string]).
Proof.
  unfold resolve_with, make_dir, CreateDirectory, GetLastError, throw_if, throw,
    bind, log, modify, ret. world_simpl.
  destruct (existsb _ _); world_simpl;
    [|destruct (mkdir_fault (oracle w) (base ++ application_name) =? 0); world_simpl];
    match goal with |- context [if ?c then _ else _] => destruct c end;
    intros H; try discriminate H; injection H as <-; world_simpl; auto.
Qed.

(** X25. When [init_callback] returns, the cache directory it has
    recorded is a base that is not empty followed by [\.az-dcap-client],
    and it has created that one directory or none at all: it never
    creates a parent, and it touches no file. *)
Theorem init_callback_directory (w w' : World) :
  init_callback w = (inr tt, w') ->
  (exists base,
      base <> EmptyString
      /\ g_cache_dirname w' = (base ++ "\.az-dcap-client")%string)
  /\ (dirs w' = dirs w \/ dirs w' = dirs w ++ [g_cache_dirname w'])
  /\ files w' = files w.
Proof.
  intros Hrun.
  destruct (init_callback_frame w) as ((_ & Hfiles & _) & _).
  rewrite Hrun in Hfiles. cbn [snd] in Hfiles.
  rewrite init_callback_unfold in Hrun.
  destruct (read_configuration_frame w) as (_ & _ & Hdirs).
  destruct (read_configuration w) as [[e|[env_home env_azdcap_cache]] w1];
    [discriminate|]. cbn [snd] in Hdirs.
  assert (Hres : forall base, c_str_nonempty base = true ->
                   resolve_with base w1 = (inr tt, w') ->
                   (exists base,
                       base <> EmptyString
                       /\ g_cache_dirname w' = (base ++ "\.az-dcap-client")%string)
                   /\ (dirs w' = dirs w \/ dirs w' = dirs w ++ [g_cache_dirname w'])
                   /\ files w' = files w).
  { intros base Hne Hr. destruct (resolve_with_success base w1 w' Hr) as (Hdn & Hds).
    rewrite Hdirs in Hds. rewrite Hdn.
    split; [|split; [exact Hds | exact Hfiles]].
    exists base. split; [|reflexivity]. destruct base; discriminate. }
  destruct (c_str_nonempty env_home) eqn:E1; [exact (Hres _ E1 Hrun)|].
  destruct (c_str_nonempty env_azdcap_cache) eqn:E2; [exact (Hres _ E2 Hrun)|].
  discriminate.
Qed.

(** * The further properties on the sample machines *)




(** The stored entry on a disk whose reads fail past the header. *)
Definition bad_sector_oracle : Oracle :=
  mkOracle (fun _ => 0) (fun _ pos => if Nat.eqb pos 16 then 23 else 0)
           (fun _ _ => 0) (fun _ => 0) (fun _ => 0) sample_digest false (fun _ => O) false.

Definition bad_sector_machine : World :=
  mkWorld true (g_cache_dirname stored_machine) 0 (env_vars stored_machine)
          (dirs stored_machine) (files stored_machine) 1700000000 [] []
          bad_sector_oracle [].

(** The cluttered directory under a build that evaluates the arguments
    of a call from the last to the first. *)
Definition reversed_build_oracle : Oracle :=
  mkOracle (fun _ => 0) (fun _ _ => 0) (fun _ _ => 0)
           (fun p => if String.eqb p "C:\Local\.az-dcap-client\bb"
                     then ERROR_ACCESS_DENIED else 0)
           (fun _ => 0) sample_digest false (fun _ => O) true.

Definition reversed_build_machine : World :=
  mkWorld false EmptyString 0 [("LOCALAPPDATA", "C:\Local")]
          ["C:\Local"; "C:\Local\.az-dcap-client"]
          [("C:\Local\.az-dcap-client\aa", [x01]);
           ("C:\Local\.az-dcap-client\bb", [x02]);
           ("C:\Local\.az-dcap-client\cc", [x03])]
          1700000000 [] [] reversed_build_oracle [].

(** X2 on two digests of four bytes. *)
Lemma hex_of_bytes_injective_witness :
  hex_of_bytes (sample_digest [x6b]) = hex_of_bytes [x6b; x00; x00; x00]
  /\ sample_digest [x6b] = [x6b; x00; x00; x00].
Proof.
  split; [reflexivity|].
  apply (hex_of_bytes_injective (sample_digest [x6b]) [x6b; x00; x00; x00]).
  reflexivity.
Defined.

(** X4 on two keys the sample provider does not tell apart. *)
Lemma same_file_name_same_digest_witness :
  bcrypt_digest (oracle ready_machine) (list_byte_of_string "abcdX")
  = bcrypt_digest (oracle ready_machine) (list_byte_of_string "abcdY").
Proof.
  apply (same_file_name_same_digest ready_machine ready_machine ready_machine
           "abcdX" "abcdY" "C:\Local\.az-dcap-client\61626364").
  - vm_compute. reflexivity.
  - vm_compute. reflexivity.
Defined.

(** X6 on the sample machine, entered with a stale path-not-found. *)
Lemma make_dir_stale_error_witness :
  fst (make_dir "C:\Local\.az-dcap-client" (set_last_error ERROR_PATH_NOT_FOUND fresh_machine))
  = inl (runtime_error "Path not found")
  /\ In "C:\Local\.az-dcap-client"
        (dirs (snd (make_dir "C:\Local\.az-dcap-client"
                      (set_last_error ERROR_PATH_NOT_FOUND fresh_machine)))).
Proof.
  destruct (make_dir_stale_error (set_last_error ERROR_PATH_NOT_FOUND fresh_machine)
              "C:\Local\.az-dcap-client") as (_ & Hthrow & Hdir).
  - reflexivity.
  - vm_compute. reflexivity.
  - reflexivity.
  - split; [exact Hthrow | exact Hdir].
Defined.

(** X8 on the sample machine, where nothing is stored yet. *)
Lemma get_missing_entry_witness :
  fst (local_cache_get "k" fresh_machine) = inr None
  /\ files (snd (local_cache_get "k" fresh_machine)) = files fresh_machine.
Proof.
  apply (get_missing_entry fresh_machine ready_machine "k" entry_path).
  - discriminate.
  - vm_compute. reflexivity.
  - vm_compute. reflexivity.
  - reflexivity.
Defined.

(** X9 on the stored entry. *)
Lemma get_never_writes_witness :
  let r := local_cache_get "k" stored_machine in
  (forall p, p <> entry_path ->
             file_lookup p (files (snd r)) = file_lookup p (files stored_machine))
  /\ (file_lookup entry_path (files (snd r)) = file_lookup entry_path (files stored_machine)
      \/ file_lookup entry_path (files (snd r)) = None)
  /\ (forall data, fst r = inr (Some data) -> files (snd r) = files stored_machine).
Proof.
  apply (get_never_writes stored_machine stored_machine "k" entry_path).
  - discriminate.
  - vm_compute. reflexivity.
  - vm_compute. reflexivity.
Defined.

(** X10 on the cluttered directory: the entry [aa] is as it was after an
    add under [k]. *)
Lemma add_touches_only_its_entry_witness :
  file_lookup "C:\Local\.az-dcap-client\aa"
    (files (snd (local_cache_add "k" 1700003600 2 (Some [x41; x42]) cluttered_machine)))
  = file_lookup "C:\Local\.az-dcap-client\aa" (files cluttered_machine).
Proof.
  apply (add_touches_only_its_entry cluttered_machine (snd (init cluttered_machine))
           "k" entry_path).
  - discriminate.
  - vm_compute. reflexivity.
  - vm_compute. reflexivity.
  - discriminate.
  - discriminate.
Defined.

(** X11 on an add that cannot open its file, and on one that can. *)
Lemma add_always_closes_witness :
  (fst (local_cache_add "k" 1700003600 2 (Some [x41; x42]) denied_machine)
   = inl (runtime_error "Create file failed")
   /\ hd_error (trace (snd (local_cache_add "k" 1700003600 2 (Some [x41; x42])
                              denied_machine)))
      = Some (EvCloseHandle None))
  /\ (exists pos,
         hd_error (trace (snd (local_cache_add "k" 1700003600 2 (Some [x41; x42])
                                 fresh_machine)))
         = Some (EvCloseHandle (Some (mkHandle entry_path pos)))).
Proof.
  split.
  - destruct (add_always_closes denied_machine denied_machine "k" entry_path)
      with (expires := 1700003600) (data_size := 2) (data := [x41; x42])
      as (Hfailed & _).
    + discriminate.
    + vm_compute. reflexivity.
    + vm_compute. reflexivity.
    + discriminate.
    + apply Hfailed. vm_compute. reflexivity.
  - destruct (add_always_closes fresh_machine ready_machine "k" entry_path)
      with (expires := 1700003600) (data_size := 2) (data := [x41; x42])
      as (_ & Hopened & _).
    + discriminate.
    + vm_compute. reflexivity.
    + vm_compute. reflexivity.
    + discriminate.
    + apply Hopened. vm_compute. discriminate.
Defined.

(** X13 on the stored entry, entered with access-denied as last error. *)
Lemma last_error_on_entry_is_irrelevant_witness :
  fst (local_cache_get "k" (set_last_error ERROR_ACCESS_DENIED stored_machine))
  = fst (local_cache_get "k" stored_machine).
Proof.
  destruct (last_error_on_entry_is_irrelevant stored_machine ERROR_ACCESS_DENIED)
    as [Hget _].
  - vm_compute. reflexivity.
  - destruct (Hget "k") as [Hres _]. exact Hres.
Defined.

(** X14 on the header of the stored entry. *)
Lemma header_round_trip_witness :
  header_of_bytes (header_bytes {| version := CACHE_V1; expiry := 1700003600 |})
  = {| version := CACHE_V1; expiry := 1700003600 |}
  /\ List.length (header_bytes {| version := CACHE_V1; expiry := 1700003600 |}) = 16%nat.
Proof.
  apply (header_round_trip {| version := CACHE_V1; expiry := 1700003600 |}).
  - vm_compute. split; [discriminate | reflexivity].
  - unfold in_time_t. cbn [expiry]. lia.
Defined.



(** X17 on the sample machine, with an expiry in 2020. *)
Lemma add_expired_then_get_witness :
  exists w1,
    local_cache_add "k" 1600000000 2 (Some [x41; x42]) fresh_machine = (inr tt, w1)
    /\ file_lookup entry_path (files w1) <> None
    /\ forall t, 1600000000 <= t ->
         fst (local_cache_get "k" (set_now t w1)) = inr None
         /\ file_lookup entry_path (files (snd (local_cache_get "k" (set_now t w1)))) = None.
Proof.
  apply add_expired_then_get
    with (w0 := ready_machine) (filename := entry_path)
         (expires := 1600000000) (payload := [x41; x42]).
  - discriminate.
  - vm_compute. reflexivity.
  - vm_compute. auto.
  - vm_compute. reflexivity.
  - vm_compute. reflexivity.
  - intros pos. vm_compute. reflexivity.
  - discriminate.
  - unfold in_time_t. lia.
  - vm_compute. reflexivity.
  - intros pos. vm_compute. reflexivity.
  - vm_compute. reflexivity.
Defined.

(** X18 on the sample machine: three bytes, then one byte under the same
    key. *)
Lemma add_twice_overwrites_witness :
  exists w1 w2,
    local_cache_add "k" 1700003600 3 (Some [x41; x42; x43]) fresh_machine = (inr tt, w1)
    /\ local_cache_add "k" 1700007200 1 (Some [x44]) w1 = (inr tt, w2)
    /\ file_lookup entry_path (files w2)
       = Some (header_bytes {| version := CACHE_V1; expiry := 1700007200 |} ++ [x44])
    /\ forall t, t < 1700007200 ->
         fst (local_cache_get "k" (set_now t w2)) = inr (Some [x44]).
Proof.
  apply add_twice_overwrites
    with (w0 := ready_machine) (filename := entry_path)
         (expires := 1700003600) (payload := [x41; x42; x43])
         (expires' := 1700007200) (payload' := [x44]).
  - discriminate.
  - vm_compute. reflexivity.
  - vm_compute. auto.
  - vm_compute. reflexivity.
  - vm_compute. reflexivity.
  - intros pos. vm_compute. reflexivity.
  - discriminate.
  - intros pos. vm_compute. reflexivity.
  - discriminate.
  - unfold in_time_t. lia.
  - vm_compute. reflexivity.
Defined.

(** X19 on the shared directory: the file in the subdirectory and the
    file beside the cache directory are as they were. *)
Lemma clear_touches_only_the_directory_witness :
  file_lookup "C:\Local\.az-dcap-client\sub\bb" (files (snd (local_cache_clear shared_machine)))
  = Some [x03]
  /\ file_lookup "C:\Local\.az-dcap-client\aa" (files (snd (local_cache_clear shared_machine)))
     = None.
Proof.
  destruct (clear_touches_only_the_directory shared_machine "C:\Local\.az-dcap-client\sub\bb")
    as [Hkept _].
  - vm_compute. reflexivity.
  - split; [rewrite Hkept; reflexivity | vm_compute; reflexivity].
Defined.

(** X20 on the machine that cannot create the cache directory. *)
Lemma clear_without_directory_witness :
  fst (local_cache_clear read_only_machine) = inr tt
  /\ delete_calls (trace (snd (local_cache_clear read_only_machine))) = [].
Proof.
  rewrite (clear_without_directory read_only_machine (snd (init read_only_machine))).
  - split; vm_compute; reflexivity.
  - vm_compute. reflexivity.
  - vm_compute. reflexivity.
Defined.

(** X21 on the stored entry. *)
Lemma clear_then_get_misses_witness :
  fst (local_cache_get "k" (snd (local_cache_clear stored_machine))) = inr None.
Proof.
  apply (clear_then_get_misses stored_machine stored_machine
           (snd (local_cache_clear stored_machine)) "k" entry_path).
  - vm_compute. reflexivity.
  - vm_compute. auto.
  - vm_compute. repeat constructor; cbn [In]; intuition discriminate.
  - vm_compute. reflexivity.
  - discriminate.
  - vm_compute. reflexivity.
Defined.

(** X22 on the locked entry, in both builds, and on a subdirectory.
    Access denied is 5: five characters are missing when the code is
    read after the deletion, none when it is read before (the last error
    was 0 then). *)
Lemma clear_error_message_witness :
  (exists dropped what,
      fst (clear_entry "C:\Local\.az-dcap-client" "bb" cluttered_machine)
      = inl (runtime_error what)
      /\ "Deleting file failed, error code " = (dropped ++ what)%string
      /\ Z.of_nat (String.length dropped) = ERROR_ACCESS_DENIED)
  /\ (exists dropped what,
         fst (clear_entry "C:\Local\.az-dcap-client" "bb" reversed_build_machine)
         = inl (runtime_error what)
         /\ "Deleting file failed, error code " = (dropped ++ what)%string
         /\ Z.of_nat (String.length dropped) = 0)
  /\ (exists dropped what,
         fst (clear_entry "C:\Local\.az-dcap-client" "sub" shared_machine)
         = inl (runtime_error what)
         /\ "Deleting file failed, error code " = (dropped ++ what)%string
         /\ Z.of_nat (String.length dropped) = ERROR_ACCESS_DENIED).
Proof.
  split; [|split].
  - apply (clear_error_message "C:\Local\.az-dcap-client" "bb" cluttered_machine).
    + reflexivity.
    + left. vm_compute. discriminate.
    + vm_compute. split; discriminate.
  - apply (clear_error_message "C:\Local\.az-dcap-client" "bb" reversed_build_machine).
    + reflexivity.
    + left. vm_compute. discriminate.
    + vm_compute. split; discriminate.
  - apply (clear_error_message "C:\Local\.az-dcap-client" "sub" shared_machine).
    + reflexivity.
    + right. vm_compute. reflexivity.
    + vm_compute. split; discriminate.
Defined.

(** X23 on the disk whose reads fail past the header. *)
Lemma get_read_fault_witness :
  fst (local_cache_get "k" bad_sector_machine)
  = inl (runtime_error "Data read from local cache failed")
  /\ files (snd (local_cache_get "k" bad_sector_machine)) = files bad_sector_machine.
Proof.
  destruct (get_read_fault bad_sector_machine "k" entry_path
              (header_bytes {| version := CACHE_V1; expiry := 1700003600 |} ++ [x41; x42]))
    as [_ Hdata].
  - discriminate.
  - reflexivity.
  - vm_compute. reflexivity.
  - vm_compute. auto.
  - reflexivity.
  - vm_compute. reflexivity.
  - destruct Hdata as (Hres & Hfiles & _).
    + vm_compute. reflexivity.
    + vm_compute. discriminate.
    + vm_compute. lia.
    + vm_compute. reflexivity.
    + vm_compute. reflexivity.
    + split; [exact Hres | exact Hfiles].
Defined.

(** X24 on the sample machine: a size of 2^32 stores the header alone. *)
Lemma add_size_wraps_at_4GiB_witness :
  exists w1,
    local_cache_add "k" 1700003600 (1 * 2 ^ 32 + 0) (Some [x41; x42]) fresh_machine
    = (inr tt, w1)
    /\ file_lookup entry_path (files w1)
       = Some (header_bytes {| version := CACHE_V1; expiry := 1700003600 |}
               ++ firstn (Z.to_nat 0) [x41; x42]).
Proof.
  apply (add_size_wraps_at_4GiB fresh_machine ready_machine "k" entry_path 1700003600
           [x41; x42] 1 0).
  - discriminate.
  - vm_compute. reflexivity.
  - vm_compute. reflexivity.
  - vm_compute. auto.
  - vm_compute. reflexivity.
  - intros pos. vm_compute. reflexivity.
  - lia.
  - lia.
  - lia.
Defined.

(** X25 on the sample machine without [LOCALAPPDATA]. *)
Lemma init_callback_directory_witness :
  (exists base,
      base <> EmptyString
      /\ g_cache_dirname (snd (init_callback service_machine))
         = (base ++ "\.az-dcap-client")%string)
  /\ (dirs (snd (init_callback service_machine)) = dirs service_machine
      \/ dirs (snd (init_callback service_machine))
         = dirs service_machine ++ [g_cache_dirname (snd (init_callback service_machine))])
  /\ files (snd (init_callback service_machine)) = files service_machine.
Proof.
  apply (init_callback_directory service_machine (snd (init_callback service_machine))).
  vm_compute. reflexivity.
Defined.
